(** * The Spotify dashboard of [static/app.js]

    A shallow embedding of the chart code of the dashboard: the scatter
    plot of streams against playlist reach, the bar chart of the top
    artists, the comparison chart of the platforms, and the functions that
    load the three datasets and build the charts.

    Conventions.
    - The tick formatter works on IEEE 754 doubles ([spec_float] with 53
      bits of precision): the digits [toFixed] and [toString] print depend
      on the double a division rounds to.
    - The fields of the records and the geometry derived from them are
      rationals: the charts compare, scale and multiply them, and no NaN or
      rounding is modelled there.
    - What d3 and the browser do is written out as far as the code calls
      it: [d3.max], [d3.extent], linear and band scales, the clamp and the
      gestures of d3-zoom, a stable [Array.prototype.sort], and elements
      with their attributes and inline styles.
    - A transition of attributes or styles is taken at its end: the
      element holds the last value of the interpolator d3 picks for the
      target, a colour written [rgb(r, g, b)]. The zoom transition is
      followed frame by frame, the frames taken as d3 computes them.
    - An async function is cut at its [await]: one function up to the
      await, one for what runs when the awaited promises have settled.

    Definitions come first, module by module as the source has its
    functions; the statements about them follow. *)

From Stdlib Require Import ZArith QArith Qabs Qminmax String Ascii List Lia Lqa Sorted.
From Stdlib Require Import Floats.SpecFloat.
From stdpp Require Import gmap strings list.

(** * JavaScript numbers: [Number.prototype.toString] and [toFixed] *)

Module JSNumber.
Local Open Scope Z_scope.

(** A Number is an IEEE 754 binary64 value: a finite one is [m * 2^e] with
    a mantissa of at most 53 bits. *)
Definition prec : Z := 53.
Definition emax : Z := 1024.
Definition emin : Z := 3 - emax - prec.

Abbreviation number := spec_float.

(** An integer literal, [a >= b] and [a / b]. *)
Definition of_Z (z : Z) : number := binary_normalize prec emax z 0 false.
Definition ge (a b : number) : bool := SFleb b a.
Definition div (a b : number) : number := SFdiv prec emax a b.

(** Decimal digits of a natural number. *)
Definition digit (d : Z) : string := String (ascii_of_nat (48 + Z.to_nat d)) EmptyString.

Fixpoint decimal_aux (fuel : nat) (n : Z) : string :=
  match fuel with
  | O => EmptyString
  | S fuel' =>
      if n <? 10 then digit n
      else decimal_aux fuel' (n / 10) +:+ digit (n mod 10)
  end.

Definition decimal (n : Z) : string := decimal_aux (S (Z.to_nat (Z.log2 n))) n.

Fixpoint zeros (n : nat) : string :=
  match n with O => EmptyString | S n' => String "0" (zeros n') end.

(** [s * 10^p] compared with [c * 2^q]. *)
Definition cmp_dec_bin (s p c q : Z) : comparison :=
  (s * 10 ^ Z.max p 0 * 2 ^ Z.max (- q) 0) ?= (c * 2 ^ Z.max q 0 * 10 ^ Z.max (- p) 0).

(** The decimal [s * 10^p] reads back as the double [m * 2^e]: it lies
    between the midpoints towards the two neighbouring doubles, the
    midpoints themselves included when [m] is even. *)
Definition round_trips (m e s p : Z) : bool :=
  let lo := if (m =? 2 ^ (prec - 1)) && (emin <? e) then 4 * m - 1 else 4 * m - 2 in
  let hi := 4 * m + 2 in
  let cl := cmp_dec_bin s p lo (e - 2) in
  let ch := cmp_dec_bin s p hi (e - 2) in
  if Z.even m
  then match cl, ch with (Eq | Gt), (Eq | Lt) => true | _, _ => false end
  else match cl, ch with Gt, Lt => true | _, _ => false end.

(** The [n] with [10^(n-1) <= m * 2^e < 10^n], from an estimate that is off
    by one at most. *)
Fixpoint raise_exp10 (fuel : nat) (m e n : Z) : Z :=
  match fuel with
  | O => n
  | S fuel' =>
      match cmp_dec_bin 1 n m e with
      | Gt => n
      | _ => raise_exp10 fuel' m e (n + 1)
      end
  end.

Fixpoint lower_exp10 (fuel : nat) (m e n : Z) : Z :=
  match fuel with
  | O => n
  | S fuel' =>
      match cmp_dec_bin 1 (n - 1) m e with
      | Gt => lower_exp10 fuel' m e (n - 1)
      | _ => n
      end
  end.

Definition exp10 (m e : Z) : Z :=
  let est := ((Z.log2 m + e) * 30103) / 100000 + 1 in
  raise_exp10 4 m e (lower_exp10 4 m e est).

(** The [k]-digit integer [s] for which [s * 10^(n-k)] reads back as the
    double, if there is one: of the two integers around the exact quotient,
    the one that reads back, the closer one if both do, the even one at a
    tie. *)
Definition candidate (m e n k : Z) : option Z :=
  let p := n - k in
  let num := m * 2 ^ Z.max e 0 * 10 ^ Z.max (- p) 0 in
  let den := 2 ^ Z.max (- e) 0 * 10 ^ Z.max p 0 in
  let s_lo := num / den in
  let s_hi := s_lo + 1 in
  match round_trips m e s_lo p, round_trips m e s_hi p with
  | true, true =>
      match 2 * (num mod den) ?= den with
      | Lt => Some s_lo
      | Gt => Some s_hi
      | Eq => Some (if Z.even s_lo then s_lo else s_hi)
      end
  | true, false => Some s_lo
  | false, true => Some s_hi
  | false, false => None
  end.

(** The digits [s] with the smallest [k]; seventeen digits always do. *)
Fixpoint shortest (fuel : nat) (m e n k : Z) : Z * Z :=
  match fuel with
  | O => (m * 2 ^ Z.max e 0 * 10 ^ Z.max (- (n - k)) 0 / (2 ^ Z.max (- e) 0 * 10 ^ Z.max (n - k) 0), k)
  | S fuel' =>
      match candidate m e n k with
      | Some s => (s, k)
      | None => shortest fuel' m e n (k + 1)
      end
  end.

(** The notation [Number::toString] picks for digits [s], their number [k]
    and the exponent [n]: an integer, a decimal point inside, leading zeros
    after [0.], or an exponent. *)
Definition render (digits : string) (k n : Z) : string :=
  if (k <=? n) && (n <=? 21) then digits +:+ zeros (Z.to_nat (n - k))
  else if (0 <? n) && (n <=? 21) then
    substring 0 (Z.to_nat n) digits +:+ "." +:+ substring (Z.to_nat n) (Z.to_nat (k - n)) digits
  else if (-6 <? n) && (n <=? 0) then "0." +:+ zeros (Z.to_nat (- n)) +:+ digits
  else
    let e := n - 1 in
    let exponent := (if e <? 0 then "-" else "+") +:+ decimal (Z.abs e) in
    if k =? 1 then digits +:+ "e" +:+ exponent
    else substring 0 1 digits +:+ "." +:+ substring 1 (Z.to_nat (k - 1)) digits +:+ "e" +:+ exponent.

Definition toString_finite (m e : Z) : string :=
  let n := exp10 m e in
  let '(s, k) := shortest 17 m e n 1 in
  if s =? 10 ^ k then render "1" 1 (n + 1) else render (decimal s) k n.

(** [x.toString()] *)
Definition toString (x : number) : string :=
  match x with
  | S754_nan => "NaN"
  | S754_zero _ => "0"
  | S754_infinity s => if s then "-Infinity" else "Infinity"
  | S754_finite s m e => (if s then "-" else "") +:+ toString_finite (Zpos m) e
  end.

(** The integer [n] for which [n / 10^f] is nearest to [m * 2^e], the
    larger one of two. *)
Definition nearest (f : nat) (m e : Z) : Z :=
  let a := m * 2 ^ Z.max e 0 * 10 ^ Z.of_nat f in
  let b := 2 ^ Z.max (- e) 0 in
  (2 * a + b) / (2 * b).

(** [n] written with [f] digits after the point, padded with zeros on the
    left where it has fewer than [f + 1] digits. *)
Definition fixed_digits (f : nat) (n : Z) : string :=
  let m := decimal n in
  match f with
  | O => m
  | _ =>
      let k := String.length m in
      let m := if (k <=? f)%nat then zeros (f + 1 - k) +:+ m else m in
      let k := if (k <=? f)%nat then (f + 1)%nat else k in
      substring 0 (k - f) m +:+ "." +:+ substring (k - f) f m
  end.

Definition e21 : number := Eval vm_compute in of_Z (10 ^ 21).

(** [x.toFixed(f)]: from [10^21] up it answers with [x.toString()]. *)
Definition toFixed (f : nat) (x : number) : string :=
  match x with
  | S754_nan => "NaN"
  | S754_infinity s => if s then "-Infinity" else "Infinity"
  | S754_zero _ => fixed_digits f 0
  | S754_finite s m e =>
      (if s then "-" else "") +:+
      (if ge (SFabs x) e21 then toString_finite (Zpos m) e
       else fixed_digits f (nearest f (Zpos m) e))
  end.

(** [s.replace(/\.0$/, '')] *)
Fixpoint strip_point_zero (s : string) : string :=
  match s with
  | EmptyString => EmptyString
  | String c rest =>
      match c, rest with
      | "."%char, String "0"%char EmptyString => EmptyString
      | _, _ => String c (strip_point_zero rest)
      end
  end.

(** [a * b], [a + b], [a - b], [a < b], [a == b] and [isNaN(a)]. *)
Definition mul (a b : number) : number := SFmul prec emax a b.
Definition add (a b : number) : number := SFadd prec emax a b.
Definition sub (a b : number) : number := SFsub prec emax a b.
Definition lt (a b : number) : bool := SFltb a b.
Definition eq (a b : number) : bool := SFeqb a b.
Definition isNaN (a : number) : bool :=
  match a with S754_nan => true | _ => false end.

Definition zero : number := S754_zero false.
Definition one : number := Eval vm_compute in of_Z 1.

(** The values of the type that are Numbers: a finite one has a mantissa of
    exactly 53 bits, or fewer on the least exponent, and its exponent is in
    range. *)
Definition valid (x : number) : Prop := valid_binary prec emax x = true.

(** The rational a finite Number is. *)
Definition to_Q (x : number) : Q :=
  match x with
  | S754_finite s m e => (inject_Z (cond_Zopp s (Zpos m)) * 2 ^ e)%Q
  | _ => 0%Q
  end.

End JSNumber.

(** * d3-array and d3-scale, as far as the charts call them *)

Module D3.
Local Open Scope Q_scope.

(** [d3.ascending(a, b)] and [d3.descending(a, b)] on numbers: the sign of
    the result, [Lt] for a negative number, [Gt] for a positive one. *)
Definition ascending (a b : Q) : comparison := a ?= b.
Definition descending (a b : Q) : comparison := b ?= a.

(** [d3.max(values, accessor)]: the running maximum is replaced only by a
    strictly larger value; [undefined] values are skipped and an array
    without values gives [undefined]. *)
Definition max {A : Type} (values : list A) (valueof : A -> option Q) : option Q :=
  fold_left
    (fun acc a =>
       match valueof a, acc with
       | None, _ => acc
       | Some v, None => Some v
       | Some v, Some m => match m ?= v with Lt => Some v | _ => acc end
       end)
    values None.

(** [d3.extent(values, accessor)]: minimum and maximum in one pass. *)
Definition extent {A : Type} (values : list A) (valueof : A -> option Q)
  : option Q * option Q :=
  let r :=
    fold_left
      (fun acc a =>
         match valueof a, acc with
         | None, _ => acc
         | Some v, None => Some (v, v)
         | Some v, Some (lo, hi) =>
             let lo' := match lo ?= v with Gt => v | _ => lo end in
             let hi' := match hi ?= v with Lt => v | _ => hi end in
             Some (lo', hi')
         end)
      values None in
  match r with
  | Some (lo, hi) => (Some lo, Some hi)
  | None => (None, None)
  end.

(** [d3.scaleLinear()]: a domain whose ends may be [undefined] (they read as
    NaN) and a pixel range. *)
Record linear := {
  domain : option Q * option Q;
  range : Q * Q
}.

Definition interpolateNumber (a b t : Q) : Q := a * (1 - t) + b * t.

(** Applying a linear scale: normalize in the domain, interpolate in the
    range; a domain of one point maps everything to the middle of the range,
    a descending domain is read from its other end. *)
Definition scale (s : linear) (v : option Q) : option Q :=
  match domain s, v with
  | (Some d0, Some d1), Some x =>
      let (r0, r1) := range s in
      match d1 ?= d0 with
      | Lt => Some (interpolateNumber r1 r0 ((x - d1) / (d0 - d1)))
      | Eq => Some (interpolateNumber r0 r1 (1 # 2))
      | Gt => Some (interpolateNumber r0 r1 ((x - d0) / (d1 - d0)))
      end
  | _, _ => None
  end.

(** The domain setter of an ordinal or band scale keeps the first occurrence
    of every key. *)
Fixpoint distinct (seen keys : list string) : list string :=
  match keys with
  | [] => []
  | k :: keys' =>
      if bool_decide (k ∈ seen) then distinct seen keys'
      else k :: distinct (k :: seen) keys'
  end.

Record band := {
  band_domain : list string;
  band_range : Q * Q;
  padding : Q
}.

Definition scaleBand (keys : list string) (r : Q * Q) (p : Q) : band :=
  {| band_domain := distinct [] keys; band_range := r; padding := p |}.

Definition set_band_domain (keys : list string) (b : band) : band :=
  {| band_domain := distinct [] keys; band_range := band_range b; padding := padding b |}.

Definition band_step (b : band) : Q :=
  let (r0, r1) := band_range b in
  let n := inject_Z (Z.of_nat (length (band_domain b))) in
  let slots := n - padding b + padding b * 2 in
  Qabs (r1 - r0) / (if Qle_bool slots 1 then 1 else slots).

Definition bandwidth (b : band) : Q := band_step b * (1 - padding b).

Fixpoint index_of (k : string) (keys : list string) : option nat :=
  match keys with
  | [] => None
  | k' :: keys' =>
      if bool_decide (k = k') then Some O else S <$> index_of k keys'
  end.

(** Position of a key: slots run from the smaller end of the range, in
    domain order, or in the opposite order when the range is descending;
    a key outside the domain has no position. *)
Definition band_scale (b : band) (k : string) : option Q :=
  let (r0, r1) := band_range b in
  let n := length (band_domain b) in
  let lo := Qmin r0 r1 in
  let start :=
    lo + (Qabs (r1 - r0) - band_step b * (inject_Z (Z.of_nat n) - padding b)) * (1 # 2) in
  match index_of k (band_domain b) with
  | None => None
  | Some i =>
      let j := if Qle_bool r0 r1 then i else (n - 1 - i)%nat in
      Some (start + band_step b * inject_Z (Z.of_nat j))
  end.

(** [d3.color(s)] for a string written [#rrggbb] or [rgb(r, g, b)], the two
    notations the page's colours and the strings d3 writes come in: the
    red, green and blue channels. Any other string is taken as no colour. *)
Definition hex_digit (c : ascii) : option Z :=
  let n := Z.of_nat (nat_of_ascii c) in
  if ((48 <=? n) && (n <=? 57))%Z then Some (n - 48)%Z
  else if ((65 <=? n) && (n <=? 70))%Z then Some (n - 55)%Z
  else if ((97 <=? n) && (n <=? 102))%Z then Some (n - 87)%Z
  else None.

Definition hex_byte (a b : ascii) : option Z :=
  match hex_digit a, hex_digit b with
  | Some h, Some l => Some (16 * h + l)%Z
  | _, _ => None
  end.

Definition color_hex (s : string) : option (Z * Z * Z) :=
  match s with
  | String "#" (String r1 (String r2 (String g1 (String g2 (String b1 (String b2 EmptyString)))))) =>
      match hex_byte r1 r2, hex_byte g1 g2, hex_byte b1 b2 with
      | Some r, Some g, Some b => Some (r, g, b)
      | _, _, _ => None
      end
  | _ => None
  end.

(** The decimal digits [s] starts with, and what follows them. *)
Fixpoint digits (s : string) (acc : option Z) : option Z * string :=
  match s with
  | EmptyString => (acc, s)
  | String c rest =>
      let n := Z.of_nat (nat_of_ascii c) in
      if ((48 <=? n) && (n <=? 57))%Z
      then digits rest (Some (10 * default 0%Z acc + (n - 48))%Z)
      else (acc, s)
  end.

(** [s] without the [prefix] it starts with. *)
Definition after (prefix s : string) : option string :=
  if String.prefix prefix s
  then Some (String.substring (String.length prefix)
                              (String.length s - String.length prefix) s)
  else None.

Definition color_rgb (s : string) : option (Z * Z * Z) :=
  match after "rgb(" s with
  | None => None
  | Some s1 =>
      match digits s1 None with
      | (Some r, s2) =>
          match after ", " s2 with
          | None => None
          | Some s3 =>
              match digits s3 None with
              | (Some g, s4) =>
                  match after ", " s4 with
                  | None => None
                  | Some s5 =>
                      match digits s5 None with
                      | (Some b, s6) => if String.eqb s6 ")" then Some (r, g, b) else None
                      | (None, _) => None
                      end
                  end
              | (None, _) => None
              end
          end
      | (None, _) => None
      end
  end.

Definition color (s : string) : option (Z * Z * Z) :=
  match color_hex s with
  | Some c => Some c
  | None => color_rgb s
  end.

(** [rgb.toString()] of an opaque colour: [rgb(r, g, b)], every channel
    clamped to a byte. *)
Definition clampi (v : Z) : Z := Z.max 0 (Z.min 255 v).

Definition formatRgb (c : Z * Z * Z) : string :=
  let '(r, g, b) := c in
  "rgb(" +:+ JSNumber.decimal (clampi r) +:+ ", " +:+ JSNumber.decimal (clampi g)
  +:+ ", " +:+ JSNumber.decimal (clampi b) +:+ ")".

End D3.

(** * Elements of the page, as far as the handlers write to them *)

Module DOM.

Inductive value :=
| VNum (q : Q)
| VNaN
| VStr (s : string)
| VPx (q : Q).

Definition number (o : option Q) : value :=
  match o with Some q => VNum q | None => VNaN end.

(** An element: its attributes, its inline style, and its inner HTML. *)
Record element := {
  attrs : gmap string value;
  styles : gmap string value;
  html : string
}.

Definition blank : element := {| attrs := ∅; styles := ∅; html := "" |}.

(** A line break inside a template literal. *)
Definition LF : string := String (ascii_of_nat 10) EmptyString.

Definition attr (name : string) (v : value) (e : element) : element :=
  {| attrs := <[name := v]> (attrs e); styles := styles e; html := html e |}.

Definition style (name : string) (v : value) (e : element) : element :=
  {| attrs := attrs e; styles := <[name := v]> (styles e); html := html e |}.

Definition set_html (s : string) (e : element) : element :=
  {| attrs := attrs e; styles := styles e; html := s |}.

(** [selection.transition().duration(ms)...]: the element as it is once the
    transition has run to its end, under the chained calls [tween]. A later
    transition on the same element replaces an earlier one, so applying
    them in call order gives the settled element. *)
Definition transition (ms : Z) (tween : element -> element) (e : element) : element :=
  tween e.

(** [transition.attr(name, target)] at the end of the transition. d3 reads
    the attribute when the transition starts and writes the values of an
    interpolator from what it read to the target, the last one at the end:
    - an attribute whose text is the target's text already is left alone;
    - a target of type number is reached with [d3.interpolateNumber], whose
      end value is the target when the attribute was a number or missing,
      and NaN when it held text that is no number (a colour, a length with
      its unit, NaN);
    - a target string that [d3.color] reads is reached with
      [d3.interpolateRgb], whose end value is written [rgb(r, g, b)];
    - any other string is reached with [d3.interpolateString], which ends
      in the string itself.
    Attribute texts that are numbers are kept as [VNum] throughout. *)
Definition transition_attr (name : string) (target : value) (e : element) : element :=
  match target with
  | VNum b =>
      match attrs e !! name with
      | None | Some (VNum _) => attr name (VNum b) e
      | Some _ => attr name VNaN e
      end
  | VStr s =>
      let at_end :=
        match D3.color s with
        | Some c => VStr (D3.formatRgb c)
        | None => VStr s
        end in
      match attrs e !! name with
      | Some (VStr s0) => if String.eqb s0 s then e else attr name at_end e
      | _ => attr name at_end e
      end
  | _ => attr name target e
  end.

(** [transition.attr(name, d => ...)] at the end of the transition, where
    the function gives the Number [n]: a finite target as above; NaN ends
    in NaN; an infinite target is reached from a number or a missing
    attribute, is left alone where the attribute reads the same, and ends in
    NaN from anything else. *)
Definition transition_number (name : string) (n : JSNumber.number) (e : element) : element :=
  match n with
  | S754_nan => attr name VNaN e
  | S754_infinity s =>
      let text := if s then "-Infinity"%string else "Infinity"%string in
      match attrs e !! name with
      | None | Some (VNum _) => attr name (VStr text) e
      | Some (VStr s0) => if String.eqb s0 text then e else attr name VNaN e
      | Some _ => attr name VNaN e
      end
  | _ => transition_attr name (VNum (JSNumber.to_Q n)) e
  end.

End DOM.

Module Console.

Inductive level := log | error.

Record entry := { lvl : level; message : string }.

Definition is_error (e : entry) : bool :=
  match lvl e with error => true | log => false end.

Definition errors (c : list entry) : list entry := List.filter is_error c.

End Console.

(** Chart geometry: [{width, height, margin: {top, right, bottom, left}}]. *)
Record config := {
  width : Q;
  height : Q;
  margin_top : Q;
  margin_right : Q;
  margin_bottom : Q;
  margin_left : Q
}.

(** A pointer event, by its page coordinates. *)
Record mouse_event := { pageX : Q; pageY : Q }.

(** The hidden tooltip [div] each tooltip-owning chart appends to [body]. *)
Definition new_tooltip : DOM.element :=
  DOM.style "pointer-events" (DOM.VStr "none")
    (DOM.style "border-radius" (DOM.VStr "4px")
      (DOM.style "border" (DOM.VStr "1px solid #ddd")
        (DOM.style "padding" (DOM.VStr "10px")
          (DOM.style "background" (DOM.VStr "white")
            (DOM.style "position" (DOM.VStr "absolute")
              (DOM.style "opacity" (DOM.VNum 0)
                (DOM.attr "class" (DOM.VStr "tooltip") DOM.blank))))))).

(** Number formatting that depends on the browser's locale or on d3-format:
    [Number.prototype.toLocaleString] and [d3.format(",")]. The charts only
    paste their results into tooltip and label texts. *)
Record formatters := {
  toLocaleString : Q -> string;
  formatNumber : Q -> string
}.

(** * d3-zoom: the transform kept on the zoomed node *)

Module Zoom.
Local Open Scope Q_scope.

Record transform := { k : Q; x : Q; y : Q }.

Definition zoomIdentity : transform := {| k := 1; x := 0; y := 0 |}.

Definition invert (t : transform) (p : Q * Q) : Q * Q :=
  ((fst p - x t) / k t, (snd p - y t) / k t).

(** [Math.max(scaleExtent[0], Math.min(scaleExtent[1], k))] *)
Definition clamp (scaleExtent : Q * Q) (k' : Q) : Q :=
  Qmax (fst scaleExtent) (Qmin (snd scaleExtent) k').

Definition scale (scaleExtent : Q * Q) (t : transform) (k' : Q) : transform :=
  {| k := clamp scaleExtent k'; x := x t; y := y t |}.

Definition translate (t : transform) (p0 p1 : Q * Q) : transform :=
  {| k := k t; x := fst p0 - fst p1 * k t; y := snd p0 - snd p1 * k t |}.

(** The gestures the behavior listens to: a wheel turn scales by a positive
    factor about the pointer, a drag moves the grabbed point under the
    pointer, a press is a mouse-down released where it went down, a double
    click doubles the scale (halves it with shift). A wheel turn is the
    first of its gesture: no other one came in the 150 ms before it. *)
Inductive gesture :=
| wheel (factor : Q) (p : Q * Q)
| drag (p0 p : Q * Q)
| press
| dblclick (shiftKey : bool) (p : Q * Q).

(** The transform the gesture asks for when the node holds [t]. *)
Definition apply (scaleExtent : Q * Q) (g : gesture) (t : transform) : transform :=
  match g with
  | wheel factor p => translate (scale scaleExtent t (k t * factor)) p (invert t p)
  | drag p0 p => translate t p (invert t p0)
  | press => t
  | dblclick shiftKey p =>
      translate (scale scaleExtent t (k t * (if shiftKey then 1 # 2 else 2))) p (invert t p)
  end.

(** What the node holds: its current transform ([__zoom]) and, once a
    transition was scheduled on it with [zoom.transform], that transition:
    its duration in milliseconds and the transform it ends in. While the
    transition runs, d3 writes the frames of [d3.interpolateZoom] to
    [current]. *)
Record state := {
  current : transform;
  scheduled : option (Z * transform)
}.

End Zoom.

(** * The scatter plot: [createScatterPlot] *)

Module Scatter.
Local Open Scope Q_scope.

Record datum := { streams : Q; reach : Q; track : string; artist : string }.

Definition default_config : config :=
  {| width := 800; height := 400;
     margin_top := 20; margin_right := 30; margin_bottom := 40; margin_left := 150 |}.

Record chart := {
  cfg : config;
  data : list datum;
  x : D3.linear;
  y : D3.linear;
  circles : list DOM.element;
  tooltip : nat;
  scaleExtent : Q * Q;
  zoom : Zoom.state;
  g_transform : option Zoom.transform
}.

Definition circle (x y : D3.linear) (d : datum) : DOM.element :=
  DOM.style "opacity" (DOM.VNum (7 # 10))
    (DOM.attr "fill" (DOM.VStr "#1DB954")
      (DOM.attr "r" (DOM.VNum 5)
        (DOM.attr "cy" (DOM.number (D3.scale y (Some (reach d))))
          (DOM.attr "cx" (DOM.number (D3.scale x (Some (streams d)))) DOM.blank)))).

(** The chart [createScatterPlot] builds in its container; [tip] is the
    place of the tooltip it appends to [body]. *)
Definition create (c : config) (data : list datum) (tip : nat) : chart :=
  let x :=
    {| D3.domain := D3.extent data (fun d => Some (streams d));
       D3.range := (margin_left c, width c - margin_right c) |} in
  let y :=
    {| D3.domain := (Some 0, D3.max data (fun d => Some (reach d)));
       D3.range := (height c - margin_bottom c, margin_top c) |} in
  {| cfg := c; data := data; x := x; y := y;
     circles := map (circle x y) data;
     tooltip := tip;
     scaleExtent := (1 # 2, 5);
     zoom := {| Zoom.current := Zoom.zoomIdentity; Zoom.scheduled := None |};
     g_transform := None |}.

Definition with_circles (cs : list DOM.element) (c : chart) : chart :=
  {| cfg := cfg c; data := data c; x := x c; y := y c; circles := cs;
     tooltip := tooltip c; scaleExtent := scaleExtent c; zoom := zoom c;
     g_transform := g_transform c |}.

(** The template literal [mouseover] hands to [tooltip.html], line breaks
    and indentation included. *)
Definition tooltip_html (f : formatters) (d : datum) : string :=
  DOM.LF +:+ "                <strong>Track:</strong> " +:+ track d +:+ " <br>"
  +:+ DOM.LF +:+ "                <strong>Artist:</strong> " +:+ artist d +:+ " <br> "
  +:+ DOM.LF +:+ "                <strong>Streams:</strong> " +:+ toLocaleString f (streams d)
  +:+ " <br>"
  +:+ DOM.LF +:+ "                <strong>Reach:</strong> " +:+ toLocaleString f (reach d)
  +:+ DOM.LF +:+ "          ".

(** The [mouseover] handler of circle [i], on the chart and on the tooltips
    of [body]. *)
Definition mouseover (f : formatters) (ev : mouse_event) (i : nat)
    (c : chart) (tips : list DOM.element) : chart * list DOM.element :=
  match data c !! i with
  | None => (c, tips)
  | Some d =>
      (with_circles
         (alter (DOM.transition 500
                   (fun e => DOM.transition_attr "opacity" (DOM.VNum (1 # 2))
                               (DOM.transition_attr "fill" (DOM.VStr "#191414") e)))
                i (circles c)) c,
       alter (fun t =>
                DOM.style "top" (DOM.VPx (pageY ev - 20))
                  (DOM.style "left" (DOM.VPx (pageX ev + 10))
                    (DOM.set_html (tooltip_html f d)
                      (DOM.transition 500 (DOM.style "opacity" (DOM.VNum (9 # 10))) t))))
             (tooltip c) tips)
  end.

(** The [mouseout] handler of circle [i]. *)
Definition mouseout (i : nat) (c : chart) (tips : list DOM.element)
  : chart * list DOM.element :=
  match data c !! i with
  | None => (c, tips)
  | Some _ =>
      (with_circles
         (alter (DOM.transition 500
                   (fun e => DOM.transition_attr "opacity" (DOM.VNum 1)
                               (DOM.transition_attr "fill" (DOM.VStr "#1DB954") e)))
                i (circles c)) c,
       alter (DOM.transition 500 (DOM.style "opacity" (DOM.VNum 0))) (tooltip c) tips)
  end.

Definition with_zoom (z : Zoom.state) (g : option Zoom.transform) (c : chart) : chart :=
  {| cfg := cfg c; data := data c; x := x c; y := y c; circles := circles c;
     tooltip := tooltip c; scaleExtent := scaleExtent c; zoom := z; g_transform := g |}.

(** [zoomed(event)]: the group takes the event's transform. *)
Definition zoomed (t : Zoom.transform) (c : chart) : chart :=
  with_zoom (zoom c) (Some t) c.

(** The transform [t] reaches the node and [zoomed] is called with it; [s]
    is the transition that stays scheduled. *)
Definition zoom_to (t : Zoom.transform) (s : option (Z * Zoom.transform)) (c : chart) : chart :=
  zoomed t (with_zoom {| Zoom.current := t; Zoom.scheduled := s |} (g_transform c) c).

(** A gesture on the svg, as d3-zoom's listeners handle it.
    - [wheeled] returns at once when the clamped scale is the scale the
      node has; otherwise it interrupts the transition of the node and
      zooms to the transform the turn asks for.
    - [mousedowned] interrupts the transition of the node; every move of
      a drag zooms to the transform that keeps the grabbed point under the
      pointer.
    - [dblclicked], which two presses precede, schedules a transition of
      250 ms to the transform the click asks for. *)
Definition gesture (g : Zoom.gesture) (c : chart) : chart :=
  let t := Zoom.current (zoom c) in
  let t' := Zoom.apply (scaleExtent c) g t in
  match g with
  | Zoom.wheel _ _ => if Qeq_bool (Zoom.k t') (Zoom.k t) then c else zoom_to t' None c
  | Zoom.drag _ _ => zoom_to t' None c
  | Zoom.press =>
      with_zoom {| Zoom.current := t; Zoom.scheduled := None |} (g_transform c) c
  | Zoom.dblclick _ _ =>
      with_zoom {| Zoom.current := t; Zoom.scheduled := Some (250%Z, t') |} (g_transform c) c
  end.

(** [resetZoom()]: a transition of 750 ms on the svg that ends in
    [d3.zoomIdentity]; it takes the place of a transition scheduled
    before. *)
Definition resetZoom (c : chart) : chart :=
  with_zoom {| Zoom.current := Zoom.current (zoom c);
               Zoom.scheduled := Some (750%Z, Zoom.zoomIdentity) |} (g_transform c) c.

(** A frame of the transition under way: d3 zooms to the transform [t]
    that [d3.interpolateZoom] gives for the time elapsed. The frames are
    taken as they come; nothing clamps them. *)
Definition frame (t : Zoom.transform) (c : chart) : chart :=
  match Zoom.scheduled (zoom c) with
  | None => c
  | Some s => zoom_to t (Some s) c
  end.

(** The end of the transition under way: its last frame is the transform
    the transition was given. *)
Definition transition_end (c : chart) : chart :=
  match Zoom.scheduled (zoom c) with
  | None => c
  | Some (_, t) => zoom_to t None c
  end.

(** One step of the jitter: [d.streams *= (0.95 + Math.random() * 0.1)] and
    the same for [d.reach], the draws taken in call order, with the sums
    and products taken exactly, as the geometry of this module is. Module
    [Jitter] follows the same lines in binary64. *)
Definition jitter (random : nat -> Q) (i : nat) (d : datum) : datum :=
  {| streams := streams d * ((95 # 100) + random (2 * i)%nat * (1 # 10));
     reach := reach d * ((95 # 100) + random (2 * i + 1)%nat * (1 # 10));
     track := track d; artist := artist d |}.

(** [update()]: jitter every record of the data array in place, then move
    every circle to the position of its record under the scales as they are. *)
Definition update (random : nat -> Q) (c : chart) : chart :=
  let data' := imap (jitter random) (data c) in
  {| cfg := cfg c; data := data'; x := x c; y := y c;
     circles :=
       zip_with
         (fun e d =>
            DOM.transition 1000
              (fun e => DOM.attr "cy" (DOM.number (D3.scale (y c) (Some (reach d))))
                          (DOM.attr "cx" (DOM.number (D3.scale (x c) (Some (streams d)))) e)) e)
         (circles c) data';
     tooltip := tooltip c; scaleExtent := scaleExtent c; zoom := zoom c;
     g_transform := g_transform c |}.

(** The tick formatter [customFormat] of [createScatterPlot]. *)
Definition customFormat (d : JSNumber.number) : string :=
  if JSNumber.ge d (JSNumber.of_Z 1000000000) then
    JSNumber.strip_point_zero (JSNumber.toFixed 1 (JSNumber.div d (JSNumber.of_Z 1000000000)))
    +:+ "B"
  else if JSNumber.ge d (JSNumber.of_Z 1000000) then
    JSNumber.strip_point_zero (JSNumber.toFixed 1 (JSNumber.div d (JSNumber.of_Z 1000000)))
    +:+ "M"
  else if JSNumber.ge d (JSNumber.of_Z 1000) then
    JSNumber.strip_point_zero (JSNumber.toFixed 1 (JSNumber.div d (JSNumber.of_Z 1000)))
    +:+ "K"
  else JSNumber.toString d.

End Scatter.

(** * [Array.prototype.sort] *)

Module JSArray.

(** Insertion of [a] into a sorted list, before the first element the
    comparator does not put in front of it. *)
Fixpoint insert {A : Type} (compareFn : A -> A -> comparison) (a : A) (l : list A) : list A :=
  match l with
  | [] => [a]
  | b :: l' =>
      match compareFn a b with
      | Gt => b :: insert compareFn a l'
      | _ => a :: l
      end
  end.

(** [array.sort(compareFn)]: the standard requires a stable sort, and for a
    consistent comparator every stable sort returns the same array, the one
    insertion sort computes. *)
Definition sort {A : Type} (compareFn : A -> A -> comparison) (l : list A) : list A :=
  foldr (insert compareFn) [] l.

End JSArray.

(** * The bar chart: [createTopArtistChart] *)

Module TopArtists.
Local Open Scope Q_scope.

Record datum := { artist : string; streams : Q }.

Definition default_config : config :=
  {| width := 800; height := 400;
     margin_top := 20; margin_right := 150; margin_bottom := 60; margin_left := 150 |}.

(** The closure of one chart: the sort toggle, the data array, the scales,
    and the bars in document order, each with the record bound to it. *)
Record chart := {
  cfg : config;
  sortedAscending : bool;
  data : list datum;
  x : D3.linear;
  y : D3.band;
  rects : list (datum * DOM.element)
}.

Definition rect (c : config) (x : D3.linear) (y : D3.band) (d : datum) : DOM.element :=
  DOM.attr "opacity" (DOM.VNum (7 # 10))
    (DOM.attr "fill" (DOM.VStr "#1DB954")
      (DOM.attr "height" (DOM.VNum (D3.bandwidth y))
        (DOM.attr "width"
           (DOM.number ((fun px => px - margin_left c) <$> D3.scale x (Some (streams d))))
          (DOM.attr "x" (DOM.VNum (margin_left c))
            (DOM.attr "y" (DOM.number (D3.band_scale y (artist d))) DOM.blank))))).

Definition create (c : config) (data : list datum) : chart :=
  let x :=
    {| D3.domain := (Some 0, D3.max data (fun d => Some (streams d)));
       D3.range := (margin_left c, width c - margin_right c) |} in
  let y :=
    D3.scaleBand (map artist data) (height c - margin_bottom c, margin_top c) (1 # 10) in
  {| cfg := c; sortedAscending := true; data := data; x := x; y := y;
     rects := map (fun d => (d, rect c x y d)) data |}.

(** The comparator [sortBars] hands to [data.sort]. *)
Definition compareFn (ascending : bool) (a b : datum) : comparison :=
  if ascending then D3.ascending (streams a) (streams b)
  else D3.descending (streams a) (streams b).

(** [selection.data(data, d => d.artist)] followed by a transition of the
    [y] attribute: a bar whose key an earlier bar already carries leaves the
    selection untouched; any other bar takes the first record of the array
    with its key, and moves to that key's band. *)
Fixpoint join (y : D3.band) (data : list datum) (seen : list string)
    (nodes : list (datum * DOM.element)) : list (datum * DOM.element) :=
  match nodes with
  | [] => []
  | (d, e) :: nodes' =>
      let key := artist d in
      (if bool_decide (key ∈ seen) then (d, e)
       else
         match List.find (fun d' => bool_decide (artist d' = key)) data with
         | None => (d, e)
         | Some d' =>
             (d', DOM.transition 1000
                    (DOM.attr "y" (DOM.number (D3.band_scale y (artist d')))) e)
         end)
      :: join y data (key :: seen) nodes'
  end.

(** [sortBars()]: flip the toggle, sort the data array in place in the new
    direction, give the band scale the names in the new order, and move the
    bars. *)
Definition sortBars (c : chart) : chart :=
  let sortedAscending' := negb (sortedAscending c) in
  let data' := JSArray.sort (compareFn sortedAscending') (data c) in
  let y' := D3.set_band_domain (map artist data') (y c) in
  {| cfg := cfg c; sortedAscending := sortedAscending'; data := data';
     x := x c; y := y'; rects := join y' data' [] (rects c) |}.

Definition with_rects (rs : list (datum * DOM.element)) (c : chart) : chart :=
  {| cfg := cfg c; sortedAscending := sortedAscending c; data := data c;
     x := x c; y := y c; rects := rs |}.

Definition mouseover (i : nat) (c : chart) : chart :=
  with_rects
    (alter (fun de =>
              (fst de,
               DOM.transition 500
                 (fun e => DOM.transition_attr "stroke-width" (DOM.VNum 2)
                             (DOM.transition_attr "stroke" (DOM.VStr "#191414")
                               (DOM.transition_attr "opacity" (DOM.VNum 1)
                                 (DOM.transition_attr "fill" (DOM.VStr "#1DB954") e))))
                 (snd de)))
           i (rects c)) c.

Definition mouseout (i : nat) (c : chart) : chart :=
  with_rects
    (alter (fun de =>
              (fst de,
               DOM.transition 500
                 (fun e => DOM.transition_attr "stroke-width" (DOM.VNum 0)
                             (DOM.transition_attr "stroke" (DOM.VNum 0)
                               (DOM.transition_attr "opacity" (DOM.VNum (7 # 10))
                                 (DOM.transition_attr "fill" (DOM.VStr "#1DB954") e))))
                 (snd de)))
           i (rects c)) c.

(** The tick formatter [customFormat] of [createTopArtistChart]. *)
Definition customFormat (d : JSNumber.number) : string :=
  if JSNumber.ge d (JSNumber.of_Z 1000000000) then
    JSNumber.strip_point_zero (JSNumber.toFixed 1 (JSNumber.div d (JSNumber.of_Z 1000000000)))
    +:+ "B"
  else if JSNumber.ge d (JSNumber.of_Z 1000000) then
    JSNumber.strip_point_zero (JSNumber.toFixed 1 (JSNumber.div d (JSNumber.of_Z 1000000)))
    +:+ "M"
  else if JSNumber.ge d (JSNumber.of_Z 1000) then
    JSNumber.strip_point_zero (JSNumber.toFixed 1 (JSNumber.div d (JSNumber.of_Z 1000)))
    +:+ "K"
  else JSNumber.toString d.

End TopArtists.

(** * The comparison chart: [createPlatformComparison] *)

Module Platform.
Local Open Scope Q_scope.

Record datum := { platform : string; total : Q; average : Q; median : Q }.

(** [d[metric]]: a property read by name. *)
Definition field (metric : string) (d : datum) : option Q :=
  if bool_decide (metric = "total") then Some (total d)
  else if bool_decide (metric = "average") then Some (average d)
  else if bool_decide (metric = "median") then Some (median d)
  else None.

Definition default_config : config :=
  {| width := 800; height := 400;
     margin_top := 20; margin_right := 150; margin_bottom := 60; margin_left := 150 |}.

Definition platformColors (name : string) : option string :=
  if bool_decide (name = "Spotify") then Some "#1DB954"
  else if bool_decide (name = "YouTube") then Some "#FF0000"
  else if bool_decide (name = "TikTok") then Some "#000000"
  else None.

(** [selection.attr("fill", d => platformColors[d.platform])]: a platform
    without a colour leaves the element without the attribute. *)
Definition fill (d : datum) (e : DOM.element) : DOM.element :=
  match platformColors (platform d) with
  | Some colour => DOM.attr "fill" (DOM.VStr colour) e
  | None =>
      {| DOM.attrs := delete "fill" (DOM.attrs e); DOM.styles := DOM.styles e;
         DOM.html := DOM.html e |}
  end.

Definition toUpperCase (c : ascii) : ascii :=
  let n := nat_of_ascii c in
  if ((97 <=? n) && (n <=? 122))%nat then ascii_of_nat (n - 32) else c.

(** [metric.charAt(0).toUpperCase() + metric.slice(1)] *)
Definition capitalize (s : string) : string :=
  match s with
  | EmptyString => EmptyString
  | String c rest => String (toUpperCase c) rest
  end.

Definition label_text (metric : string) : string := capitalize metric +:+ " Streams/Views".

(** [transition.attr("fill", d => platformColors[d.platform])] at the end
    of the transition; a platform without a colour has the attribute
    removed when the transition starts. *)
Definition transition_fill (d : datum) (e : DOM.element) : DOM.element :=
  match platformColors (platform d) with
  | Some colour => DOM.transition_attr "fill" (DOM.VStr colour) e
  | None =>
      {| DOM.attrs := delete "fill" (DOM.attrs e); DOM.styles := DOM.styles e;
         DOM.html := DOM.html e |}
  end.

(** The closure of one chart. [metric] is the parameter of
    [createPlatformComparison]; nothing assigns to it afterwards. *)
Record chart := {
  cfg : config;
  metric : string;
  data : list datum;
  x : D3.band;
  y : D3.linear;
  rects : list DOM.element;
  y_label : string;
  tooltip : nat
}.

(** The [y] and [height] attributes of a bar under scale [y] for [metric]. *)
Definition place (c : config) (y : D3.linear) (metric : string) (d : datum)
    (e : DOM.element) : DOM.element :=
  let py := D3.scale y (field metric d) in
  DOM.attr "height" (DOM.number ((fun p => height c - margin_bottom c - p) <$> py))
    (DOM.attr "y" (DOM.number py) e).

Definition y_scale (c : config) (data : list datum) (metric : string) : D3.linear :=
  {| D3.domain := (Some 0, D3.max data (field metric));
     D3.range := (height c - margin_bottom c, margin_top c) |}.

Definition rect (c : config) (x : D3.band) (y : D3.linear) (metric : string) (d : datum)
  : DOM.element :=
  fill d
    (DOM.attr "height"
       (DOM.number ((fun p => height c - margin_bottom c - p) <$> D3.scale y (field metric d)))
      (DOM.attr "width" (DOM.VNum (D3.bandwidth x))
        (DOM.attr "y" (DOM.number (D3.scale y (field metric d)))
          (DOM.attr "x" (DOM.number (D3.band_scale x (platform d))) DOM.blank)))).

Definition create (c : config) (data : list datum) (metric : string) (tip : nat) : chart :=
  let x :=
    D3.scaleBand (map platform data) (margin_left c, width c - margin_right c) (1 # 10) in
  let y := y_scale c data metric in
  {| cfg := c; metric := metric; data := data; x := x; y := y;
     rects := map (rect c x y metric) data;
     y_label := label_text metric;
     tooltip := tip |}.

(** [updateChart(metric)]: its parameter shadows the chart's [metric]. *)
Definition updateChart (metric' : string) (c : chart) : chart :=
  let y' := y_scale (cfg c) (data c) metric' in
  {| cfg := cfg c; metric := metric c; data := data c; x := x c; y := y';
     rects := zip_with (fun e d => DOM.transition 1000 (place (cfg c) y' metric' d) e)
                (rects c) (data c);
     y_label := label_text metric';
     tooltip := tooltip c |}.

Definition with_rects (rs : list DOM.element) (c : chart) : chart :=
  {| cfg := cfg c; metric := metric c; data := data c; x := x c; y := y c;
     rects := rs; y_label := y_label c; tooltip := tooltip c |}.

(** The template literal [mouseover] hands to [tooltip.html], line breaks
    and indentation included; [v] is [d[metric]]. *)
Definition tooltip_html (f : formatters) (d : datum) (v : Q) : string :=
  DOM.LF +:+ "                <strong>Track:</strong> " +:+ platform d +:+ " <br>"
  +:+ DOM.LF +:+ "                <strong>Streams/Views:</strong> " +:+ toLocaleString f v
  +:+ " <br>"
  +:+ DOM.LF +:+ DOM.LF +:+ "        ".

(** The [mouseover] handler of bar [i]. The tooltip text reads [d[metric]]
    with the chart's own [metric]; where that is [undefined] the handler
    stops at the read, after both transitions were started. *)
Definition mouseover (f : formatters) (ev : mouse_event) (i : nat)
    (c : chart) (tips : list DOM.element) : chart * list DOM.element :=
  match data c !! i with
  | None => (c, tips)
  | Some d =>
      (with_rects
         (alter (DOM.transition 100
                   (fun e => DOM.transition_attr "opacity" (DOM.VNum (1 # 2))
                               (transition_fill d e))) i (rects c)) c,
       alter (fun t =>
                let t := DOM.transition 500 (DOM.style "opacity" (DOM.VNum (9 # 10))) t in
                match field (metric c) d with
                | None => t
                | Some v =>
                    DOM.style "top" (DOM.VPx (pageY ev - 20))
                      (DOM.style "left" (DOM.VPx (pageX ev + 10))
                        (DOM.set_html (tooltip_html f d v) t))
                end)
             (tooltip c) tips)
  end.

Definition mouseout (i : nat) (c : chart) (tips : list DOM.element)
  : chart * list DOM.element :=
  match data c !! i with
  | None => (c, tips)
  | Some d =>
      (with_rects
         (alter (DOM.transition 500
                   (fun e => DOM.transition_attr "opacity" (DOM.VNum 1)
                               (transition_fill d e))) i (rects c)) c,
       alter (DOM.transition 500 (DOM.style "opacity" (DOM.VNum 0))) (tooltip c) tips)
  end.

(** The tick formatter [customFormat] of [createPlatformComparison]. *)
Definition customFormat (d : JSNumber.number) : string :=
  if JSNumber.ge d (JSNumber.of_Z 1000000000) then
    JSNumber.strip_point_zero (JSNumber.toFixed 1 (JSNumber.div d (JSNumber.of_Z 1000000000)))
    +:+ "B"
  else if JSNumber.ge d (JSNumber.of_Z 1000000) then
    JSNumber.strip_point_zero (JSNumber.toFixed 1 (JSNumber.div d (JSNumber.of_Z 1000000)))
    +:+ "M"
  else if JSNumber.ge d (JSNumber.of_Z 1000) then
    JSNumber.strip_point_zero (JSNumber.toFixed 1 (JSNumber.div d (JSNumber.of_Z 1000)))
    +:+ "K"
  else JSNumber.toString d.

End Platform.

(** * The dashboard: [initializeDashboard], [integrateVisualizations] *)

Module Dashboard.
Local Open Scope Q_scope.

(** What a click on a button runs: the handler, and the chart whose closure
    it belongs to, by the chart's place in its container. *)
Inductive handler :=
| resetZoom (chart : nat)
| update (chart : nat)
| sortBars (chart : nat)
| updateChart (chart : nat) (metric : string).

Record button := { textContent : string; onclick : handler }.

(** The page: the console, the dashboard container with its three cards
    (the svg elements appended to each card and the buttons appended to its
    control region), and the tooltips appended to [body]. [dashboard] is the
    id of the container element; [mounted] says whether the cards and their
    control regions exist, which they do once [initializeDashboard] has
    written the container. *)
Record page := {
  dashboard : string;
  mounted : bool;
  console : list Console.entry;
  scatterPlot : list Scatter.chart;
  controlsS : list button;
  topArtists : list TopArtists.chart;
  controlsB : list button;
  platformComparison : list Platform.chart;
  controlsP : list button;
  tooltips : list DOM.element
}.

Definition console_log (level : Console.level) (message : string) (p : page) : page :=
  {| dashboard := dashboard p; mounted := mounted p;
     console := console p ++ [{| Console.lvl := level; Console.message := message |}];
     scatterPlot := scatterPlot p; controlsS := controlsS p;
     topArtists := topArtists p; controlsB := controlsB p;
     platformComparison := platformComparison p; controlsP := controlsP p;
     tooltips := tooltips p |}.

(** [createScatterPlot("#scatterPlot", data)]: two buttons into [controlsS],
    an svg into the card, a tooltip into [body]. *)
Definition createScatterPlot (data : list Scatter.datum) (c : config) (p : page) : page :=
  let i := length (scatterPlot p) in
  {| dashboard := dashboard p; mounted := mounted p; console := console p;
     scatterPlot := scatterPlot p ++ [Scatter.create c data (length (tooltips p))];
     controlsS := controlsS p ++
       [{| textContent := "Reset Zoom"; onclick := resetZoom i |};
        {| textContent := "Update Data"; onclick := update i |}];
     topArtists := topArtists p; controlsB := controlsB p;
     platformComparison := platformComparison p; controlsP := controlsP p;
     tooltips := tooltips p ++ [new_tooltip] |}.

(** [createTopArtistChart("#topArtists", data)] *)
Definition createTopArtistChart (data : list TopArtists.datum) (c : config) (p : page) : page :=
  let i := length (topArtists p) in
  {| dashboard := dashboard p; mounted := mounted p; console := console p;
     scatterPlot := scatterPlot p; controlsS := controlsS p;
     topArtists := topArtists p ++ [TopArtists.create c data];
     controlsB := controlsB p ++ [{| textContent := "Sort"; onclick := sortBars i |}];
     platformComparison := platformComparison p; controlsP := controlsP p;
     tooltips := tooltips p |}.

(** [createPlatformComparison("#platformComparison", data)] *)
Definition createPlatformComparison (data : list Platform.datum) (metric : string)
    (c : config) (p : page) : page :=
  let i := length (platformComparison p) in
  {| dashboard := dashboard p; mounted := mounted p; console := console p;
     scatterPlot := scatterPlot p; controlsS := controlsS p;
     topArtists := topArtists p; controlsB := controlsB p;
     platformComparison :=
       platformComparison p ++ [Platform.create c data metric (length (tooltips p))];
     controlsP := controlsP p ++
       [{| textContent := "Total"; onclick := updateChart i "total" |};
        {| textContent := "Median"; onclick := updateChart i "median" |};
        {| textContent := "Average"; onclick := updateChart i "average" |}];
     tooltips := tooltips p ++ [new_tooltip] |}.

(** The bodies of the three endpoints, as JSON of the documented shape. *)
Record track_json := {
  Spotify_Streams : Q;
  Spotify_Playlist_Reach : Q;
  Track : string;
  Artist : string
}.

Record artist_json := { top_Artist : string; top_Spotify_Streams : Q }.

Record stats_json := { stats_total : Q; stats_average : Q; stats_median : Q }.

(** A response: its [ok] flag and what [response.json()] gives, [None]
    when the body is not JSON and the promise rejects. *)
Record response (A : Type) := { ok : bool; json : option A }.
Arguments ok {A} _.
Arguments json {A} _.

(** How a [fetch] promise settles. *)
Inductive settled (A : Type) :=
| rejected
| fulfilled (r : response A).
Arguments rejected {A}.
Arguments fulfilled {A} _.

(** One call of [integrateVisualizations] waiting in [Promise.all]: the
    settled fetches so far, and whether the call has returned ([Some true]
    with the controller, [Some false] with [undefined]). *)
Record batch := {
  tracksResponse : option (settled (list track_json));
  artistsResponse : option (settled (list artist_json));
  platformsResponse : option (settled (list (string * stats_json)));
  returned : option bool
}.

Definition scatterData (tracksData : list track_json) : list Scatter.datum :=
  map (fun d => {| Scatter.streams := Spotify_Streams d;
                   Scatter.reach := Spotify_Playlist_Reach d;
                   Scatter.track := Track d;
                   Scatter.artist := Artist d |}) tracksData.

Definition barChartData (topArtistsData : list artist_json) : list TopArtists.datum :=
  map (fun d => {| TopArtists.artist := top_Artist d;
                   TopArtists.streams := top_Spotify_Streams d |}) topArtistsData.

Definition platformData (platformsData : list (string * stats_json)) : list Platform.datum :=
  map (fun kv => {| Platform.platform := fst kv;
                    Platform.total := stats_total (snd kv);
                    Platform.average := stats_average (snd kv);
                    Platform.median := stats_median (snd kv) |}) platformsData.

(** The synchronous start of [integrateVisualizations]: a log line, and
    the three fetches issued together. *)
Definition integrate_start (p : page) : page * batch :=
  (console_log Console.log "Initializing dashboard visualizations..." p,
   {| tracksResponse := None; artistsResponse := None; platformsResponse := None;
      returned := None |}).

Definition catch (p : page) : page :=
  console_log Console.error "Error loading visualization data:" p.

(** The [try] block after [Promise.all] fulfilled: the three bodies are
    read in turn, then the three charts are built. Where the cards do not
    exist, [createScatterPlot] finds no control region and throws before it
    has appended anything. *)
Definition integrate_resume (t : response (list track_json))
    (a : response (list artist_json)) (pl : response (list (string * stats_json)))
    (p : page) : page * bool :=
  match json t, json a, json pl with
  | Some tracksData, Some topArtistsData, Some platformsData =>
      let p := console_log Console.log "Fetched all visualization data:" p in
      if negb (mounted p) then (catch p, false) else
      let p := createScatterPlot (scatterData tracksData) Scatter.default_config p in
      let p := createTopArtistChart (barChartData topArtistsData) TopArtists.default_config p in
      let p := createPlatformComparison (platformData platformsData) "total"
                 Platform.default_config p in
      (p, true)
  | _, _, _ => (catch p, false)
  end.

Inductive arrival :=
| tracks_settle (s : settled (list track_json))
| artists_settle (s : settled (list artist_json))
| platforms_settle (s : settled (list (string * stats_json))).

(** A fetch settles once. *)
Definition record (a : arrival) (b : batch) : batch :=
  match a with
  | tracks_settle s =>
      {| tracksResponse := match tracksResponse b with None => Some s | r => r end;
         artistsResponse := artistsResponse b; platformsResponse := platformsResponse b;
         returned := returned b |}
  | artists_settle s =>
      {| tracksResponse := tracksResponse b;
         artistsResponse := match artistsResponse b with None => Some s | r => r end;
         platformsResponse := platformsResponse b; returned := returned b |}
  | platforms_settle s =>
      {| tracksResponse := tracksResponse b; artistsResponse := artistsResponse b;
         platformsResponse := match platformsResponse b with None => Some s | r => r end;
         returned := returned b |}
  end.

Definition is_rejected {A : Type} (s : option (settled A)) : bool :=
  match s with Some rejected => true | _ => false end.

Definition return_ (r : bool) (b : batch) : batch :=
  {| tracksResponse := tracksResponse b; artistsResponse := artistsResponse b;
     platformsResponse := platformsResponse b; returned := Some r |}.

(** One fetch of a waiting call settles. [Promise.all] rejects with the
    first rejection and fulfils when all three fetches have; until then, and
    once the call has returned, nothing runs. *)
Definition integrate_step (a : arrival) (bp : batch * page) : batch * page :=
  let (b, p) := bp in
  match returned b with
  | Some _ => (record a b, p)
  | None =>
      let b := record a b in
      if is_rejected (tracksResponse b) || is_rejected (artistsResponse b)
         || is_rejected (platformsResponse b)
      then (return_ false b, catch p)
      else
        match tracksResponse b, artistsResponse b, platformsResponse b with
        | Some (fulfilled t), Some (fulfilled a), Some (fulfilled pl) =>
            let (p', r) := integrate_resume t a pl p in
            (return_ r b, p')
        | _, _, _ => (b, p)
        end
  end.

(** [integrateVisualizations(config)] with every fetch settled, in the
    order the arrivals are listed. *)
Definition integrateVisualizations (arrivals : list arrival) (p : page) : batch * page :=
  let (p, b) := integrate_start p in
  foldl (fun bp a => integrate_step a bp) (b, p) arrivals.

Definition quoted (s : string) : string :=
  String (ascii_of_nat 34) s +:+ String (ascii_of_nat 34) EmptyString.

(** [container.innerHTML = ...]: the three cards, each with an empty
    control region; what the container held before is gone. *)
Definition write_cards (p : page) : page :=
  {| dashboard := dashboard p; mounted := true; console := console p;
     scatterPlot := []; controlsS := [];
     topArtists := []; controlsB := [];
     platformComparison := []; controlsP := [];
     tooltips := tooltips p |}.

(** What [initializeDashboard] resolves to: [null], or the handle with its
    [refresh]. *)
Inductive handle := null | dashboard_handle (containerId : string).

(** [initializeDashboard(containerId)] up to its [await]: [None] while the
    call waits for [integrateVisualizations], with the batch it waits for. *)
Definition initialize_start (containerId : string) (p : page)
  : page * option batch :=
  let p := console_log Console.log
             ("Initializing dashboard in containerId: #" +:+ containerId) p in
  if bool_decide (containerId = dashboard p) then
    let (p, b) := integrate_start (write_cards p) in (p, Some b)
  else
    (console_log Console.error
       ("Error: Container with ID " +:+ quoted containerId +:+ " not found.") p, None).

(** The rest of [initializeDashboard], once [integrateVisualizations] has
    returned [r]. *)
Definition initialize_finish (containerId : string) (r : bool) (p : page) : page * handle :=
  if r then (p, dashboard_handle containerId)
  else (console_log Console.error "Failed to initialize visualizations." p, null).

(** [initializeDashboard(containerId)] with every fetch settled. *)
Definition initializeDashboard (containerId : string) (arrivals : list arrival) (p : page)
  : page * option handle :=
  match initialize_start containerId p with
  | (p, None) => (p, Some null)
  | (p, Some b) =>
      let (b, p) := foldl (fun bp a => integrate_step a bp) (b, p) arrivals in
      match returned b with
      | None => (p, None)
      | Some r => let (p, h) := initialize_finish containerId r p in (p, Some h)
      end
  end.

(** [refresh()]: an async function whose body logs and calls
    [integrateVisualizations(config)] without awaiting it. The promise it
    returns is resolved when the body ends, which is when the call has
    issued its fetches: [at_resolution] is the page at that moment, and
    [in_flight] the call still waiting. *)
Record refreshed := { at_resolution : page; in_flight : batch }.

Definition refresh (p : page) : refreshed :=
  let p := console_log Console.log "Refreshing dashboard visualizations..." p in
  let (p, b) := integrate_start p in
  {| at_resolution := p; in_flight := b |}.

(** The page once the fetches of a refresh have settled. *)
Definition refresh_settled (arrivals : list arrival) (p : page) : batch * page :=
  let r := refresh p in
  foldl (fun bp a => integrate_step a bp) (in_flight r, at_resolution r) arrivals.

Definition with_scatterPlot (cs : list Scatter.chart) (tips : list DOM.element) (p : page)
  : page :=
  {| dashboard := dashboard p; mounted := mounted p; console := console p;
     scatterPlot := cs; controlsS := controlsS p;
     topArtists := topArtists p; controlsB := controlsB p;
     platformComparison := platformComparison p; controlsP := controlsP p;
     tooltips := tips |}.

Definition with_topArtists (cs : list TopArtists.chart) (p : page) : page :=
  {| dashboard := dashboard p; mounted := mounted p; console := console p;
     scatterPlot := scatterPlot p; controlsS := controlsS p;
     topArtists := cs; controlsB := controlsB p;
     platformComparison := platformComparison p; controlsP := controlsP p;
     tooltips := tooltips p |}.

Definition with_platformComparison (cs : list Platform.chart) (tips : list DOM.element)
    (p : page) : page :=
  {| dashboard := dashboard p; mounted := mounted p; console := console p;
     scatterPlot := scatterPlot p; controlsS := controlsS p;
     topArtists := topArtists p; controlsB := controlsB p;
     platformComparison := cs; controlsP := controlsP p;
     tooltips := tips |}.

(** A click on a button: its handler runs in the closure of its chart. *)
Definition click (random : nat -> Q) (b : button) (p : page) : page :=
  match onclick b with
  | resetZoom i => with_scatterPlot (alter Scatter.resetZoom i (scatterPlot p)) (tooltips p) p
  | update i =>
      with_scatterPlot (alter (Scatter.update random) i (scatterPlot p)) (tooltips p) p
  | sortBars i => with_topArtists (alter TopArtists.sortBars i (topArtists p)) p
  | updateChart i metric =>
      with_platformComparison (alter (Platform.updateChart metric) i (platformComparison p))
        (tooltips p) p
  end.

(** The marks that listen to the pointer: circle [i] of scatter plot [c],
    bar [i] of bar chart [c], bar [i] of comparison chart [c]. *)
Inductive mark :=
| circle (c i : nat)
| artist_bar (c i : nat)
| platform_bar (c i : nat).

Definition mouseover (f : formatters) (ev : mouse_event) (m : mark) (p : page) : page :=
  match m with
  | circle c i =>
      match scatterPlot p !! c with
      | None => p
      | Some ch =>
          let (ch', tips) := Scatter.mouseover f ev i ch (tooltips p) in
          with_scatterPlot (<[c := ch']> (scatterPlot p)) tips p
      end
  | artist_bar c i => with_topArtists (alter (TopArtists.mouseover i) c (topArtists p)) p
  | platform_bar c i =>
      match platformComparison p !! c with
      | None => p
      | Some ch =>
          let (ch', tips) := Platform.mouseover f ev i ch (tooltips p) in
          with_platformComparison (<[c := ch']> (platformComparison p)) tips p
      end
  end.

Definition mouseout (m : mark) (p : page) : page :=
  match m with
  | circle c i =>
      match scatterPlot p !! c with
      | None => p
      | Some ch =>
          let (ch', tips) := Scatter.mouseout i ch (tooltips p) in
          with_scatterPlot (<[c := ch']> (scatterPlot p)) tips p
      end
  | artist_bar c i => with_topArtists (alter (TopArtists.mouseout i) c (topArtists p)) p
  | platform_bar c i =>
      match platformComparison p !! c with
      | None => p
      | Some ch =>
          let (ch', tips) := Platform.mouseout i ch (tooltips p) in
          with_platformComparison (<[c := ch']> (platformComparison p)) tips p
      end
  end.

(** Whether mark [m] exists on the page. *)
Definition on_page (m : mark) (p : page) : Prop :=
  match m with
  | circle c i => exists ch, scatterPlot p !! c = Some ch /\ (i < length (Scatter.data ch))%nat
  | artist_bar c i =>
      exists ch, topArtists p !! c = Some ch /\ (i < length (TopArtists.rects ch))%nat
  | platform_bar c i =>
      exists ch, platformComparison p !! c = Some ch /\ (i < length (Platform.data ch))%nat
  end.

(** One pointer: it enters a mark only when it is over none, and leaves the
    mark it is over. *)
Inductive pointer_event :=
| enter (ev : mouse_event) (m : mark)
| leave (m : mark).

Inductive pointer_step (f : formatters)
  : option mark * page -> pointer_event -> option mark * page -> Prop :=
| step_enter ev m p :
    on_page m p -> pointer_step f (None, p) (enter ev m) (Some m, mouseover f ev m p)
| step_leave m p :
    pointer_step f (Some m, p) (leave m) (None, mouseout m p).

Inductive pointer_run (f : formatters)
  : option mark * page -> list pointer_event -> option mark * page -> Prop :=
| run_nil s : pointer_run f s [] s
| run_cons s e s' es s'' :
    pointer_step f s e s' -> pointer_run f s' es s'' -> pointer_run f s (e :: es) s''.

(** The page a browser hands to the script: a container, nothing in it. *)
Definition empty_page (id : string) : page :=
  {| dashboard := id; mounted := false; console := [];
     scatterPlot := []; controlsS := [];
     topArtists := []; controlsB := [];
     platformComparison := []; controlsP := [];
     tooltips := [] |}.

End Dashboard.

(** * The statements of the specification, in its own words *)

Module Spec.
Local Open Scope Z_scope.

(** The decimal string of an integer. *)
Definition integer_string (z : Z) : string :=
  if z <? 0 then "-" +:+ JSNumber.decimal (- z) else JSNumber.decimal z.

(** [n] is the integer of tenths nearest to the magnitude of [q]. *)
Definition rounds_to_tenths (q : JSNumber.number) (n : Z) : Prop :=
  match q with
  | S754_zero _ => n = 0
  | S754_finite _ m e =>
      0 <= n /\
      2 * Z.abs (10 * (Zpos m * 2 ^ Z.max e 0) - n * 2 ^ Z.max (- e) 0) <= 2 ^ Z.max (- e) 0
  | _ => False
  end.

Definition is_negative (q : JSNumber.number) : bool :=
  match q with S754_finite s _ _ => s | _ => false end.

(** A number of tenths written with one decimal, a trailing [.0] left out. *)
Definition tenths_label (negative : bool) (n : Z) : string :=
  (if negative then "-" else "") +:+ JSNumber.decimal (n / 10)
  +:+ (if n mod 10 =? 0 then "" else "." +:+ JSNumber.digit (n mod 10)).

(** [s] is [q] rounded to one decimal, a trailing [.0] stripped, followed by
    [suffix]. *)
Definition scaled_label (q : JSNumber.number) (suffix s : string) : Prop :=
  exists n, rounds_to_tenths q n /\ s = tenths_label (is_negative q) n +:+ suffix.

(** The tick label the specification gives to [v]. *)
Definition tick_label (v : JSNumber.number) (s : string) : Prop :=
  if JSNumber.ge v (JSNumber.of_Z (10 ^ 9)) then
    scaled_label (JSNumber.div v (JSNumber.of_Z (10 ^ 9))) "B" s
  else if JSNumber.ge v (JSNumber.of_Z (10 ^ 6)) then
    scaled_label (JSNumber.div v (JSNumber.of_Z (10 ^ 6))) "M" s
  else if JSNumber.ge v (JSNumber.of_Z (10 ^ 3)) then
    scaled_label (JSNumber.div v (JSNumber.of_Z (10 ^ 3))) "K" s
  else exists z, v = JSNumber.of_Z z /\ s = integer_string z.

(** The quotient is a finite number below [10^21], where [toFixed] writes
    digits and not an exponent. *)
Definition fixed_notation (q : JSNumber.number) : bool :=
  match q with
  | S754_zero _ => true
  | S754_finite _ _ _ => negb (JSNumber.ge (SFabs q) JSNumber.e21)
  | _ => false
  end.

(** No decimal string of an integer holds a point. *)
Fixpoint has_point (s : string) : bool :=
  match s with
  | EmptyString => false
  | String c rest => if ascii_dec c "." then true else has_point rest
  end.

(** Checking a property of the integers from [lo] up, [count] of them. *)
Fixpoint all_from (check : Z -> bool) (lo : Z) (count : nat) : bool :=
  match count with
  | O => true
  | S count' => check lo && all_from check (lo + 1) count'
  end.

End Spec.

(** * What the specification says of the sort toggle *)

Module SortSpec.
Local Open Scope Q_scope.

(** [a] may stand before [b] in the given direction. *)
Definition in_order (ascending : bool) (a b : TopArtists.datum) : Prop :=
  if ascending then TopArtists.streams a <= TopArtists.streams b
  else TopArtists.streams b <= TopArtists.streams a.

Definition same_streams (v : Q) (d : TopArtists.datum) : bool :=
  Qeq_bool (TopArtists.streams d) v.

(** Entries with equal streams stand in [l'] in the order they have in [l]. *)
Definition stable (l l' : list TopArtists.datum) : Prop :=
  forall v, List.filter (same_streams v) l' = List.filter (same_streams v) l.

End SortSpec.

(** * Runs of the zoom behavior *)

Module ZoomRun.

(** What can happen to the zoomed svg: a gesture, a click on "Reset Zoom",
    a frame of the transition under way, the end of that transition. *)
Inductive event :=
| gesture (g : Zoom.gesture)
| click_reset
| frame (t : Zoom.transform)
| transition_end.

Definition step (c : Scatter.chart) (e : event) : Scatter.chart :=
  match e with
  | gesture g => Scatter.gesture g c
  | click_reset => Scatter.resetZoom c
  | frame t => Scatter.frame t c
  | transition_end => Scatter.transition_end c
  end.

Definition run (events : list event) (c : Scatter.chart) : Scatter.chart :=
  foldl step c events.

Local Open Scope Q_scope.

(** The gesture [g] cuts short the transition of the chart [c]. *)
Definition interrupts (g : Zoom.gesture) (c : Scatter.chart) : bool :=
  let t := Zoom.current (Scatter.zoom c) in
  match g with
  | Zoom.wheel _ _ =>
      negb (Qeq_bool (Zoom.k (Zoom.apply (Scatter.scaleExtent c) g t)) (Zoom.k t))
  | Zoom.drag _ _ | Zoom.press => true
  | Zoom.dblclick _ _ => false
  end.

(** A scale factor within the extent of the chart as built. *)
Definition within (t : Zoom.transform) : Prop := (1 # 2) <= Zoom.k t <= 5.

(** Every frame of the run has its scale factor within the extent. *)
Definition frames_within (events : list event) : Prop :=
  forall t, In (frame t) events -> within t.

(** What such a run keeps: the scale extent is the one the chart was built
    with, the transform of the node and the transform a scheduled
    transition ends in have their scale factor within it, and the content
    group carries the transform of the node. *)
Definition within_extent (c : Scatter.chart) : Prop :=
  Scatter.scaleExtent c = (1 # 2, 5) /\
  within (Zoom.current (Scatter.zoom c)) /\
  (forall ms t, Zoom.scheduled (Scatter.zoom c) = Some (ms, t) -> within t) /\
  match Scatter.g_transform c with
  | Some t => t = Zoom.current (Scatter.zoom c)
  | None => Zoom.current (Scatter.zoom c) = Zoom.zoomIdentity
  end.

End ZoomRun.

(** * Extremes of a numeric field *)

Module Extremes.
Local Open Scope Q_scope.

(** [m] is the largest of the values [vs]: one of them, and no smaller than
    any; no value at all ([undefined]) when there is none. *)
Definition maximum (vs : list Q) (m : option Q) : Prop :=
  match m with
  | None => vs = []
  | Some top => In top vs /\ forall v, In v vs -> v <= top
  end.

Definition minimum (vs : list Q) (m : option Q) : Prop :=
  match m with
  | None => vs = []
  | Some bottom => In bottom vs /\ forall v, In v vs -> bottom <= v
  end.

End Extremes.

(** * What the specification says of loading and of the tooltip *)

Module DashboardSpec.
Import Dashboard.

(** Everything a visitor sees: the cards' svgs and buttons, and the
    tooltips of [body]. *)
Definition visuals (p : page) :=
  (scatterPlot p, controlsS p, topArtists p, controlsB p,
   platformComparison p, controlsP p, tooltips p).

(** A fetch that failed: the request itself, or the reading of its body. *)
Definition failed {A : Type} (s : option (settled A)) : Prop :=
  s = Some rejected \/ exists r, s = Some (fulfilled r) /\ json r = None.

Definition loaded {A : Type} (s : option (settled A)) : Prop :=
  exists r body, s = Some (fulfilled r) /\ json r = Some body.

Definition all_settled (b : batch) : Prop :=
  tracksResponse b <> None /\ artistsResponse b <> None /\ platformsResponse b <> None.

Definition some_failed (b : batch) : Prop :=
  failed (tracksResponse b) \/ failed (artistsResponse b) \/ failed (platformsResponse b).

Definition all_loaded (b : batch) : Prop :=
  loaded (tracksResponse b) /\ loaded (artistsResponse b) /\ loaded (platformsResponse b).

(** The same settlement with the response's [ok] flag set. *)
Definition as_ok {A : Type} (s : settled A) : settled A :=
  match s with
  | rejected => rejected
  | fulfilled r => fulfilled {| ok := true; json := json r |}
  end.

Definition with_ok (a : arrival) : arrival :=
  match a with
  | tracks_settle s => tracks_settle (as_ok s)
  | artists_settle s => artists_settle (as_ok s)
  | platforms_settle s => platforms_settle (as_ok s)
  end.

Definition hidden (t : DOM.element) : Prop :=
  DOM.styles t !! "opacity" = Some (DOM.VNum 0).

(** The tooltip a mark's handlers write to, by its place in [body]. *)
Definition owner (m : mark) (p : page) : option nat :=
  match m with
  | circle c _ => Scatter.tooltip <$> scatterPlot p !! c
  | artist_bar _ _ => None
  | platform_bar c _ => Platform.tooltip <$> platformComparison p !! c
  end.

(** At most the tooltip of the mark under the pointer is visible. *)
Definition at_most_one_visible (s : option mark * page) : Prop :=
  forall j t, tooltips (snd s) !! j = Some t -> ~ hidden t ->
    exists m, fst s = Some m /\ owner m (snd s) = Some j.

Definition init_entry : Console.entry :=
  {| Console.lvl := Console.log; Console.message := "Initializing dashboard visualizations..." |}.

Definition load_error : Console.entry :=
  {| Console.lvl := Console.error; Console.message := "Error loading visualization data:" |}.

Definition fetched_entry : Console.entry :=
  {| Console.lvl := Console.log; Console.message := "Fetched all visualization data:" |}.

(** The page [integrate_resume] builds from three bodies. *)
Definition built (tracksData : list track_json) (topArtistsData : list artist_json)
    (platformsData : list (string * stats_json)) (p : page) : page :=
  createPlatformComparison (platformData platformsData) "total" Platform.default_config
    (createTopArtistChart (barChartData topArtistsData) TopArtists.default_config
      (createScatterPlot (scatterData tracksData) Scatter.default_config
        (console_log Console.log "Fetched all visualization data:" p))).

(** Where a call of [integrateVisualizations] that started on [p1] stands. *)
Definition stands (p1 : page) (bp : batch * page) : Prop :=
  let (b, p') := bp in
  match returned b with
  | None =>
      p' = p1 /\
      is_rejected (tracksResponse b) = false /\
      is_rejected (artistsResponse b) = false /\
      is_rejected (platformsResponse b) = false /\
      ~ all_settled b
  | Some false =>
      (p' = catch p1 /\ some_failed b) \/
      (p' = catch (console_log Console.log "Fetched all visualization data:" p1) /\
       all_loaded b /\ mounted p1 = false)
  | Some true =>
      exists t a pl td ad pd,
        tracksResponse b = Some (fulfilled t) /\ json t = Some td /\
        artistsResponse b = Some (fulfilled a) /\ json a = Some ad /\
        platformsResponse b = Some (fulfilled pl) /\ json pl = Some pd /\
        mounted p1 = true /\ p' = built td ad pd p1
  end.

(** What a run of the pointer keeps: at most the tooltip of the mark under
    the pointer is visible, and that mark is on the page. *)
Definition pointer_invariant (s : option mark * page) : Prop :=
  at_most_one_visible s /\ forall m, fst s = Some m -> on_page m (snd s).


(** The settlements of a call with every [ok] flag set. *)
Definition batch_ok (b : batch) : batch :=
  {| tracksResponse := as_ok <$> tracksResponse b;
     artistsResponse := as_ok <$> artistsResponse b;
     platformsResponse := as_ok <$> platformsResponse b;
     returned := returned b |}.

(** The settlements a call has recorded. *)
Definition responses (b : batch) :=
  (tracksResponse b, artistsResponse b, platformsResponse b).

End DashboardSpec.

(** * What the specification says of the metric switch and the hover *)

Module MetricSpec.
Import Extremes Platform.
Local Open Scope Q_scope.

(** The chart encodes the metric [m], which names the field [value]: the
    scale runs from 0 to the maximum of the field, the axis label names the
    metric, and every bar starts at its value on that scale and reaches down
    to the bottom of the plot. *)
Definition shows (m : string) (value : datum -> Q) (c : chart) : Prop :=
  fst (D3.domain (y c)) = Some 0 /\
  maximum (map value (data c)) (snd (D3.domain (y c))) /\
  D3.range (y c) = (height (cfg c) - margin_bottom (cfg c), margin_top (cfg c)) /\
  y_label c = capitalize m +:+ " Streams/Views" /\
  forall i d, data c !! i = Some d ->
    exists e, rects c !! i = Some e /\
      DOM.attrs e !! "y" = Some (DOM.number (D3.scale (y c) (Some (value d)))) /\
      DOM.attrs e !! "height" =
        Some (DOM.number ((fun p => height (cfg c) - margin_bottom (cfg c) - p)
                            <$> D3.scale (y c) (Some (value d)))).

(** The charts a page can hold: built by [createPlatformComparison], then
    switched any number of times. *)
Definition switched (cfg : config) (l : list datum) (m0 : string) (tip : nat)
    (history : list string) : chart :=
  foldl (fun c m => updateChart m c) (create cfg l m0 tip) history.

End MetricSpec.

Module HoverSpec.
Import Scatter.
Local Open Scope Q_scope.

(** The tooltip once the [mouseover] of a circle has run: visible, with the
    record's fields, next to the pointer. *)
Definition shown (f : formatters) (ev : mouse_event) (d : datum) (t : DOM.element) : Prop :=
  DOM.styles t !! "opacity" = Some (DOM.VNum (9 # 10)) /\
  DOM.styles t !! "left" = Some (DOM.VPx (pageX ev + 10)) /\
  DOM.styles t !! "top" = Some (DOM.VPx (pageY ev - 20)) /\
  DOM.html t = tooltip_html f d.

(** ** What a mark looks like

    The browser paints a presentation property from the element's inline
    style where it has one, and from the attribute of that name otherwise. *)
Definition presented (name : string) (e : DOM.element) : option DOM.value :=
  match DOM.styles e !! name with
  | Some v => Some v
  | None => DOM.attrs e !! name
  end.

(** The colour a paint value names, if it names one. *)
Definition paint (v : option DOM.value) : option (Z * Z * Z) :=
  match v with
  | Some (DOM.VStr s) => D3.color s
  | _ => None
  end.

Definition fill (e : DOM.element) : option (Z * Z * Z) := paint (presented "fill" e).

(** The opacity in [0, 1]; a mark without one is opaque. *)
Definition opacity (e : DOM.element) : Q :=
  match presented "opacity" e with
  | Some (DOM.VNum q) => Qmax 0 (Qmin 1 q)
  | _ => 1
  end.

(** The colour of the outline, where one is drawn: a stroke of width 0, or
    one whose paint names no colour, draws nothing. *)
Definition stroke (e : DOM.element) : option (Z * Z * Z) :=
  match presented "stroke-width" e with
  | Some (DOM.VNum w) => if Qle_bool w 0 then None else paint (presented "stroke" e)
  | _ => paint (presented "stroke" e)
  end.

(** [e'] is painted as [e] is. *)
Definition same_look (e e' : DOM.element) : Prop :=
  fill e' = fill e /\ opacity e' == opacity e /\ stroke e' = stroke e.

(** [#1DB954] and [#191414]. *)
Definition green : Z * Z * Z := (29, 185, 84)%Z.
Definition dark : Z * Z * Z := (25, 20, 20)%Z.

(** An attribute that is missing or holds a number. *)
Definition numeric (v : option DOM.value) : Prop :=
  match v with
  | None | Some (DOM.VNum _) => True
  | Some _ => False
  end.

(** [e'] is [e] except for the attributes [names]. *)
Definition differs_in (names : list string) (e e' : DOM.element) : Prop :=
  (forall name, name ∉ names -> DOM.attrs e' !! name = DOM.attrs e !! name) /\
  DOM.styles e' = DOM.styles e /\ DOM.html e' = DOM.html e.

(** A circle of the scatter plot that no pointer is over: painted green,
    with the inline opacity circles are created with. *)
Definition circle_at_rest (e : DOM.element) : Prop :=
  DOM.styles e !! "fill" = None /\ fill e = Some green /\
  DOM.styles e !! "opacity" = Some (DOM.VNum (7 # 10)) /\
  numeric (DOM.attrs e !! "opacity").

(** What a hover does: [mouseover] of circle [i] at [ev], then [mouseout]. *)
Definition hover (f : formatters) (ev : mouse_event) (i : nat) (c : chart)
    (tips : list DOM.element) : chart * list DOM.element :=
  mouseout i (fst (mouseover f ev i c tips)) (snd (mouseover f ev i c tips)).

(** A bar of the bar chart that no pointer is over: no inline style, painted
    green at opacity 0.7, without an outline. *)
Definition bar_at_rest (e : DOM.element) : Prop :=
  DOM.styles e = ∅ /\ fill e = Some green /\
  DOM.attrs e !! "opacity" = Some (DOM.VNum (7 # 10)) /\
  stroke e = None /\ numeric (DOM.attrs e !! "stroke-width").

(** [mouseover] of bar [j] of the bar chart, then [mouseout]. *)
Definition bar_hover (j : nat) (b : TopArtists.chart) : TopArtists.chart :=
  TopArtists.mouseout j (TopArtists.mouseover j b).

(** A bar of the comparison chart that no pointer is over: no inline style,
    painted in the colour of its platform where that has one, opaque. *)
Definition column_at_rest (d : Platform.datum) (e : DOM.element) : Prop :=
  DOM.styles e = ∅ /\
  fill e = paint (DOM.VStr <$> Platform.platformColors (Platform.platform d)) /\
  opacity e == 1 /\ numeric (DOM.attrs e !! "opacity").

(** The tooltip of the comparison chart once the [mouseover] of a bar has
    run: visible and, where the record has the chart's metric, with the
    record's fields, next to the pointer. *)
Definition column_shown (f : formatters) (ev : mouse_event) (metric : string)
    (d : Platform.datum) (t : DOM.element) : Prop :=
  DOM.styles t !! "opacity" = Some (DOM.VNum (9 # 10)) /\
  forall v, Platform.field metric d = Some v ->
            DOM.styles t !! "left" = Some (DOM.VPx (pageX ev + 10)) /\
            DOM.styles t !! "top" = Some (DOM.VPx (pageY ev - 20)) /\
            DOM.html t = Platform.tooltip_html f d v.

(** [mouseover] of bar [i] of the comparison chart at [ev], then [mouseout]. *)
Definition column_hover (f : formatters) (ev : mouse_event) (i : nat) (c : Platform.chart)
    (tips : list DOM.element) : Platform.chart * list DOM.element :=
  Platform.mouseout i (fst (Platform.mouseover f ev i c tips))
    (snd (Platform.mouseover f ev i c tips)).

End HoverSpec.

(** * Concrete data *)

Module Samples.
Local Open Scope Q_scope.

(** Formatters that write nothing, for concrete pages. *)
Definition plain : formatters :=
  {| toLocaleString := fun _ => ""%string; formatNumber := fun _ => ""%string |}.

Definition two_artists : list TopArtists.datum :=
  [ {| TopArtists.artist := "A"; TopArtists.streams := 2 |};
    {| TopArtists.artist := "B"; TopArtists.streams := 1 |} ].

Definition tied_artists : list TopArtists.datum :=
  [ {| TopArtists.artist := "A"; TopArtists.streams := 1 |};
    {| TopArtists.artist := "B"; TopArtists.streams := 1 |};
    {| TopArtists.artist := "C"; TopArtists.streams := 3 |} ].

Definition spotify_only : list Platform.datum :=
  [ {| Platform.platform := "Spotify"; Platform.total := 100;
       Platform.average := 10; Platform.median := 5 |} ].

Definition one_track : list Scatter.datum :=
  [ {| Scatter.streams := 1000; Scatter.reach := 2000;
       Scatter.track := "A"; Scatter.artist := "X" |} ].

Definition no_tracks : Dashboard.response (list Dashboard.track_json) :=
  {| Dashboard.ok := true; Dashboard.json := Some [] |}.

Definition no_artists : Dashboard.response (list Dashboard.artist_json) :=
  {| Dashboard.ok := true; Dashboard.json := Some [] |}.

Definition one_track_json : Dashboard.response (list Dashboard.track_json) :=
  {| Dashboard.ok := true;
     Dashboard.json :=
       Some [ {| Dashboard.Spotify_Streams := 1000; Dashboard.Spotify_Playlist_Reach := 2000;
                 Dashboard.Track := "A"; Dashboard.Artist := "X" |} ] |}.

Definition spotify_stats : list (string * Dashboard.stats_json) :=
  [ ("Spotify"%string,
     {| Dashboard.stats_total := 100; Dashboard.stats_average := 10;
        Dashboard.stats_median := 5 |}) ].

(** The tracks request fails; the other two succeed. *)
Definition tracks_down : list Dashboard.arrival :=
  [ Dashboard.artists_settle (Dashboard.fulfilled no_artists);
    Dashboard.tracks_settle Dashboard.rejected;
    Dashboard.platforms_settle
      (Dashboard.fulfilled {| Dashboard.ok := true; Dashboard.json := Some spotify_stats |}) ].

(** The platform endpoint answers with an error status and a JSON body. *)
Definition platforms_not_ok : list Dashboard.arrival :=
  [ Dashboard.tracks_settle (Dashboard.fulfilled no_tracks);
    Dashboard.artists_settle (Dashboard.fulfilled no_artists);
    Dashboard.platforms_settle
      (Dashboard.fulfilled {| Dashboard.ok := false; Dashboard.json := Some spotify_stats |}) ].

(** Every request succeeds. *)
Definition all_up : list Dashboard.arrival :=
  [ Dashboard.tracks_settle (Dashboard.fulfilled one_track_json);
    Dashboard.artists_settle (Dashboard.fulfilled no_artists);
    Dashboard.platforms_settle
      (Dashboard.fulfilled {| Dashboard.ok := true; Dashboard.json := Some spotify_stats |}) ].

(** The dashboard of the samples, initialized. *)
Definition sample_page : Dashboard.page :=
  fst (Dashboard.initializeDashboard "dashboard" all_up (Dashboard.empty_page "dashboard")).

End Samples.

(** * Rounding to binary64 *)

Module Binary64.
Local Open Scope Z_scope.

(** Rounding a positive value [M * 2^E] to binary64, to the nearest and to
    the even mantissa at a tie, on integers: what [binary_round] of
    [SpecFloat] computes, in the terms its properties are proved in. *)

(** The number of bits of [M]. *)

Definition digits (M : Z) : Z := Z.log2 M + 1.

(** [M / 2^n], rounded to the nearest integer, to the even one at a tie. *)
Definition rne (M n : Z) : Z :=
  let q := M / 2 ^ n in
  match 2 * (M mod 2 ^ n) ?= 2 ^ n with
  | Lt => q
  | Eq => if Z.even q then q else q + 1
  | Gt => q + 1
  end.

(** The exponent [M * 2^E] is rounded on. *)
Definition target (M E : Z) : Z := Z.max (digits M + E - 53) (-1074).

(** Mantissa and exponent of [M * 2^E] rounded, for [E] not above the
    exponent it is rounded on. *)
Definition round_pos (M E : Z) : Z * Z :=
  let e' := target M E in
  let m := rne M (e' - E) in
  if m =? 2 ^ 53 then (2 ^ 52, e' + 1) else (m, e').

(** The same for every [E]. *)
Definition round_norm (M E : Z) : Z * Z :=
  let e' := target M E in
  if e' <? E then round_pos (M * 2 ^ (E - e')) e' else round_pos M E.

(** The Number of sign [s] with that mantissa and exponent: zero, finite,
    or infinite past the largest exponent. *)
Definition pack (s : bool) (r : Z * Z) : spec_float :=
  match fst r with
  | 0 => S754_zero s
  | Zpos m => if snd r <=? 971 then S754_finite s m (snd r) else S754_infinity s
  | Zneg _ => S754_nan
  end.

(** [M1 * 2^E1 <= M2 * 2^E2] *)
Definition val_le (M1 E1 M2 E2 : Z) : Prop :=
  M1 * 2 ^ (E1 - Z.min E1 E2) <= M2 * 2 ^ (E2 - Z.min E1 E2).

(** The order of two results, as [SFcompare] reads it: exponents first. *)
Definition res_le (r1 r2 : Z * Z) : Prop :=
  fst r1 = 0 \/
  (0 < fst r1 /\ 0 < fst r2 /\ (snd r1 < snd r2 \/ (snd r1 = snd r2 /\ fst r1 <= fst r2))).

(** Where a remainder [rem] of a division by [2^k] lies. *)
Definition loc_of (rem k : Z) : location :=
  if rem =? 0 then loc_Exact else loc_Inexact (2 * rem ?= 2 ^ k).

(** [r] is [M] shifted right by [k] bits. *)
Definition shr_inv (M k : Z) (r : shr_record) : Prop :=
  0 <= shr_m r /\
  exists rem, 0 <= rem < 2 ^ k /\ M = shr_m r * 2 ^ k + rem /\
              loc_of_shr_record r = loc_of rem k.

End Binary64.

(** * [update] of the scatter plot, in binary64

    [update] multiplies the fields of the records by random factors; what
    it keeps of them depends on how the products round. This module
    follows the function on Numbers as the browser has them. *)

Module Jitter.
Import JSNumber.

Record datum := { streams : number; reach : number; track : string; artist : string }.

(** A linear scale: two domain ends, [undefined] read as NaN, and two
    range ends. *)
Record linear := { domain : number * number; range : number * number }.

(** What [update] reads and writes of the chart: the data array, the two
    scales and the circles. *)
Record chart := {
  data : list datum;
  x : linear;
  y : linear;
  circles : list DOM.element
}.

(** The literals [0.95], [0.1] and [0.5]: the Numbers nearest to them. *)
Definition c095 : number := Eval vm_compute in div (of_Z 95) (of_Z 100).
Definition c01 : number := Eval vm_compute in div (of_Z 1) (of_Z 10).
Definition half : number := Eval vm_compute in div (of_Z 1) (of_Z 2).

(** d3-scale's [normalize(a, b)] and d3-interpolate's [interpolateNumber]. *)
Definition normalize (a b v : number) : number :=
  match sub b a with
  | S754_zero _ => half
  | S754_nan => S754_nan
  | width => div (sub v a) width
  end.

Definition interpolateNumber (a b t : number) : number :=
  add (mul a (sub one t)) (mul b t).

(** Applying the scale: NaN has no position; a descending domain is read
    from its other end. *)
Definition scale (s : linear) (v : number) : option number :=
  if isNaN v then None
  else
    let (d0, d1) := domain s in
    let (r0, r1) := range s in
    Some (if lt d1 d0 then interpolateNumber r1 r0 (normalize d1 d0 v)
          else interpolateNumber r0 r1 (normalize d0 d1 v)).

(** [0.95 + Math.random() * 0.1] for the draw [r]. *)
Definition factor (r : number) : number := add c095 (mul r c01).

(** [d.streams *= (0.95 + Math.random() * 0.1)] and the same for
    [d.reach], the draws taken in call order. *)
Definition jitter (random : nat -> number) (i : nat) (d : datum) : datum :=
  {| streams := mul (streams d) (factor (random (2 * i)%nat));
     reach := mul (reach d) (factor (random (2 * i + 1)%nat));
     track := track d; artist := artist d |}.

(** [transition.attr(name, d => scale(d.field))]: a record without a
    position has the attribute removed. *)
Definition place (name : string) (v : option number) (e : DOM.element) : DOM.element :=
  match v with
  | Some n => DOM.transition_number name n e
  | None =>
      {| DOM.attrs := delete name (DOM.attrs e); DOM.styles := DOM.styles e;
         DOM.html := DOM.html e |}
  end.

Definition move (x y : linear) (d : datum) (e : DOM.element) : DOM.element :=
  place "cy" (scale y (reach d)) (place "cx" (scale x (streams d)) e).

(** [update()]: jitter every record of the data array in place, then move
    every circle to the position of its record under the scales as they
    are. *)
Definition update (random : nat -> number) (c : chart) : chart :=
  let data' := imap (jitter random) (data c) in
  {| data := data'; x := x c; y := y c;
     circles := zip_with (fun e d => DOM.transition 1000 (move (x c) (y c) d) e)
                  (circles c) data' |}.

End Jitter.

Module JitterSpec.
Import JSNumber Jitter.

(** The literal [1.05]. *)
Definition c105 : number := Eval vm_compute in div (of_Z 105) (of_Z 100).

(** A draw of [Math.random]: a Number in [[0, 1)]. *)
Definition draw (r : number) : Prop := valid r /\ ge r zero = true /\ lt r one = true.

(** A factor within 5% of 1: [0.95 <= f && f <= 1.05] holds of it, the
    two literals being the Numbers nearest to 0.95 and 1.05, so that the
    rational it is lies within 5% of 1 up to the rounding of the two
    literals, which is less than [2^-54] below and [2^-53] above. *)
Definition near_one (f : number) : Prop :=
  valid f /\ ge f c095 = true /\ ge c105 f = true /\
  ((95 # 100) - (1 # 18014398509481984) <= to_Q f <= (105 # 100) + (1 # 9007199254740992))%Q.

(** [v'] has the sign of [v]: it compares with 0 as [v] does. *)
Definition same_sign (v v' : number) : Prop :=
  lt zero v' = lt zero v /\ lt v' zero = lt v zero /\ eq v' zero = eq v zero /\
  isNaN v' = isNaN v.

(** [e'] is [e] except for [cx] and [cy]. *)
Definition moved (e e' : DOM.element) : Prop :=
  (forall name, name <> "cx"%string -> name <> "cy"%string ->
                DOM.attrs e' !! name = DOM.attrs e !! name) /\
  DOM.styles e' = DOM.styles e /\ DOM.html e' = DOM.html e.

(** What one [update()] does to the chart [c]. *)
Definition jittered (c c' : chart) : Prop :=
  x c' = x c /\ y c' = y c /\
  length (data c') = length (data c) /\
  forall i d, data c !! i = Some d ->
    exists d' fs fr,
      data c' !! i = Some d' /\
      near_one fs /\ near_one fr /\
      streams d' = mul (streams d) fs /\ reach d' = mul (reach d) fr /\
      track d' = track d /\ artist d' = artist d /\
      valid (streams d') /\ valid (reach d') /\
      same_sign (streams d) (streams d') /\ same_sign (reach d) (reach d') /\
      (ge (streams d) zero = true -> ge (streams d') zero = true) /\
      (ge (reach d) zero = true -> ge (reach d') zero = true) /\
      forall e, circles c !! i = Some e ->
        exists e',
          circles c' !! i = Some e' /\ e' = move (x c) (y c) d' e /\ moved e e'.

End JitterSpec.

Module JitterSamples.
Import JSNumber Jitter.

(** One track of 1000 streams and a reach of 2000, on the scales and at the
    place [createScatterPlot] gives it. *)
Definition one_track : chart :=
  {| data := [ {| streams := of_Z 1000; reach := of_Z 2000; track := "A"; artist := "X" |} ];
     x := {| domain := (of_Z 1000, of_Z 1000); range := (of_Z 150, of_Z 770) |};
     y := {| domain := (zero, of_Z 2000); range := (of_Z 360, of_Z 20) |};
     circles :=
       [ DOM.style "opacity" (DOM.VNum (7 # 10))
           (DOM.attr "fill" (DOM.VStr "#1DB954")
             (DOM.attr "r" (DOM.VNum 5)
               (DOM.attr "cy" (DOM.VNum 20)
                 (DOM.attr "cx" (DOM.VNum 460) DOM.blank)))) ] |}.

(** Draws of a quarter and of three quarters, in turn. *)
Definition draws (n : nat) : number :=
  if Nat.even n then S754_finite false 4503599627370496 (-54)
  else S754_finite false 6755399441055744 (-53).

End JitterSamples.

(** * Statements *)

(** * Tick labels *)

Section TickLabels.
Import JSNumber.
Local Open Scope Z_scope.

Lemma append_nil (b : string) : "" +:+ b = b.
Proof. reflexivity. Qed.

Lemma append_cons (x : ascii) (a b : string) : String x a +:+ b = String x (a +:+ b).
Proof. reflexivity. Qed.

Lemma append_empty_r (a : string) : a +:+ "" = a.
Proof.
  induction a as [|x a IH]; [reflexivity|].
  rewrite append_cons. f_equal. exact IH.
Qed.

Lemma append_assoc (a b c : string) : (a +:+ b) +:+ c = a +:+ (b +:+ c).
Proof.
  induction a as [|x a IH]; [reflexivity|].
  rewrite !append_cons. f_equal. exact IH.
Qed.

Lemma length_append (a b : string) :
  String.length (a +:+ b) = (String.length a + String.length b)%nat.
Proof.
  induction a as [|x a IH]; [reflexivity|].
  rewrite append_cons. cbn [String.length]. now rewrite IH.
Qed.

Lemma substring_all (a : string) : substring 0 (String.length a) a = a.
Proof. induction a as [|x a IH]; cbn; [reflexivity | f_equal; exact IH]. Qed.

Lemma substring_prefix (a b : string) : substring 0 (String.length a) (a +:+ b) = a.
Proof.
  induction a as [|x a IH].
  - rewrite append_nil. destruct b; reflexivity.
  - rewrite append_cons. cbn. f_equal; exact IH.
Qed.

Lemma substring_suffix (a b : string) :
  substring (String.length a) (String.length b) (a +:+ b) = b.
Proof.
  induction a as [|x a IH]; [apply substring_all|].
  rewrite append_cons. cbn. exact IH.
Qed.

Lemma strip_point_zero_cons (c : ascii) (rest : string) :
  rest <> "0"%string ->
  strip_point_zero (String c rest) = String c (strip_point_zero rest).
Proof.
  intros Hrest. destruct (ascii_dec c ".") as [->|Hc].
  - destruct rest as [|r rest']; [reflexivity|].
    destruct rest' as [|r' rest'']; [|destruct r as [[] [] [] [] [] [] [] []]; reflexivity].
    destruct (ascii_dec r "0") as [->|Hr]; [contradiction|].
    destruct r as [[] [] [] [] [] [] [] []]; try reflexivity. contradiction.
  - destruct c as [[] [] [] [] [] [] [] []]; try reflexivity. contradiction.
Qed.

Lemma append_not_single (s t : string) (c : ascii) :
  (2 <= String.length t)%nat -> s +:+ t <> String c "".
Proof.
  intros Ht E. apply (f_equal String.length) in E.
  rewrite length_append in E. cbn in E. lia.
Qed.

(** The regular expression [/\.0$/] only matches at the end. *)
Lemma strip_point_zero_match (s : string) : strip_point_zero (s +:+ ".0") = s.
Proof.
  induction s as [|c s IH]; [reflexivity|].
  rewrite append_cons, strip_point_zero_cons, IH; [reflexivity|].
  apply append_not_single. cbn. lia.
Qed.

Lemma strip_point_zero_other (s : string) (c : ascii) :
  c <> "0"%char -> strip_point_zero (s +:+ "." +:+ String c "") = s +:+ "." +:+ String c "".
Proof.
  intros Hc. induction s as [|x s IH].
  - rewrite append_nil. change ("." +:+ String c "") with (String "." (String c "")).
    rewrite strip_point_zero_cons by congruence.
    rewrite strip_point_zero_cons by discriminate. reflexivity.
  - rewrite append_cons, strip_point_zero_cons, IH; [reflexivity|].
    apply append_not_single. rewrite length_append. cbn. lia.
Qed.

Lemma decimal_aux_fuel (f1 f2 : nat) (n : Z) :
  n < 2 ^ Z.of_nat (S f1) -> n < 2 ^ Z.of_nat (S f2) ->
  decimal_aux (S f1) n = decimal_aux (S f2) n.
Proof.
  revert f2 n. induction f1 as [|f1 IH]; intros f2 n H1 H2.
  - cbn [decimal_aux]. change (2 ^ Z.of_nat 1) with 2 in H1.
    destruct (Z.ltb_spec n 10); [reflexivity | lia].
  - cbn [decimal_aux]. destruct (Z.ltb_spec n 10) as [|Hn]; [reflexivity|].
    destruct f2 as [|f2]; [change (2 ^ Z.of_nat 1) with 2 in H2; lia|].
    f_equal. apply IH.
    + rewrite Nat2Z.inj_succ, Z.pow_succ_r in H1 by lia.
      apply Z.div_lt_upper_bound; lia.
    + rewrite Nat2Z.inj_succ, Z.pow_succ_r in H2 by lia.
      apply Z.div_lt_upper_bound; lia.
Qed.

Lemma decimal_small (n : Z) : n < 10 -> decimal n = digit n.
Proof.
  intros H. unfold decimal. cbn [decimal_aux]. destruct (Z.ltb_spec n 10); [reflexivity | lia].
Qed.

Lemma decimal_step (n : Z) : 10 <= n -> decimal n = decimal (n / 10) +:+ digit (n mod 10).
Proof.
  intros H. unfold decimal at 1. cbn [decimal_aux].
  destruct (Z.ltb_spec n 10) as [|_]; [lia|]. f_equal.
  assert (Hlog : 3 <= Z.log2 n) by (apply Z.log2_le_pow2; simpl; lia).
  destruct (Z.to_nat (Z.log2 n)) as [|f] eqn:Ef; [lia|].
  unfold decimal. apply decimal_aux_fuel.
  - assert (n < 2 ^ Z.succ (Z.log2 n)) by (apply Z.log2_spec; lia).
    replace (Z.of_nat (S f)) with (Z.log2 n) by lia.
    rewrite Z.pow_succ_r in H0 by lia. apply Z.div_lt_upper_bound; lia.
  - rewrite Nat2Z.inj_succ, Z2Nat.id by apply Z.log2_nonneg.
    apply Z.log2_spec. apply Z.div_str_pos. lia.
Qed.

Lemma length_digit (d : Z) : String.length (digit d) = 1%nat.
Proof. reflexivity. Qed.

Lemma length_decimal_aux_pos (f : nat) (n : Z) : (1 <= String.length (decimal_aux (S f) n))%nat.
Proof.
  cbn [decimal_aux]. destruct (n <? 10); [cbn; lia|].
  rewrite length_append, length_digit. lia.
Qed.

(** [toFixed(1)] followed by the replacement writes the tenths with one
    decimal, and drops a decimal that is zero. *)
Lemma strip_fixed_digits (n : Z) :
  0 <= n ->
  strip_point_zero (fixed_digits 1 n) =
  decimal (n / 10) +:+ (if n mod 10 =? 0 then "" else "." +:+ digit (n mod 10)).
Proof.
  intros Hn. unfold fixed_digits. cbv zeta.
  destruct (Z.lt_ge_cases n 10) as [Hs|Hb].
  - rewrite decimal_small by assumption.
    rewrite Z.div_small, Z.mod_small by lia.
    assert (Hk : (Z.to_nat n < 10)%nat) by lia.
    rewrite <- (Z2Nat.id n) by lia.
    generalize dependent (Z.to_nat n). intros k Hk.
    do 10 (destruct k as [|k]; [reflexivity|]). lia.
  - rewrite decimal_step by assumption.
    rewrite length_append, length_digit.
    set (a := decimal (n / 10)). set (b := digit (n mod 10)).
    assert (Ha : (1 <= String.length a)%nat) by apply length_decimal_aux_pos.
    destruct (Nat.leb_spec (String.length a + 1) 1) as [|_]; [lia|].
    replace (String.length a + 1 - 1)%nat with (String.length a) by lia.
    rewrite substring_prefix.
    change 1%nat with (String.length b) at 1. rewrite substring_suffix.
    assert (Hm : 0 <= n mod 10 < 10) by (apply Z.mod_pos_bound; lia).
    destruct (Z.eqb_spec (n mod 10) 0) as [E|E].
    + subst b. rewrite E. change (digit 0) with "0"%string.
      change ("." +:+ "0")%string with ".0"%string.
      rewrite strip_point_zero_match. symmetry. apply append_empty_r.
    + subst b. unfold digit. apply strip_point_zero_other.
      assert (Hcases : n mod 10 = 1 \/ n mod 10 = 2 \/ n mod 10 = 3 \/ n mod 10 = 4
                       \/ n mod 10 = 5 \/ n mod 10 = 6 \/ n mod 10 = 7 \/ n mod 10 = 8
                       \/ n mod 10 = 9) by lia.
      repeat (destruct Hcases as [-> | Hcases]; [discriminate|]). rewrite Hcases. discriminate.
Qed.

Lemma strip_point_zero_sign (rest : string) :
  strip_point_zero ("-" +:+ rest) = "-" +:+ strip_point_zero rest.
Proof. destruct rest as [|r rest]; reflexivity. Qed.

(** [toFixed] picks the nearest tenth, the larger one on a tie. *)
Lemma nearest_rounds (m : positive) (e : Z) :
  Spec.rounds_to_tenths (S754_finite false m e) (nearest 1 (Zpos m) e).
Proof.
  unfold Spec.rounds_to_tenths, nearest. cbv zeta.
  set (A := Z.pos m * 2 ^ Z.max e 0). set (b := 2 ^ Z.max (- e) 0).
  assert (HA : 0 <= A) by (subst A; apply Z.mul_nonneg_nonneg; [lia | apply Z.pow_nonneg; lia]).
  assert (Hb : 0 < b) by (subst b; apply Z.pow_pos_nonneg; lia).
  change (10 ^ Z.of_nat 1) with 10.
  pose proof (Z.div_mod (2 * (A * 10) + b) (2 * b) ltac:(lia)) as Hdiv.
  pose proof (Z.mod_pos_bound (2 * (A * 10) + b) (2 * b) ltac:(lia)) as Hmod.
  set (n := (2 * (A * 10) + b) / (2 * b)) in *.
  assert (Hn : 0 <= n) by (subst n; apply Z.div_pos; lia).
  split; [exact Hn|].
  set (r := (2 * (A * 10) + b) mod (2 * b)) in *.
  assert (E : 2 * (10 * A - n * b) = r - b) by lia.
  lia.
Qed.

(** The label of a quotient: its tenths, written with one decimal. *)
Lemma scaled_label_toFixed (q : number) (suffix : string) :
  Spec.fixed_notation q = true ->
  Spec.scaled_label q suffix (strip_point_zero (toFixed 1 q) +:+ suffix).
Proof.
  intros Hq. destruct q as [s | s | | s m e]; try discriminate.
  - exists 0. split; [reflexivity|]. reflexivity.
  - exists (nearest 1 (Zpos m) e). split.
    + exact (nearest_rounds m e).
    + f_equal. unfold toFixed. cbn [Spec.fixed_notation] in Hq.
      apply negb_true_iff in Hq. rewrite Hq.
      pose proof (nearest_rounds m e) as [Hn _].
      unfold Spec.tenths_label, Spec.is_negative.
      destruct s.
      * rewrite strip_point_zero_sign, strip_fixed_digits by exact Hn. reflexivity.
      * rewrite !append_nil. apply strip_fixed_digits. exact Hn.
Qed.

Lemma has_point_append (a b : string) : Spec.has_point (a +:+ b) = Spec.has_point a || Spec.has_point b.
Proof.
  induction a as [|x a IH]; [reflexivity|].
  rewrite append_cons. cbn [Spec.has_point]. destruct (ascii_dec x "."); [reflexivity | exact IH].
Qed.

Lemma has_point_digit (d : Z) : d < 10 -> Spec.has_point (digit d) = false.
Proof.
  intros Hd. unfold digit.
  assert (Hk : (Z.to_nat d < 10)%nat) by lia.
  destruct (Z.to_nat d) as [|[|[|[|[|[|[|[|[|[|k]]]]]]]]]]; try reflexivity. lia.
Qed.

Lemma has_point_decimal_aux (f : nat) (n : Z) : Spec.has_point (decimal_aux f n) = false.
Proof.
  revert n. induction f as [|f IH]; intros n; [reflexivity|].
  cbn [decimal_aux]. destruct (Z.ltb_spec n 10) as [Hn|Hn].
  - apply has_point_digit. exact Hn.
  - rewrite has_point_append, IH, has_point_digit; [reflexivity|].
    apply Z.mod_pos_bound. lia.
Qed.

Lemma has_point_integer_string (z : Z) : Spec.has_point (Spec.integer_string z) = false.
Proof.
  unfold Spec.integer_string, decimal. destruct (z <? 0).
  - rewrite has_point_append, has_point_decimal_aux. reflexivity.
  - apply has_point_decimal_aux.
Qed.

Lemma all_from_spec (check : Z -> bool) (count : nat) (lo z : Z) :
  Spec.all_from check lo count = true -> lo <= z < lo + Z.of_nat count -> check z = true.
Proof.
  revert lo. induction count as [|count IH]; intros lo Hall Hz; [lia|].
  cbn [Spec.all_from] in Hall. apply andb_true_iff in Hall as [Hlo Hrest].
  destruct (Z.eq_dec z lo) as [->|Hne]; [exact Hlo|].
  apply (IH (lo + 1)); [exact Hrest | lia].
Qed.

(** Below a thousand an integer is written as it is. *)
Lemma customFormat_integer (z : Z) :
  -1000 < z < 1000 -> Scatter.customFormat (of_Z z) = Spec.integer_string z.
Proof.
  intros Hz.
  apply String.eqb_eq.
  apply (all_from_spec
           (fun z => String.eqb (Scatter.customFormat (of_Z z)) (Spec.integer_string z))
           1999 (-999)); [vm_compute; reflexivity | lia].
Qed.

(** C1, as amended. For every number [v], [customFormat] answers by the
    first threshold [v] reaches: from [10^9] up the quotient [v / 10^9]
    rounded to the nearest tenth (the quotient being the floating-point one,
    finite and below [10^21]), written with one decimal, a trailing [.0]
    stripped, and followed by [B]; from [10^6] up likewise with [M]; from
    [10^3] up likewise with [K]; below [10^3] the string [v.toString()] of
    [v] as it is, which for an integer of magnitude below [1000] is its
    integer string. The five sample labels are as the specification lists
    them, and the formatters of the three charts agree on every input. *)
Theorem customFormat_tick_labels :
  (forall v : number,
      (ge v (of_Z 1000000000) = true ->
       Spec.fixed_notation (div v (of_Z 1000000000)) = true ->
       Spec.scaled_label (div v (of_Z 1000000000)) "B" (Scatter.customFormat v)) /\
      (ge v (of_Z 1000000000) = false -> ge v (of_Z 1000000) = true ->
       Spec.fixed_notation (div v (of_Z 1000000)) = true ->
       Spec.scaled_label (div v (of_Z 1000000)) "M" (Scatter.customFormat v)) /\
      (ge v (of_Z 1000000000) = false -> ge v (of_Z 1000000) = false ->
       ge v (of_Z 1000) = true ->
       Spec.fixed_notation (div v (of_Z 1000)) = true ->
       Spec.scaled_label (div v (of_Z 1000)) "K" (Scatter.customFormat v)) /\
      (ge v (of_Z 1000000000) = false -> ge v (of_Z 1000000) = false ->
       ge v (of_Z 1000) = false ->
       Scatter.customFormat v = toString v)) /\
  (forall z : Z, -1000 < z < 1000 -> Scatter.customFormat (of_Z z) = Spec.integer_string z) /\
  (Scatter.customFormat (of_Z 999) = "999" /\
   Scatter.customFormat (of_Z 1000) = "1K" /\
   Scatter.customFormat (of_Z 1500) = "1.5K" /\
   Scatter.customFormat (of_Z 1000000) = "1M" /\
   Scatter.customFormat (of_Z 2000000000) = "2B") /\
  (forall d : number,
      TopArtists.customFormat d = Scatter.customFormat d /\
      Platform.customFormat d = Scatter.customFormat d).
Proof.
  split; [|split; [|split]].
  - intros v. unfold Scatter.customFormat. repeat split.
    + intros -> Hq. apply scaled_label_toFixed. exact Hq.
    + intros -> -> Hq. apply scaled_label_toFixed. exact Hq.
    + intros -> -> -> Hq. apply scaled_label_toFixed. exact Hq.
    + intros -> -> ->. reflexivity.
  - exact customFormat_integer.
  - repeat split; vm_compute; reflexivity.
  - intros d. split; reflexivity.
Qed.

(** The amended statement at [v = 1500]: the label is [1.5K]. *)
Lemma customFormat_tick_labels_witness :
  Spec.scaled_label (div (of_Z 1500) (of_Z 1000)) "K" (Scatter.customFormat (of_Z 1500)).
Proof.
  apply (proj1 (proj2 (proj2 (proj1 customFormat_tick_labels (of_Z 1500)))));
    vm_compute; reflexivity.
Defined.

(** C1 as stated fails at [v = 0.5]: the label is ["0.5"], which is the
    integer string of no integer. *)
Lemma customFormat_half_is_no_integer_string :
  Scatter.customFormat (div (of_Z 1) (of_Z 2)) = "0.5" /\
  ~ Spec.tick_label (div (of_Z 1) (of_Z 2)) (Scatter.customFormat (div (of_Z 1) (of_Z 2))).
Proof.
  assert (E : Scatter.customFormat (div (of_Z 1) (of_Z 2)) = "0.5") by (vm_compute; reflexivity).
  split; [exact E|]. rewrite E. unfold Spec.tick_label.
  replace (ge (div (of_Z 1) (of_Z 2)) (of_Z (10 ^ 9))) with false by (vm_compute; reflexivity).
  replace (ge (div (of_Z 1) (of_Z 2)) (of_Z (10 ^ 6))) with false by (vm_compute; reflexivity).
  replace (ge (div (of_Z 1) (of_Z 2)) (of_Z (10 ^ 3))) with false by (vm_compute; reflexivity).
  intros [z [_ Hz]].
  pose proof (has_point_integer_string z) as Hp. rewrite <- Hz in Hp. discriminate Hp.
Qed.

End TickLabels.

(** * The sort toggle of the bar chart *)

Section SortToggle.
Import TopArtists SortSpec.
Local Open Scope Q_scope.

Variable ascending : bool.

Lemma compareFn_in_order (a b : datum) :
  compareFn ascending a b <> Gt <-> in_order ascending a b.
Proof.
  unfold compareFn, in_order, D3.ascending, D3.descending.
  destruct ascending; symmetry; apply Qle_alt.
Qed.

Lemma in_order_trans (a b c : datum) :
  in_order ascending a b -> in_order ascending b c -> in_order ascending a c.
Proof. unfold in_order. destruct ascending; intros; lra. Qed.

Lemma compareFn_Gt (a b : datum) : compareFn ascending a b = Gt -> in_order ascending b a.
Proof.
  unfold compareFn, in_order, D3.ascending, D3.descending.
  destruct ascending; rewrite <- Qgt_alt; intros; lra.
Qed.

Lemma compareFn_same (a b : datum) (v : Q) :
  same_streams v a = true -> same_streams v b = true -> compareFn ascending a b <> Gt.
Proof.
  intros Ha Hb. apply compareFn_in_order. revert Ha Hb.
  unfold same_streams, in_order. rewrite !Qeq_bool_iff. destruct ascending; intros; lra.
Qed.

Lemma insert_perm (a : datum) (l : list datum) :
  Permutation (a :: l) (JSArray.insert (compareFn ascending) a l).
Proof.
  induction l as [|b l IH]; cbn [JSArray.insert]; [reflexivity|].
  destruct (compareFn ascending a b); try reflexivity.
  rewrite perm_swap. apply perm_skip. exact IH.
Qed.

Lemma sort_perm (l : list datum) : Permutation l (JSArray.sort (compareFn ascending) l).
Proof.
  induction l as [|a l IH]; [reflexivity|].
  cbn [JSArray.sort foldr]. rewrite <- insert_perm. apply perm_skip. exact IH.
Qed.

Lemma insert_sorted (a : datum) (l : list datum) :
  StronglySorted (in_order ascending) l ->
  StronglySorted (in_order ascending) (JSArray.insert (compareFn ascending) a l).
Proof.
  induction 1 as [|b l Hl IH Hb]; cbn [JSArray.insert].
  - constructor; constructor.
  - destruct (compareFn ascending a b) eqn:E.
    + assert (Hab : in_order ascending a b) by (apply compareFn_in_order; congruence).
      constructor; [constructor; assumption|].
      constructor; [exact Hab|].
      eapply Forall_impl; [exact Hb|]. intros c Hc. exact (in_order_trans a b c Hab Hc).
    + assert (Hab : in_order ascending a b) by (apply compareFn_in_order; congruence).
      constructor; [constructor; assumption|].
      constructor; [exact Hab|].
      eapply Forall_impl; [exact Hb|]. intros c Hc. exact (in_order_trans a b c Hab Hc).
    + constructor; [exact IH|].
      rewrite <- insert_perm. constructor; [apply compareFn_Gt; exact E | exact Hb].
Qed.

Lemma sort_sorted (l : list datum) :
  StronglySorted (in_order ascending) (JSArray.sort (compareFn ascending) l).
Proof.
  induction l as [|a l IH]; [constructor|].
  cbn [JSArray.sort foldr]. apply insert_sorted. exact IH.
Qed.

Lemma insert_filter (v : Q) (a : datum) (l : list datum) :
  List.filter (same_streams v) (JSArray.insert (compareFn ascending) a l) =
  List.filter (same_streams v) (a :: l).
Proof.
  induction l as [|b l IH]; cbn [JSArray.insert]; [reflexivity|].
  destruct (compareFn ascending a b) eqn:E; try reflexivity.
  cbn [List.filter] in *. rewrite IH.
  destruct (same_streams v a) eqn:Ea, (same_streams v b) eqn:Eb; try reflexivity.
  exfalso. exact (compareFn_same a b v Ea Eb E).
Qed.

Lemma sort_stable (l : list datum) : stable l (JSArray.sort (compareFn ascending) l).
Proof.
  intros v. induction l as [|a l IH]; [reflexivity|].
  cbn [JSArray.sort foldr]. rewrite insert_filter. cbn [List.filter].
  fold (JSArray.sort (compareFn ascending) l). rewrite IH. reflexivity.
Qed.

Lemma same_streams_refl (d : datum) : same_streams (streams d) d = true.
Proof. unfold same_streams. apply Qeq_bool_iff. reflexivity. Qed.

Lemma filter_In_head (v : Q) (a : datum) (l l' : list datum) :
  List.filter (same_streams v) l = a :: l' -> In a l /\ same_streams v a = true.
Proof.
  intros H. apply filter_In. rewrite H. left. reflexivity.
Qed.

(** A sorted array is determined by the order of its entries of equal
    streams. *)
Lemma sorted_stable_unique (l1 l2 : list datum) :
  StronglySorted (in_order ascending) l1 ->
  StronglySorted (in_order ascending) l2 ->
  (forall v, List.filter (same_streams v) l1 = List.filter (same_streams v) l2) ->
  l1 = l2.
Proof.
  intros H1. revert l2. induction H1 as [|a l1 Hl1 IH Ha]; intros l2 H2 Hf.
  - destruct l2 as [|b l2]; [reflexivity|].
    specialize (Hf (streams b)). cbn [List.filter] in Hf.
    rewrite same_streams_refl in Hf. discriminate.
  - destruct H2 as [|b l2 Hl2 Hb].
    + specialize (Hf (streams a)). cbn [List.filter] in Hf.
      rewrite same_streams_refl in Hf. discriminate.
    + assert (Eab : same_streams (streams a) b = true).
      { pose proof (Hf (streams a)) as Fa. pose proof (Hf (streams b)) as Fb.
        cbn [List.filter] in Fa, Fb. rewrite same_streams_refl in Fa, Fb.
        destruct (same_streams (streams a) b) eqn:Eab; [reflexivity|].
        destruct (same_streams (streams b) a) eqn:Eba.
        { exfalso. revert Eab Eba. unfold same_streams. rewrite Qeq_bool_iff.
          intros Eab Eba. apply Qeq_bool_neq in Eab. apply Eab. symmetry. exact Eba. }
        symmetry in Fa. apply filter_In_head in Fa as [Ina _].
        apply filter_In_head in Fb as [Inb _].
        rewrite Forall_forall in Ha, Hb.
        apply list_elem_of_In in Ina, Inb.
        pose proof (Ha b Inb) as Hab. pose proof (Hb a Ina) as Hba.
        exfalso. apply Qeq_bool_neq in Eab. apply Eab.
        revert Hab Hba. unfold in_order. destruct ascending; intros; lra. }
      assert (a = b).
      { specialize (Hf (streams a)). cbn [List.filter] in Hf.
        rewrite same_streams_refl, Eab in Hf. congruence. }
      subst b. f_equal. apply IH; [exact Hl2|].
      intros v. specialize (Hf v). cbn [List.filter] in Hf.
      destruct (same_streams v a); congruence.
Qed.

End SortToggle.

Section SortTwice.
Import TopArtists SortSpec.

(** Sorting one way after sorting the other way is sorting the one way. *)
Lemma sort_sort (b b' : bool) (l : list datum) :
  JSArray.sort (compareFn b) (JSArray.sort (compareFn b') l) = JSArray.sort (compareFn b) l.
Proof.
  apply (sorted_stable_unique b); try apply sort_sorted.
  intros v. rewrite (sort_stable b (JSArray.sort (compareFn b') l) v).
  rewrite (sort_stable b' l v). symmetry. apply sort_stable.
Qed.

Lemma sort_sorted_id (b : bool) (l : list datum) :
  StronglySorted (in_order b) l -> JSArray.sort (compareFn b) l = l.
Proof.
  intros H. apply (sorted_stable_unique b); [apply sort_sorted | exact H |].
  intros v. apply sort_stable.
Qed.

Lemma distinct_NoDup (seen keys : list string) :
  NoDup keys -> (forall k, k ∈ keys -> k ∉ seen) -> D3.distinct seen keys = keys.
Proof.
  intros Hnd. revert seen. induction Hnd as [|k keys Hk Hnd IH]; intros seen Hseen; [reflexivity|].
  cbn [D3.distinct]. rewrite bool_decide_eq_false_2 by (apply Hseen; left).
  f_equal. apply IH. intros k' Hk' [->|Hin]%elem_of_cons.
  - contradiction.
  - apply (Hseen k'); [right; exact Hk' | exact Hin].
Qed.

End SortTwice.

Section SortBars.
Import TopArtists SortSpec Samples.
Local Open Scope Q_scope.

(** C2, as amended. For every state of the bar chart, one click on the sort
    toggle flips the direction, sorts the data array by [streams] in the new
    direction (a permutation of the array, in order, entries of equal
    streams keeping their relative order) and, the artists being distinct,
    sets the band scale's domain to the artists in the new order. A second
    click flips the direction back and leaves the array stably sorted in the
    direction the chart started from: that is the original order exactly
    when the original array was already in that order. *)
Theorem sortBars_toggle (c : chart) :
  let c' := sortBars c in
  let c'' := sortBars c' in
  sortedAscending c' = negb (sortedAscending c) /\
  Permutation (data c) (data c') /\
  StronglySorted (in_order (sortedAscending c')) (data c') /\
  stable (data c) (data c') /\
  (NoDup (map artist (data c)) -> D3.band_domain (y c') = map artist (data c')) /\
  sortedAscending c'' = sortedAscending c /\
  Permutation (data c) (data c'') /\
  StronglySorted (in_order (sortedAscending c)) (data c'') /\
  stable (data c) (data c'') /\
  (data c'' = data c <-> StronglySorted (in_order (sortedAscending c)) (data c)).
Proof.
  cbv zeta. unfold sortBars. cbn [sortedAscending data y].
  rewrite negb_involutive, sort_sort.
  repeat split.
  - apply sort_perm.
  - apply sort_sorted.
  - apply sort_stable.
  - intros Hnd. unfold D3.set_band_domain. cbn [D3.band_domain].
    apply distinct_NoDup.
    + assert (P : Permutation
                    (map artist (JSArray.sort (compareFn (negb (sortedAscending c))) (data c)))
                    (map artist (data c)))
        by (apply Permutation_map; symmetry; apply sort_perm).
      rewrite P. exact Hnd.
    + intros k _ Hk. inversion Hk.
  - apply sort_perm.
  - apply sort_sorted.
  - apply sort_stable.
  - intros E. rewrite <- E. apply sort_sorted.
  - apply sort_sorted_id.
Qed.

(** The amended statement on two concrete arrays: distinct artists give the
    band domain, and an array already in ascending order comes back after
    two clicks. *)
Lemma sortBars_toggle_witness :
  D3.band_domain (y (sortBars (create default_config two_artists))) =
    map artist (data (sortBars (create default_config two_artists))) /\
  data (sortBars (sortBars (create default_config tied_artists))) = tied_artists.
Proof.
  split.
  - apply (proj1 (proj2 (proj2 (proj2 (proj2 (sortBars_toggle (create default_config two_artists))))))).
    apply (bool_decide_unpack _). vm_compute. exact I.
  - apply (proj2 (proj2 (proj2 (proj2 (proj2 (proj2 (proj2 (proj2 (proj2
             (sortBars_toggle (create default_config tied_artists))))))))))).
    cbn. unfold tied_artists.
    repeat (constructor; [|repeat constructor; unfold in_order; cbn; lra]).
    constructor.
Defined.

(** C2 as stated fails on the array [A: 2, B: 1]: two clicks on the toggle
    leave it as [B, A]. *)
Lemma sortBars_twice_is_not_identity :
  data (sortBars (sortBars (create default_config two_artists))) =
    [ {| artist := "B"; streams := 1 |}; {| artist := "A"; streams := 2 |} ] /\
  data (sortBars (sortBars (create default_config two_artists))) <>
    data (create default_config two_artists).
Proof.
  split; [reflexivity | discriminate].
Qed.

End SortBars.
(** * Zoom and reset *)

Section ZoomReset.
Import Scatter.
Local Open Scope Q_scope.

Lemma clamp_within (lo hi k' : Q) : lo <= hi -> lo <= Zoom.clamp (lo, hi) k' <= hi.
Proof.
  intros H. unfold Zoom.clamp. cbn [fst snd]. split.
  - apply Q.le_max_l.
  - apply Q.max_lub; [exact H | apply Q.le_min_l].
Qed.

Lemma apply_within (lo hi : Q) (g : Zoom.gesture) (t : Zoom.transform) :
  lo <= hi -> lo <= Zoom.k t <= hi -> lo <= Zoom.k (Zoom.apply (lo, hi) g t) <= hi.
Proof.
  intros H Ht. destruct g; cbn [Zoom.apply Zoom.translate Zoom.scale Zoom.k];
    try apply clamp_within; assumption.
Qed.

(** The scale factor a wheel turn or a double click asks for lies within
    the extent, whatever the node holds. *)
Lemma apply_clamped (lo hi : Q) (g : Zoom.gesture) (t : Zoom.transform) :
  lo <= hi ->
  match g with
  | Zoom.wheel _ _ | Zoom.dblclick _ _ => lo <= Zoom.k (Zoom.apply (lo, hi) g t) <= hi
  | Zoom.drag _ _ | Zoom.press => Zoom.k (Zoom.apply (lo, hi) g t) = Zoom.k t
  end.
Proof.
  intros H. destruct g; cbn [Zoom.apply Zoom.translate Zoom.scale Zoom.k];
    try apply clamp_within; try reflexivity; assumption.
Qed.

Lemma create_within (c : config) (data : list datum) (tip : nat) :
  ZoomRun.within_extent (create c data tip).
Proof.
  unfold ZoomRun.within_extent, ZoomRun.within, create. cbn.
  split; [reflexivity|]. split; [split; lra|]. split; [|reflexivity].
  intros ms t H. discriminate H.
Qed.

Lemma step_within (c : chart) (e : ZoomRun.event) :
  (forall t, e = ZoomRun.frame t -> ZoomRun.within t) ->
  ZoomRun.within_extent c -> ZoomRun.within_extent (ZoomRun.step c e).
Proof.
  intros Hframe (He & Hk & Hs & Hg).
  assert (Hto : forall t s, ZoomRun.within t ->
                  (forall ms b, s = Some (ms, b) -> ZoomRun.within b) ->
                  ZoomRun.within_extent (zoom_to t s c)).
  { intros t s Ht Hb. unfold ZoomRun.within_extent, zoom_to, zoomed, with_zoom.
    cbn [scaleExtent zoom g_transform Zoom.current Zoom.scheduled]. auto. }
  destruct e as [g| |t|]; cbn [ZoomRun.step].
  - pose proof (apply_within (1 # 2) 5 g (Zoom.current (zoom c)) ltac:(lra) Hk) as Ha.
    unfold gesture. rewrite He. destruct g.
    + destruct (Qeq_bool _ _).
      * unfold ZoomRun.within_extent. auto.
      * apply Hto; [exact Ha|]. intros ms b H. discriminate H.
    + apply Hto; [exact Ha|]. intros ms b H. discriminate H.
    + unfold ZoomRun.within_extent, with_zoom.
      cbn [scaleExtent zoom g_transform Zoom.current Zoom.scheduled].
      split; [exact He|]. split; [exact Hk|]. split; [|exact Hg].
      intros ms b H. discriminate H.
    + unfold ZoomRun.within_extent, with_zoom.
      cbn [scaleExtent zoom g_transform Zoom.current Zoom.scheduled].
      split; [exact He|]. split; [exact Hk|]. split; [|exact Hg].
      intros ms b [= <- <-]. exact Ha.
  - unfold ZoomRun.within_extent, resetZoom, with_zoom.
    cbn [scaleExtent zoom g_transform Zoom.current Zoom.scheduled].
    split; [exact He|]. split; [exact Hk|]. split; [|exact Hg].
    intros ms b [= <- <-]. unfold ZoomRun.within. cbn. lra.
  - unfold frame. destruct (Zoom.scheduled (zoom c)) as [s|] eqn:E.
    + apply Hto; [exact (Hframe t eq_refl)|].
      intros ms b [= ->]. exact (Hs ms b eq_refl).
    + unfold ZoomRun.within_extent. rewrite E. auto.
  - unfold transition_end. destruct (Zoom.scheduled (zoom c)) as [[ms t]|] eqn:E.
    + apply Hto; [exact (Hs ms t eq_refl)|]. intros ms' b H. discriminate H.
    + unfold ZoomRun.within_extent. rewrite E. auto.
Qed.

Lemma run_within (events : list ZoomRun.event) (c : chart) :
  ZoomRun.frames_within events ->
  ZoomRun.within_extent c -> ZoomRun.within_extent (ZoomRun.run events c).
Proof.
  revert c. induction events as [|e events IH]; intros c Hf H; [exact H|].
  cbn [ZoomRun.run foldl]. apply IH.
  - intros t Ht. apply Hf. right. exact Ht.
  - apply step_within; [|exact H]. intros t ->. apply Hf. left. reflexivity.
Qed.

(** The frames of a transition leave it scheduled. *)
Lemma frames_scheduled (frames : list Zoom.transform) (c : chart) (s : Z * Zoom.transform) :
  Zoom.scheduled (zoom c) = Some s ->
  Zoom.scheduled (zoom (ZoomRun.run (map ZoomRun.frame frames) c)) = Some s.
Proof.
  revert c. induction frames as [|t frames IH]; intros c H; [exact H|].
  cbn [map ZoomRun.run foldl ZoomRun.step]. apply IH.
  unfold frame. rewrite H. reflexivity.
Qed.

(** C3, as amended. Whatever state the scatter plot is in, a click on
    "Reset Zoom" schedules a transition of 750 ms towards the identity
    transform and leaves the transform as it is; when the transition runs
    to its end, whatever frames it draws, the node and the content group
    hold [{k: 1, x: 0, y: 0}] and no transition is left. A wheel turn that
    changes the scale, a drag or a press cuts a scheduled transition short:
    none is left, and the node holds what the gesture asks for from the
    transform it has then. A frame of a transition reaches the node and the
    group as it is, unclamped. The scale factor a wheel turn or a double
    click asks for lies within [[0.5, 5]], and along every run from the
    chart as built whose frames have their scale factor within [[0.5, 5]],
    so have the transform of the node and the one a scheduled transition
    ends in, and the group carries the transform of the node. *)
Theorem resetZoom_identity :
  (forall c : chart,
      zoom (resetZoom c) =
        {| Zoom.current := Zoom.current (zoom c);
           Zoom.scheduled := Some (750%Z, Zoom.zoomIdentity) |} /\
      g_transform (resetZoom c) = g_transform c) /\
  (forall (c : chart) (frames : list Zoom.transform),
      let c' := ZoomRun.run (ZoomRun.click_reset :: map ZoomRun.frame frames
                               ++ [ZoomRun.transition_end]) c in
      zoom c' = {| Zoom.current := {| Zoom.k := 1; Zoom.x := 0; Zoom.y := 0 |};
                   Zoom.scheduled := None |} /\
      g_transform c' = Some {| Zoom.k := 1; Zoom.x := 0; Zoom.y := 0 |}) /\
  (forall (c : chart) (g : Zoom.gesture),
      ZoomRun.interrupts g c = true ->
      zoom (gesture g c) =
        {| Zoom.current := Zoom.apply (scaleExtent c) g (Zoom.current (zoom c));
           Zoom.scheduled := None |}) /\
  (forall (c : chart) (s : Z * Zoom.transform) (t : Zoom.transform),
      Zoom.scheduled (zoom c) = Some s ->
      zoom (frame t c) = {| Zoom.current := t; Zoom.scheduled := Some s |} /\
      g_transform (frame t c) = Some t) /\
  (forall (c : chart) (g : Zoom.gesture),
      fst (scaleExtent c) <= snd (scaleExtent c) ->
      match g with
      | Zoom.wheel _ _ | Zoom.dblclick _ _ =>
          fst (scaleExtent c)
            <= Zoom.k (Zoom.apply (scaleExtent c) g (Zoom.current (zoom c)))
            <= snd (scaleExtent c)
      | Zoom.drag _ _ | Zoom.press =>
          Zoom.k (Zoom.apply (scaleExtent c) g (Zoom.current (zoom c)))
            = Zoom.k (Zoom.current (zoom c))
      end) /\
  (forall (cfg : config) (data : list datum) (tip : nat) (events : list ZoomRun.event),
      ZoomRun.frames_within events ->
      ZoomRun.within_extent (ZoomRun.run events (create cfg data tip))).
Proof.
  split; [|split; [|split; [|split; [|split]]]].
  - intros c. split; reflexivity.
  - intros c frames c'. subst c'.
    cbn [ZoomRun.run foldl ZoomRun.step]. fold (ZoomRun.run (map ZoomRun.frame frames ++
      [ZoomRun.transition_end]) (resetZoom c)).
    unfold ZoomRun.run. rewrite foldl_app. cbn [foldl ZoomRun.step].
    fold (ZoomRun.run (map ZoomRun.frame frames) (resetZoom c)).
    pose proof (frames_scheduled frames (resetZoom c) (750%Z, Zoom.zoomIdentity) eq_refl) as E.
    unfold transition_end. rewrite E. split; reflexivity.
  - intros c g Hg. unfold gesture. destruct g; cbn [ZoomRun.interrupts] in Hg.
    + apply negb_true_iff in Hg. rewrite Hg. reflexivity.
    + reflexivity.
    + reflexivity.
    + discriminate Hg.
  - intros c s t Hs. unfold frame. rewrite Hs. split; reflexivity.
  - intros c g H. destruct (scaleExtent c) as [lo hi]. cbn [fst snd] in *.
    apply apply_clamped. exact H.
  - intros cfg data tip events Hf. apply run_within; [exact Hf | apply create_within].
Qed.

End ZoomReset.

Section ZoomResetSample.
Import Scatter Samples.
Local Open Scope Q_scope.

(** The statement on the chart of one track: a wheel turn, a double click,
    a frame of its transition, a reset with two frames, run to its end. *)
Lemma resetZoom_identity_witness :
  ZoomRun.within_extent
    (ZoomRun.run
       [ ZoomRun.gesture (Zoom.wheel 2 (400, 200));
         ZoomRun.gesture (Zoom.dblclick false (300, 100));
         ZoomRun.frame {| Zoom.k := 3; Zoom.x := -700; Zoom.y := -300 |};
         ZoomRun.click_reset;
         ZoomRun.frame {| Zoom.k := 2; Zoom.x := -350; Zoom.y := -150 |};
         ZoomRun.frame {| Zoom.k := 3 # 2; Zoom.x := -100; Zoom.y := -50 |};
         ZoomRun.transition_end ]
       (create default_config one_track 0)).
Proof.
  apply (proj2 (proj2 (proj2 (proj2 (proj2 resetZoom_identity))))).
  intros t Ht. unfold ZoomRun.within.
  repeat (destruct Ht as [Ht|Ht]; [try discriminate Ht; injection Ht as <-; cbn; lra|]).
  destruct Ht.
Defined.

(** C3 as stated fails on the chart of one track. After a wheel turn has
    doubled the scale, a click on "Reset Zoom" followed by a press on the
    chart before the transition has ended leaves no transition, and the
    node and the group at scale 2: the reset has not led to the identity.
    And wherever the transition has come to, a press leaves the chart
    there: at the frame [t] d3 wrote last, whatever its scale factor. *)
Lemma reset_cut_short :
  let c0 := create default_config one_track 0 in
  let c1 := ZoomRun.run [ ZoomRun.gesture (Zoom.wheel 2 (400, 200)); ZoomRun.click_reset;
                          ZoomRun.gesture Zoom.press ] c0 in
  (Zoom.scheduled (zoom c1) = None /\
   g_transform c1 = Some (Zoom.current (zoom c1)) /\
   Zoom.k (Zoom.current (zoom c1)) == 2 /\ Zoom.x (Zoom.current (zoom c1)) == -400 /\
   Zoom.y (Zoom.current (zoom c1)) == -200 /\ ~ Zoom.k (Zoom.current (zoom c1)) == 1) /\
  (forall t : Zoom.transform,
      let c2 := ZoomRun.run [ ZoomRun.click_reset; ZoomRun.frame t;
                              ZoomRun.gesture Zoom.press ] c0 in
      zoom c2 = {| Zoom.current := t; Zoom.scheduled := None |} /\ g_transform c2 = Some t).
Proof.
  cbv zeta. split.
  - split; [reflexivity|]. split; [reflexivity|]. split; [reflexivity|].
    split; [reflexivity|]. split; [reflexivity|]. intros E. discriminate E.
  - intros t. split; reflexivity.
Qed.

End ZoomResetSample.

(** * Domains of the linear scales *)

Section LinearDomains.
Import Extremes.
Local Open Scope Q_scope.

Context {A : Type}.
Variable valueof : A -> option Q.
Variable value : A -> Q.
Hypothesis valueof_value : forall a, valueof a = Some (value a).

Lemma maximum_snoc (vs : list Q) (m : option Q) (v : Q) :
  maximum vs m ->
  maximum (vs ++ [v])
    (match m with
     | None => Some v
     | Some top => match top ?= v with Lt => Some v | _ => m end
     end).
Proof.
  destruct m as [top|]; cbn [maximum].
  - intros [Hin Hle]. destruct (top ?= v) eqn:E.
    + split; [apply in_or_app; left; exact Hin|].
      intros w [Hw|[<-|[]]]%in_app_or; [apply Hle; exact Hw|].
      apply Qeq_alt in E. lra.
    + split; [apply in_or_app; right; left; reflexivity|].
      intros w [Hw|[<-|[]]]%in_app_or; [|lra].
      apply Qlt_alt in E. specialize (Hle w Hw). lra.
    + split; [apply in_or_app; left; exact Hin|].
      intros w [Hw|[<-|[]]]%in_app_or; [apply Hle; exact Hw|].
      apply Qgt_alt in E. lra.
  - intros ->. split; [left; reflexivity|]. intros w [<-|[]]. lra.
Qed.

Lemma minimum_snoc (vs : list Q) (m : option Q) (v : Q) :
  minimum vs m ->
  minimum (vs ++ [v])
    (match m with
     | None => Some v
     | Some bottom => match bottom ?= v with Gt => Some v | _ => m end
     end).
Proof.
  destruct m as [bottom|]; cbn [minimum].
  - intros [Hin Hle]. destruct (bottom ?= v) eqn:E.
    + split; [apply in_or_app; left; exact Hin|].
      intros w [Hw|[<-|[]]]%in_app_or; [apply Hle; exact Hw|].
      apply Qeq_alt in E. lra.
    + split; [apply in_or_app; left; exact Hin|].
      intros w [Hw|[<-|[]]]%in_app_or; [apply Hle; exact Hw|].
      apply Qlt_alt in E. lra.
    + split; [apply in_or_app; right; left; reflexivity|].
      intros w [Hw|[<-|[]]]%in_app_or; [|lra].
      apply Qgt_alt in E. specialize (Hle w Hw). lra.
  - intros ->. split; [left; reflexivity|]. intros w [<-|[]]. lra.
Qed.

(** [d3.max] returns the maximum of the field. *)
Lemma max_maximum (l : list A) : maximum (map value l) (D3.max l valueof).
Proof.
  unfold D3.max.
  enough (H : forall pre acc,
             maximum (map value pre) acc ->
             maximum (map value (pre ++ l))
               (fold_left
                  (fun acc a =>
                     match valueof a, acc with
                     | None, _ => acc
                     | Some v, None => Some v
                     | Some v, Some m => match m ?= v with Lt => Some v | _ => acc end
                     end) l acc))
    by (apply (H [] None); reflexivity).
  induction l as [|a l IH]; intros pre acc Hacc.
  - rewrite app_nil_r. exact Hacc.
  - cbn [fold_left]. replace (pre ++ a :: l) with ((pre ++ [a]) ++ l)
      by (rewrite <- app_assoc; reflexivity).
    apply IH. rewrite map_app. cbn [map]. rewrite valueof_value.
    pose proof (maximum_snoc (map value pre) acc (value a) Hacc) as H.
    destruct acc; exact H.
Qed.

(** [d3.extent] returns the minimum and the maximum of the field. *)
Lemma extent_extremes (l : list A) :
  minimum (map value l) (fst (D3.extent l valueof)) /\
  maximum (map value l) (snd (D3.extent l valueof)).
Proof.
  unfold D3.extent.
  set (step := fun (acc : option (Q * Q)) (a : A) =>
                 match valueof a, acc with
                 | None, _ => acc
                 | Some v, None => Some (v, v)
                 | Some v, Some (lo, hi) =>
                     Some (match lo ?= v with Gt => v | _ => lo end,
                           match hi ?= v with Lt => v | _ => hi end)
                 end).
  enough (H : forall pre acc,
             minimum (map value pre) (fst <$> acc) /\ maximum (map value pre) (snd <$> acc) ->
             minimum (map value (pre ++ l)) (fst <$> fold_left step l acc) /\
             maximum (map value (pre ++ l)) (snd <$> fold_left step l acc)).
  { specialize (H [] None (conj eq_refl eq_refl)). cbn [app] in H.
    destruct (fold_left step l None) as [[lo hi]|]; exact H. }
  induction l as [|a l IH]; intros pre acc Hacc.
  - rewrite app_nil_r. exact Hacc.
  - cbn [fold_left]. replace (pre ++ a :: l) with ((pre ++ [a]) ++ l)
      by (rewrite <- app_assoc; reflexivity).
    apply IH. rewrite map_app. cbn [map]. destruct Hacc as [Hmin Hmax].
    pose proof (minimum_snoc _ _ (value a) Hmin) as Hlo.
    pose proof (maximum_snoc _ _ (value a) Hmax) as Hhi.
    unfold step. rewrite valueof_value.
    destruct acc as [[lo hi]|]; cbn [fmap option_fmap option_map fst snd] in *.
    + split.
      * destruct (lo ?= value a); exact Hlo.
      * destruct (hi ?= value a); exact Hhi.
    + split; assumption.
Qed.

End LinearDomains.

Section ChartDomains.
Import Extremes.
Local Open Scope Q_scope.

Lemma field_total (d : Platform.datum) : Platform.field "total" d = Some (Platform.total d).
Proof. reflexivity. Qed.

Lemma field_average (d : Platform.datum) :
  Platform.field "average" d = Some (Platform.average d).
Proof. reflexivity. Qed.

Lemma field_median (d : Platform.datum) : Platform.field "median" d = Some (Platform.median d).
Proof. reflexivity. Qed.

(** The domain of the comparison chart's scale for a metric that names the
    field [value]. *)
Lemma y_scale_domain (c : config) (data : list Platform.datum) (metric : string)
    (value : Platform.datum -> Q) :
  (forall d, Platform.field metric d = Some (value d)) ->
  fst (D3.domain (Platform.y_scale c data metric)) = Some 0 /\
  maximum (map value data) (snd (D3.domain (Platform.y_scale c data metric))).
Proof.
  intros Hfield. split; [reflexivity|].
  unfold Platform.y_scale. cbn [D3.domain snd]. apply max_maximum. exact Hfield.
Qed.

(** C6, as amended. For every scatter dataset the x scale's domain is the
    minimum and the maximum of [streams], while the y scale's domain runs
    from 0 to the maximum of [reach]; the comparison chart's domain runs
    from 0 to the maximum of the metric it is built with or switched to. *)
Theorem linear_scale_domains :
  (forall (cfg : config) (data : list Scatter.datum) (tip : nat),
      let c := Scatter.create cfg data tip in
      minimum (map Scatter.streams data) (fst (D3.domain (Scatter.x c))) /\
      maximum (map Scatter.streams data) (snd (D3.domain (Scatter.x c))) /\
      fst (D3.domain (Scatter.y c)) = Some 0 /\
      maximum (map Scatter.reach data) (snd (D3.domain (Scatter.y c)))) /\
  (forall (cfg : config) (data : list Platform.datum) (metric : string) (tip : nat),
      let c := Platform.create cfg data metric tip in
      let domain_for c' value :=
        fst (D3.domain (Platform.y c')) = Some 0 /\
        maximum (map value data) (snd (D3.domain (Platform.y c'))) in
      domain_for (Platform.create cfg data "total" tip) Platform.total /\
      domain_for (Platform.create cfg data "average" tip) Platform.average /\
      domain_for (Platform.create cfg data "median" tip) Platform.median /\
      domain_for (Platform.updateChart "total" c) Platform.total /\
      domain_for (Platform.updateChart "average" c) Platform.average /\
      domain_for (Platform.updateChart "median" c) Platform.median).
Proof.
  split.
  - intros cfg data tip c. subst c. unfold Scatter.create. cbn [Scatter.x Scatter.y D3.domain].
    pose proof (extent_extremes (fun d => Some (Scatter.streams d)) Scatter.streams
                  (fun _ => eq_refl) data) as [Hmin Hmax].
    repeat split; try assumption; try (apply Hmin); try (apply Hmax);
      apply (max_maximum (fun d => Some (Scatter.reach d)) Scatter.reach (fun _ => eq_refl)).
  - intros cfg data metric tip c domain_for. subst c domain_for. cbv beta.
    unfold Platform.create, Platform.updateChart. cbn [Platform.y Platform.data Platform.cfg].
    pose proof (y_scale_domain cfg data "total" Platform.total field_total).
    pose proof (y_scale_domain cfg data "average" Platform.average field_average).
    pose proof (y_scale_domain cfg data "median" Platform.median field_median).
    tauto.
Qed.

(** C6 as stated fails on a dataset of one track with [reach = 5]: the y
    domain is [[0, 5]], and 0 is not the minimum of [reach]. *)
Lemma scatter_y_domain_starts_at_zero :
  let data := [ {| Scatter.streams := 1; Scatter.reach := 5;
                   Scatter.track := "A"; Scatter.artist := "X" |} ] in
  let c := Scatter.create Scatter.default_config data 0 in
  D3.domain (Scatter.y c) = (Some 0, Some 5) /\
  ~ minimum (map Scatter.reach data) (fst (D3.domain (Scatter.y c))).
Proof.
  cbv zeta. split; [reflexivity|].
  cbn. intros [[H|[]] _]. discriminate H.
Qed.

End ChartDomains.

(** * The metric switch of the comparison chart *)

Section MetricSwitch.
Import Extremes Platform MetricSpec Samples.
Local Open Scope Q_scope.

Lemma updateChart_rects_length (m : string) (c : chart) :
  length (rects c) = length (data c) -> length (rects (updateChart m c)) = length (data c).
Proof.
  intros H. unfold updateChart. cbn [rects]. rewrite length_zip_with. lia.
Qed.

Lemma create_rects_length (cfg : config) (l : list datum) (m : string) (tip : nat) :
  length (rects (create cfg l m tip)) = length (data (create cfg l m tip)).
Proof. unfold create. cbn [rects data]. apply length_map. Qed.

Lemma updateChart_shows (m : string) (value : datum -> Q) (c : chart) :
  (forall d, field m d = Some (value d)) ->
  length (rects c) = length (data c) ->
  shows m value (updateChart m c).
Proof.
  intros Hfield Hlen. unfold shows.
  destruct (y_scale_domain (cfg c) (data c) m value Hfield) as [H0 Hmax].
  split; [exact H0|]. split; [exact Hmax|]. split; [reflexivity|]. split; [reflexivity|].
  intros i d Hd. cbn [updateChart data] in Hd.
  destruct (rects c !! i) as [e|] eqn:He.
  - exists (DOM.transition 1000 (place (cfg c) (y_scale (cfg c) (data c) m) m d) e).
    split.
    + unfold updateChart. cbn [rects]. apply lookup_zip_with_Some. exists e, d. auto.
    + unfold DOM.transition, place. rewrite Hfield. cbn [DOM.attr DOM.attrs updateChart y cfg].
      split.
      * rewrite lookup_insert_ne by discriminate. apply lookup_insert_eq.
      * apply lookup_insert_eq.
  - apply lookup_ge_None in He. apply lookup_lt_Some in Hd. lia.
Qed.

Lemma switched_rects_length cfg l m0 tip history :
  length (rects (switched cfg l m0 tip history)) = length l.
Proof.
  unfold switched.
  enough (H : forall c, length (rects c) = length (data c) ->
                        length (rects (foldl (fun c m => updateChart m c) c history))
                        = length (data c)).
  { rewrite H by apply create_rects_length. reflexivity. }
  induction history as [|m history IH]; intros c Hc; [exact Hc|].
  cbn [foldl]. rewrite IH; [reflexivity|]. exact (updateChart_rects_length m c Hc).
Qed.

Lemma switched_data cfg l m0 tip history : data (switched cfg l m0 tip history) = l.
Proof.
  unfold switched.
  enough (H : forall c, data (foldl (fun c m => updateChart m c) c history) = data c)
    by (rewrite H; reflexivity).
  induction history as [|m history IH]; intros c; [reflexivity|].
  cbn [foldl]. rewrite IH. reflexivity.
Qed.

(** C4. The three controls of the comparison chart run [updateChart] with
    ["total"], ["median"] and ["average"]; whatever was shown before, the
    chart then encodes the metric of the control clicked: the y domain is
    [[0, max over the data of that field]], the axis label is the metric's
    name with a capital initial followed by [" Streams/Views"], and every
    bar stands at its value. For the data
    [[{platform: "Spotify", total: 100, average: 10, median: 5}]], a click
    on "Median" makes the domain [[0, 5]] and gives the bar the height of
    the plot, 320 px. *)
Theorem updateChart_metric :
  (forall (data : list datum) (m0 : string) (cfg : config) (p : Dashboard.page),
      let i := length (Dashboard.platformComparison p) in
      let p' := Dashboard.createPlatformComparison data m0 cfg p in
      Dashboard.controlsP p' =
        Dashboard.controlsP p ++
          [ {| Dashboard.textContent := "Total"; Dashboard.onclick := Dashboard.updateChart i "total" |};
            {| Dashboard.textContent := "Median"; Dashboard.onclick := Dashboard.updateChart i "median" |};
            {| Dashboard.textContent := "Average"; Dashboard.onclick := Dashboard.updateChart i "average" |} ] /\
      forall (random : nat -> Q) (label m : string),
        Dashboard.platformComparison
          (Dashboard.click random
             {| Dashboard.textContent := label; Dashboard.onclick := Dashboard.updateChart i m |} p')
          !! i
        = Some (updateChart m (create cfg data m0 (length (Dashboard.tooltips p))))) /\
  (forall (cfg : config) (l : list datum) (m0 : string) (tip : nat) (history : list string),
      let c := switched cfg l m0 tip history in
      shows "total" total (updateChart "total" c) /\
      shows "average" average (updateChart "average" c) /\
      shows "median" median (updateChart "median" c)) /\
  (let c := updateChart "median" (create default_config spotify_only "total" 0) in
   D3.domain (y c) = (Some 0, Some 5) /\
   y_label c = "Median Streams/Views" /\
   exists e h,
     rects c = [e] /\ DOM.attrs e !! "height" = Some (DOM.VNum h) /\
     h == 320 /\
     h == fst (D3.range (y c)) - snd (D3.range (y c))).
Proof.
  split; [|split].
  - intros l m0 cfg p i p'. split; [reflexivity|].
    intros random label m. subst p' i.
    unfold Dashboard.click, Dashboard.createPlatformComparison.
    cbn [Dashboard.onclick Dashboard.platformComparison Dashboard.with_platformComparison].
    rewrite list_lookup_alter_eq.
    rewrite lookup_app_r by lia. rewrite Nat.sub_diag. reflexivity.
  - intros cfg l m0 tip history c.
    pose proof (switched_rects_length cfg l m0 tip history) as Hlen.
    rewrite <- (switched_data cfg l m0 tip history) in Hlen at 2. fold c in Hlen.
    repeat split; try (apply updateChart_shows; [reflexivity | exact Hlen]);
      apply updateChart_shows; auto using field_total, field_average, field_median.
  - cbv zeta. split; [reflexivity|]. split; [reflexivity|].
    eexists _, _. split; [reflexivity|]. split; [vm_compute; reflexivity|].
    split; vm_compute; reflexivity.
Qed.

End MetricSwitch.

(** * Rounding to binary64 *)

Section Shift.
Import Binary64.
Local Open Scope Z_scope.

Lemma digits2_size (p : positive) : digits2_pos p = Pos.size p.
Proof. induction p; cbn; congruence. Qed.

Lemma Zdigits2_digits (p : positive) : Zpos (digits2_pos p) = digits (Zpos p).
Proof.
  unfold digits, Z.log2. destruct p; cbn [digits2_pos]; rewrite ?digits2_size; lia.
Qed.

Lemma digits_bounds (M : Z) : 0 < M -> 1 <= digits M /\ 2 ^ (digits M - 1) <= M < 2 ^ digits M.
Proof.
  intros H. unfold digits. pose proof (Z.log2_spec M H) as B. pose proof (Z.log2_nonneg M).
  replace (Z.log2 M + 1 - 1) with (Z.log2 M) by lia.
  replace (Z.succ (Z.log2 M)) with (Z.log2 M + 1) in B by lia. lia.
Qed.

Lemma digits_unique (M d : Z) : 1 <= d -> 2 ^ (d - 1) <= M < 2 ^ d -> digits M = d.
Proof.
  intros Hd B. unfold digits. rewrite (Z.log2_unique M (d - 1)); try lia.
  replace (Z.succ (d - 1)) with d by lia. exact B.
Qed.

Lemma pow2_pos (n : Z) : 0 <= n -> 0 < 2 ^ n.
Proof. intros. apply Z.pow_pos_nonneg; lia. Qed.

Lemma shr_1_inv (M k : Z) (r : shr_record) :
  0 <= k -> shr_inv M k r -> shr_inv M (k + 1) (shr_1 r).
Proof.
  intros Hk (Hm & rem & Hrem & HM & Hloc).
  destruct r as [m rb sb]. cbn [shr_m] in *.
  pose proof (pow2_pos k Hk) as HP.
  assert (HP1 : 2 ^ (k + 1) = 2 * 2 ^ k) by (rewrite Z.pow_add_r by lia; lia).
  unfold shr_inv. rewrite HP1. unfold loc_of in *. rewrite HP1.
  set (P := 2 ^ k) in *. clearbody P.
  assert (Hs : orb rb sb = negb (rem =? 0) /\
               (rem <> 0 -> (2 * rem ?= P) = match rb, sb with
                                               | false, _ => Lt
                                               | true, false => Eq
                                               | true, true => Gt
                                               end)).
  { destruct (Z.eqb_spec rem 0); destruct rb, sb; cbn in Hloc |- *; try discriminate Hloc;
      (split; [reflexivity|]); intros; try lia; try congruence. }
  destruct Hs as [Hs _]. clear Hloc.
  destruct m as [|[p|p|]|p]; try lia; cbn [shr_1 shr_m loc_of_shr_record]; rewrite Hs.
  - (* zero *)
    split; [lia|]. exists rem. split; [lia|]. split; [lia|].
    destruct (Z.eqb_spec rem 0) as [->|Hne]; cbn [negb]; [reflexivity|].
    rewrite (proj2 (Z.compare_lt_iff _ _)) by lia. reflexivity.
  - (* odd, at least 3 *)
    rewrite (Pos2Z.inj_xI p) in HM.
    split; [lia|]. exists (rem + P). split; [lia|]. split; [lia|].
    destruct (Z.eqb_spec rem 0) as [->|Hne]; cbn [negb].
    + destruct (Z.eqb_spec (0 + P) 0); [lia|]. rewrite (proj2 (Z.compare_eq_iff _ _)) by lia.
      reflexivity.
    + destruct (Z.eqb_spec (rem + P) 0); [lia|].
      rewrite (proj2 (Z.compare_gt_iff _ _)) by lia. reflexivity.
  - (* even, at least 2 *)
    rewrite (Pos2Z.inj_xO p) in HM.
    split; [lia|]. exists rem. split; [lia|]. split; [lia|].
    destruct (Z.eqb_spec rem 0) as [->|Hne]; cbn [negb]; [reflexivity|].
    rewrite (proj2 (Z.compare_lt_iff _ _)) by lia. reflexivity.
  - (* one *)
    split; [lia|]. exists (rem + P). split; [lia|]. split; [lia|].
    destruct (Z.eqb_spec rem 0) as [->|Hne]; cbn [negb].
    + destruct (Z.eqb_spec (0 + P) 0); [lia|]. rewrite (proj2 (Z.compare_eq_iff _ _)) by lia.
      reflexivity.
    + destruct (Z.eqb_spec (rem + P) 0); [lia|].
      rewrite (proj2 (Z.compare_gt_iff _ _)) by lia. reflexivity.
Qed.

Lemma iter_shr_inv (M : Z) (n : positive) :
  forall (k : Z) (r : shr_record),
    0 <= k -> shr_inv M k r -> shr_inv M (k + Zpos n) (SpecFloat.iter_pos shr_1 n r).
Proof.
  induction n as [n IH|n IH|]; intros k r Hk H; cbn [SpecFloat.iter_pos].
  - replace (k + Zpos n~1) with (k + 1 + Zpos n + Zpos n) by lia.
    apply IH; [lia|]. apply IH; [lia|]. apply shr_1_inv; assumption.
  - replace (k + Zpos n~0) with (k + Zpos n + Zpos n) by lia.
    apply IH; [lia|]. apply IH; assumption.
  - apply shr_1_inv; assumption.
Qed.

Lemma shr_exact (M E : Z) (n : positive) :
  0 <= M ->
  exists r, shr (shr_record_of_loc M loc_Exact) E (Zpos n) = (r, E + Zpos n) /\
            shr_inv M (Zpos n) r.
Proof.
  intros HM. eexists. split; [reflexivity|].
  apply (iter_shr_inv M n 0 (shr_record_of_loc M loc_Exact)); [lia|].
  split; [exact HM|]. exists 0. cbn. split; [lia|]. split; [lia|]. reflexivity.
Qed.

Lemma shr_inv_rne (M n : Z) (r : shr_record) :
  0 <= n -> shr_inv M n r ->
  round_nearest_even (shr_m r) (loc_of_shr_record r) = rne M n.
Proof.
  intros Hn (Hm & rem & Hrem & HM & Hloc). pose proof (pow2_pos n Hn) as HP.
  assert (Hq : M / 2 ^ n = shr_m r).
  { symmetry. apply (Z.div_unique_pos M (2 ^ n) (shr_m r) rem); lia. }
  assert (Hr : M mod 2 ^ n = rem).
  { symmetry. apply (Z.mod_unique_pos M (2 ^ n) (shr_m r) rem); lia. }
  unfold rne. rewrite Hq, Hr, Hloc. unfold loc_of.
  destruct (Z.eqb_spec rem 0) as [->|Hne].
  - cbn [round_nearest_even]. rewrite (proj2 (Z.compare_lt_iff _ _)) by lia. reflexivity.
  - cbn [round_nearest_even]. destruct (2 * rem ?= 2 ^ n); reflexivity.
Qed.

End Shift.

Section Nearest.
Import Binary64.
Local Open Scope Z_scope.

Lemma fexp_target (p : positive) (E : Z) :
  fexp 53 1024 (Zpos (digits2_pos p) + E) = target (Zpos p) E.
Proof. rewrite Zdigits2_digits. reflexivity. Qed.

Lemma rne_0 (M : Z) : rne M 0 = M.
Proof.
  unfold rne. rewrite Z.pow_0_r, Z.div_1_r, Z.mod_1_r. reflexivity.
Qed.

Lemma rne_spec (M n : Z) :
  0 <= M -> 0 <= n ->
  (2 * rne M n - 1) * 2 ^ n <= 2 * M <= (2 * rne M n + 1) * 2 ^ n /\
  (2 * M = (2 * rne M n - 1) * 2 ^ n -> Z.even (rne M n) = true) /\
  (2 * M = (2 * rne M n + 1) * 2 ^ n -> Z.even (rne M n) = true) /\
  M / 2 ^ n <= rne M n <= M / 2 ^ n + 1.
Proof.
  intros HM Hn. pose proof (pow2_pos n Hn) as HP.
  pose proof (Z.div_mod M (2 ^ n) ltac:(lia)) as Hd.
  pose proof (Z.mod_pos_bound M (2 ^ n) HP) as Hr.
  unfold rne. set (P := 2 ^ n) in *. set (q := M / P) in *. set (r := M mod P) in *.
  clearbody P q r.
  destruct (Z.compare_spec (2 * r) P) as [E|E|E].
  - destruct (Z.even q) eqn:Ev.
    + repeat split; try nia. intros _. exact Ev.
    + repeat split; try nia. intros _. rewrite Z.even_add, Ev. reflexivity.
  - repeat split; nia.
  - repeat split; nia.
Qed.

Lemma rne_mono (M1 n1 M2 n2 : Z) :
  0 <= M1 -> 0 <= M2 -> 0 <= n1 -> 0 <= n2 ->
  M1 * 2 ^ n2 <= M2 * 2 ^ n1 -> rne M1 n1 <= rne M2 n2.
Proof.
  intros H1 H2 Hn1 Hn2 Hle.
  destruct (rne_spec M1 n1 H1 Hn1) as ((L1 & _) & T1 & _ & _).
  destruct (rne_spec M2 n2 H2 Hn2) as ((_ & U2) & _ & T2 & _).
  pose proof (pow2_pos n1 Hn1) as HP1. pose proof (pow2_pos n2 Hn2) as HP2.
  set (P1 := 2 ^ n1) in *. set (P2 := 2 ^ n2) in *.
  set (m1 := rne M1 n1) in *. set (m2 := rne M2 n2) in *. clearbody P1 P2 m1 m2.
  destruct (Z_le_gt_dec m1 m2) as [|Hgt]; [assumption|exfalso].
  assert (A : (2 * m1 - 1) * P1 * P2 <= 2 * M1 * P2) by nia.
  assert (B : 2 * M1 * P2 <= 2 * M2 * P1) by nia.
  assert (C : 2 * M2 * P1 <= (2 * m2 + 1) * P2 * P1) by nia.
  assert (D : (2 * m2 + 1) * (P1 * P2) <= (2 * m1 - 1) * (P1 * P2)).
  { apply Z.mul_le_mono_nonneg_r; nia. }
  assert (E1 : 2 * M1 = (2 * m1 - 1) * P1) by nia.
  assert (E2 : 2 * M2 = (2 * m2 + 1) * P2) by nia.
  assert (Em : m1 = m2 + 1).
  { assert (F : (2 * m1 - 1) * (P1 * P2) <= (2 * m2 + 1) * (P1 * P2)) by nia.
    assert (G : 2 * m1 - 1 <= 2 * m2 + 1).
    { apply (Z.mul_le_mono_pos_r _ _ (P1 * P2)); nia. }
    lia. }
  specialize (T1 E1). specialize (T2 E2). subst m1.
  rewrite Z.even_add, T2 in T1. discriminate T1.
Qed.

(** The rounded mantissa has at most 53 bits, or is [2^53]; above the
    least exponent it has 53 bits at least. *)
Lemma rne_target (M E : Z) :
  0 < M -> 0 <= target M E - E ->
  0 <= rne M (target M E - E) <= 2 ^ 53 /\
  (-1074 < target M E -> 2 ^ 52 <= rne M (target M E - E)) /\
  -1074 <= target M E.
Proof.
  intros HM Hn. destruct (digits_bounds M HM) as (Hd & Hlo & Hhi).
  destruct (rne_spec M (target M E - E) ltac:(lia) Hn) as (_ & _ & _ & Hq).
  pose proof (pow2_pos _ Hn) as HP.
  unfold target in *. set (d := digits M) in *. clearbody d.
  set (n := Z.max (d + E - 53) (-1074) - E) in *.
  assert (Hup : M / 2 ^ n < 2 ^ 53).
  { apply Z.div_lt_upper_bound; [exact HP|].
    rewrite <- Z.pow_add_r by lia.
    apply Z.lt_le_trans with (2 ^ d); [exact Hhi|].
    apply Z.pow_le_mono_r; lia. }
  assert (H0 : 0 <= M / 2 ^ n) by (apply Z.div_pos; lia).
  split; [lia|]. split; [|lia].
  intros Hnormal.
  assert (En : n = d - 53) by lia.
  assert (Hlow : 2 ^ 52 <= M / 2 ^ n).
  { apply Z.div_le_lower_bound; [exact HP|].
    rewrite <- Z.pow_add_r by lia. replace (n + 52) with (d - 1) by lia. exact Hlo. }
  lia.
Qed.

Lemma round_pos_bounds (M E : Z) :
  0 < M -> 0 <= target M E - E ->
  0 <= fst (round_pos M E) < 2 ^ 53 /\ -1074 <= snd (round_pos M E) /\
  (2 ^ 52 <= fst (round_pos M E) \/ snd (round_pos M E) = -1074).
Proof.
  intros HM Hn. destruct (rne_target M E HM Hn) as (Hr & Hnormal & He).
  unfold round_pos. destruct (Z.eqb_spec (rne M (target M E - E)) (2 ^ 53)) as [Eq|Ne];
    cbn [fst snd].
  - split; [split; [apply Z.pow_nonneg; lia | apply Z.pow_lt_mono_r; lia]|].
    split; [lia|]. left. lia.
  - split; [lia|]. split; [lia|].
    destruct (Z.eq_dec (target M E) (-1074)) as [->|Hne]; [right; reflexivity|].
    left. apply Hnormal. lia.
Qed.

Lemma val_le_digits (M1 E1 M2 E2 : Z) :
  0 < M1 -> 0 < M2 -> val_le M1 E1 M2 E2 -> digits M1 + E1 <= digits M2 + E2.
Proof.
  intros H1 H2 Hle. unfold val_le in Hle.
  set (a1 := E1 - Z.min E1 E2) in *. set (a2 := E2 - Z.min E1 E2) in *.
  assert (Ha1 : 0 <= a1) by lia. assert (Ha2 : 0 <= a2) by lia.
  pose proof (Z.log2_le_mono _ _ Hle) as Hl.
  rewrite !Z.log2_mul_pow2 in Hl by lia. unfold digits. lia.
Qed.

Lemma target_mono (M1 E1 M2 E2 : Z) :
  0 < M1 -> 0 < M2 -> val_le M1 E1 M2 E2 -> target M1 E1 <= target M2 E2.
Proof.
  intros H1 H2 Hle. pose proof (val_le_digits _ _ _ _ H1 H2 Hle). unfold target. lia.
Qed.

(** Rounding is monotone. *)
Lemma round_pos_mono (M1 E1 M2 E2 : Z) :
  0 < M1 -> 0 < M2 -> 0 <= target M1 E1 - E1 -> 0 <= target M2 E2 - E2 ->
  val_le M1 E1 M2 E2 -> res_le (round_pos M1 E1) (round_pos M2 E2).
Proof.
  intros H1 H2 Hn1 Hn2 Hle.
  pose proof (target_mono _ _ _ _ H1 H2 Hle) as Ht.
  destruct (rne_target M1 E1 H1 Hn1) as (Hr1 & _ & He1).
  destruct (rne_target M2 E2 H2 Hn2) as (Hr2 & Hnormal2 & He2).
  assert (P52 : 0 < 2 ^ 52) by (apply pow2_pos; lia).
  assert (P53 : 2 ^ 52 < 2 ^ 53) by (apply Z.pow_lt_mono_r; lia).
  unfold res_le, round_pos.
  set (e1 := target M1 E1) in *. set (e2 := target M2 E2) in *.
  set (m1 := rne M1 (e1 - E1)) in *. set (m2 := rne M2 (e2 - E2)) in *.
  destruct (Z.eq_dec m1 0) as [Z1|NZ1].
  { left. destruct (Z.eqb_spec m1 (2 ^ 53)); cbn [fst]; lia. }
  right.
  destruct (Z.eq_dec e1 e2) as [Ee|Ne].
  - assert (Hm : m1 <= m2).
    { subst m1 m2. rewrite <- Ee. apply rne_mono; try lia.
      unfold val_le in Hle.
      set (c := e1 - Z.max E1 E2).
      replace (e1 - E2) with (E1 - Z.min E1 E2 + c) by lia.
      replace (e1 - E1) with (E2 - Z.min E1 E2 + c) by lia.
      rewrite !Z.pow_add_r by lia. rewrite !Z.mul_assoc.
      apply Z.mul_le_mono_nonneg_r; [apply Z.pow_nonneg; lia | exact Hle]. }
    destruct (Z.eqb_spec m1 (2 ^ 53)), (Z.eqb_spec m2 (2 ^ 53)); cbn [fst snd]; lia.
  - assert (Hlow : 2 ^ 52 <= m2) by (apply Hnormal2; lia).
    destruct (Z.eqb_spec m1 (2 ^ 53)), (Z.eqb_spec m2 (2 ^ 53)); cbn [fst snd]; lia.
Qed.

End Nearest.

Section Round.
Import Binary64.
Local Open Scope Z_scope.

Lemma shr_back (r : shr_record) (e n : Z) : n <= 0 -> shr r e n = (r, e).
Proof. intros H. destruct n; [reflexivity | lia | reflexivity]. Qed.

(** The second shift of [binary_round_aux]: a mantissa of 53 bits at most
    stays, [2^53] becomes [2^52] one exponent up. *)
Lemma renormalize (m e : Z) :
  0 <= m <= 2 ^ 53 -> -1074 <= e ->
  let '(r, e') := shr_fexp 53 1024 m e loc_Exact in
  (shr_m r, e') = if m =? 2 ^ 53 then (2 ^ 52, e + 1) else (m, e).
Proof.
  intros Hm He. unfold shr_fexp.
  destruct (Z.eqb_spec m (2 ^ 53)) as [->|Hne].
  - change (fexp 53 1024 (Zdigits2 (2 ^ 53) + e)) with (Z.max (54 + e - 53) (-1074)).
    replace (Z.max (54 + e - 53) (-1074) - e) with 1 by lia.
    cbn [shr shr_record_of_loc SpecFloat.iter_pos]. reflexivity.
  - assert (Hd : Zdigits2 m <= 53).
    { destruct m as [|p|p]; [cbn; lia| |lia].
      cbn [Zdigits2]. rewrite Zdigits2_digits.
      destruct (digits_bounds (Zpos p) ltac:(lia)) as (_ & Hlo & _).
      destruct (Z_le_gt_dec (digits (Zpos p)) 53) as [|Hgt]; [assumption|exfalso].
      assert (2 ^ 53 <= 2 ^ (digits (Zpos p) - 1)) by (apply Z.pow_le_mono_r; lia).
      lia. }
    change (fexp 53 1024 (Zdigits2 m + e)) with (Z.max (Zdigits2 m + e - 53) (-1074)).
    rewrite shr_back by lia. reflexivity.
Qed.

(** [binary_round_aux] on an exact positive value whose exponent is not
    above the one it rounds to. *)
Lemma binary_round_aux_pos (s : bool) (p : positive) (E : Z) :
  0 <= target (Zpos p) E - E ->
  binary_round_aux 53 1024 s (Zpos p) E loc_Exact = pack s (round_pos (Zpos p) E).
Proof.
  intros Hn. destruct (rne_target (Zpos p) E ltac:(lia) Hn) as (Hr & _ & He).
  unfold binary_round_aux. unfold shr_fexp at 1. cbn [Zdigits2]. rewrite fexp_target.
  set (e' := target (Zpos p) E) in *.
  assert (Hfirst : exists r, shr (shr_record_of_loc (Zpos p) loc_Exact) E (e' - E) = (r, e') /\
                             round_nearest_even (shr_m r) (loc_of_shr_record r)
                             = rne (Zpos p) (e' - E)).
  { destruct (e' - E) as [|n|n] eqn:En; [| |lia].
    - exists (shr_record_of_loc (Zpos p) loc_Exact). split.
      + cbn [shr]. f_equal. lia.
      + rewrite rne_0. reflexivity.
    - destruct (shr_exact (Zpos p) E n ltac:(lia)) as (r & Hr1 & Hr2).
      exists r. split; [rewrite Hr1; f_equal; lia|].
      apply shr_inv_rne; [lia | exact Hr2]. }
  destruct Hfirst as (r & -> & ->).
  pose proof (renormalize (rne (Zpos p) (e' - E)) e' Hr He) as Hsecond.
  destruct (shr_fexp 53 1024 (rne (Zpos p) (e' - E)) e' loc_Exact) as [r2 e2].
  unfold pack, round_pos. fold e'.
  destruct (rne (Zpos p) (e' - E) =? 2 ^ 53); injection Hsecond as -> ->; reflexivity.
Qed.

(** The order of the results, read on the numbers. *)
Lemma pack_le (r1 r2 : Z * Z) :
  0 <= fst r2 -> res_le r1 r2 -> SFleb (pack false r1) (pack false r2) = true.
Proof.
  destruct r1 as [m1 e1], r2 as [m2 e2]. unfold res_le, pack. cbn [fst snd].
  intros H2 [->|(H1 & H2' & Ho)].
  - destruct m2 as [|p2|p2]; [reflexivity| |lia].
    destruct (e2 <=? 971); reflexivity.
  - destruct m1 as [|p1|p1]; try lia. destruct m2 as [|p2|p2]; try lia.
    destruct (Z.leb_spec e1 971), (Z.leb_spec e2 971); try reflexivity; try lia.
    unfold SFleb, SFcompare. destruct Ho as [Hlt|[-> Hle]].
    + rewrite (proj2 (Z.compare_lt_iff _ _)) by lia. reflexivity.
    + rewrite Z.compare_refl. change (Pos.compare_cont Eq p1 p2) with (Pos.compare p1 p2).
      destruct (Pos.compare_spec p1 p2); try reflexivity. lia.
Qed.

(** The order of two results of rounding, read on their values. *)
Lemma res_le_val (m1 e1 m2 e2 : Z) :
  0 <= m1 < 2 ^ 53 -> -1074 <= e1 -> 0 <= m2 -> (2 ^ 52 <= m2 \/ e2 = -1074) ->
  res_le (m1, e1) (m2, e2) -> val_le m1 e1 m2 e2.
Proof.
  unfold res_le, val_le. cbn [fst snd]. intros H1 He1 H2 Hc [->|(Hp1 & Hp2 & Ho)].
  - rewrite Z.mul_0_l. apply Z.mul_nonneg_nonneg; [lia|]. apply Z.pow_nonneg. lia.
  - destruct Ho as [Hlt|[-> Hle]].
    + rewrite Z.min_l by lia. rewrite Z.sub_diag, Z.pow_0_r, Z.mul_1_r.
      assert (Hm2 : 2 ^ 52 <= m2) by lia.
      assert (Hpow : 2 <= 2 ^ (e2 - e1)).
      { change 2 with (2 ^ 1) at 1. apply Z.pow_le_mono_r; lia. }
      assert (2 ^ 53 = 2 ^ 52 * 2) by reflexivity.
      nia.
    + rewrite Z.min_id, Z.sub_diag, Z.pow_0_r. lia.
Qed.

(** ** [binary_round] *)

Lemma shift_pos_pow (m d : positive) : Zpos (Pos.iter xO m d) = Zpos m * 2 ^ Zpos d.
Proof.
  change (Pos.iter xO m d) with (shift_pos d m).
  rewrite shift_pos_correct, Zpower_pos_nat, Zpower_nat_Z, positive_nat_Z. lia.
Qed.

Lemma shl_align_val (m : positive) (e e' : Z) :
  let '(m', e'') := shl_align m e e' in
  e'' = Z.min e e' /\ Zpos m' = Zpos m * 2 ^ (e - Z.min e e').
Proof.
  unfold shl_align. destruct (e' - e) as [|d|d] eqn:Ed.
  - rewrite Z.min_l by lia. rewrite Z.sub_diag, Z.pow_0_r. lia.
  - rewrite Z.min_l by lia. rewrite Z.sub_diag, Z.pow_0_r. lia.
  - rewrite Z.min_r by lia. split; [reflexivity|].
    rewrite shift_pos_pow. f_equal. f_equal. lia.
Qed.

Lemma target_shift (M E j : Z) : 0 < M -> 0 <= j -> target (M * 2 ^ j) (E - j) = target M E.
Proof.
  intros HM Hj. unfold target, digits. rewrite Z.log2_mul_pow2 by lia. lia.
Qed.

Lemma target_aligned (M E : Z) :
  0 < M -> target M E <= E -> target (M * 2 ^ (E - target M E)) (target M E) = target M E.
Proof.
  intros HM Hlt. pose proof (target_shift M E (E - target M E) HM ltac:(lia)) as H.
  replace (E - (E - target M E)) with (target M E) in H by lia. exact H.
Qed.

Lemma binary_round_pos (s : bool) (p : positive) (E : Z) :
  binary_round 53 1024 s p E = pack s (round_norm (Zpos p) E).
Proof.
  unfold binary_round. rewrite fexp_target.
  pose proof (shl_align_val p E (target (Zpos p) E)) as Ha.
  destruct (shl_align p E (target (Zpos p) E)) as [mz ez]. destruct Ha as [-> Hm].
  unfold round_norm. destruct (Z.ltb_spec (target (Zpos p) E) E) as [Hlt|Hge].
  - rewrite Z.min_r in * by lia. rewrite <- Hm.
    apply binary_round_aux_pos. rewrite Hm.
    rewrite target_aligned by lia. lia.
  - rewrite Z.min_l in * by lia. rewrite Z.sub_diag, Z.pow_0_r, Z.mul_1_r in Hm.
    injection Hm as ->. apply binary_round_aux_pos. lia.
Qed.

Lemma val_le_refl_shift (M E j : Z) :
  0 < M -> 0 <= j -> val_le (M * 2 ^ j) (E - j) M E /\ val_le M E (M * 2 ^ j) (E - j).
Proof.
  intros HM Hj. unfold val_le. rewrite Z.min_l, Z.min_r by lia.
  rewrite !Z.sub_diag, Z.pow_0_r. replace (E - (E - j)) with j by lia. lia.
Qed.

Lemma val_le_trans (M1 E1 M2 E2 M3 E3 : Z) :
  0 <= M1 -> 0 <= M2 -> 0 <= M3 ->
  val_le M1 E1 M2 E2 -> val_le M2 E2 M3 E3 -> val_le M1 E1 M3 E3.
Proof.
  unfold val_le. intros H1 H2 H3 A B.
  set (m := Z.min E1 (Z.min E2 E3)).
  assert (A' : M1 * 2 ^ (E1 - m) <= M2 * 2 ^ (E2 - m)).
  { replace (E1 - m) with (E1 - Z.min E1 E2 + (Z.min E1 E2 - m)) by lia.
    replace (E2 - m) with (E2 - Z.min E1 E2 + (Z.min E1 E2 - m)) by lia.
    rewrite !Z.pow_add_r by lia. rewrite !Z.mul_assoc.
    apply Z.mul_le_mono_nonneg_r; [apply Z.pow_nonneg; lia | exact A]. }
  assert (B' : M2 * 2 ^ (E2 - m) <= M3 * 2 ^ (E3 - m)).
  { replace (E2 - m) with (E2 - Z.min E2 E3 + (Z.min E2 E3 - m)) by lia.
    replace (E3 - m) with (E3 - Z.min E2 E3 + (Z.min E2 E3 - m)) by lia.
    rewrite !Z.pow_add_r by lia. rewrite !Z.mul_assoc.
    apply Z.mul_le_mono_nonneg_r; [apply Z.pow_nonneg; lia | exact B]. }
  assert (C : M1 * 2 ^ (E1 - m) <= M3 * 2 ^ (E3 - m)) by lia.
  replace (E1 - m) with (E1 - Z.min E1 E3 + (Z.min E1 E3 - m)) in C by lia.
  replace (E3 - m) with (E3 - Z.min E1 E3 + (Z.min E1 E3 - m)) in C by lia.
  rewrite !Z.pow_add_r in C by lia. rewrite !Z.mul_assoc in C.
  apply Z.mul_le_mono_pos_r in C; [exact C | apply pow2_pos; lia].
Qed.

(** What [round_norm] rounds: the value, on an exponent that is not above
    the one it rounds to. *)
Lemma round_norm_aligned (M E : Z) :
  0 < M ->
  exists M' E', round_norm M E = round_pos M' E' /\ 0 < M' /\ 0 <= target M' E' - E' /\
                val_le M E M' E' /\ val_le M' E' M E.
Proof.
  intros HM. unfold round_norm. destruct (Z.ltb_spec (target M E) E) as [Hlt|Hge].
  - exists (M * 2 ^ (E - target M E)), (target M E).
    pose proof (pow2_pos (E - target M E) ltac:(lia)).
    split; [reflexivity|]. split; [nia|].
    rewrite target_aligned by lia. split; [lia|].
    destruct (val_le_refl_shift M E (E - target M E) HM ltac:(lia)) as [A B].
    replace (E - (E - target M E)) with (target M E) in A, B by lia. split; assumption.
  - exists M, E. split; [reflexivity|]. split; [exact HM|]. split; [lia|].
    unfold val_le. rewrite Z.min_id. split; lia.
Qed.

Lemma round_norm_mono (M1 E1 M2 E2 : Z) :
  0 < M1 -> 0 < M2 -> val_le M1 E1 M2 E2 -> res_le (round_norm M1 E1) (round_norm M2 E2).
Proof.
  intros H1 H2 Hle.
  destruct (round_norm_aligned M1 E1 H1) as (M1' & E1' & -> & H1' & Hn1 & _ & B1).
  destruct (round_norm_aligned M2 E2 H2) as (M2' & E2' & -> & H2' & Hn2 & A2 & _).
  apply round_pos_mono; try assumption.
  apply (val_le_trans _ _ M1 E1); try lia; [exact B1|].
  apply (val_le_trans _ _ M2 E2); try lia; assumption.
Qed.

Lemma round_norm_bounds (M E : Z) :
  0 < M ->
  0 <= fst (round_norm M E) < 2 ^ 53 /\ -1074 <= snd (round_norm M E) /\
  (2 ^ 52 <= fst (round_norm M E) \/ snd (round_norm M E) = -1074).
Proof.
  intros HM. destruct (round_norm_aligned M E HM) as (M' & E' & -> & H' & Hn & _).
  apply round_pos_bounds; assumption.
Qed.

End Round.

(** * Transitions of attributes *)

Section TransitionAttr.
Import DOM HoverSpec.
Local Open Scope Q_scope.

Lemma transition_attr_styles (name : string) (v : value) (e : element) :
  styles (transition_attr name v e) = styles e /\ html (transition_attr name v e) = html e.
Proof.
  unfold transition_attr. destruct v as [b| |s|q]; try (split; reflexivity).
  - destruct (attrs e !! name) as [[]|]; split; reflexivity.
  - destruct (attrs e !! name) as [[| |s0|]|]; try (split; reflexivity).
    destruct (String.eqb s0 s); split; reflexivity.
Qed.

Lemma transition_attr_other (name name' : string) (v : value) (e : element) :
  name' <> name -> attrs (transition_attr name v e) !! name' = attrs e !! name'.
Proof.
  intros Hn. unfold transition_attr. destruct v as [b| |s|q]; cbn [attr attrs].
  - destruct (attrs e !! name) as [[]|]; cbn [attr attrs];
      rewrite lookup_insert_ne by congruence; reflexivity.
  - rewrite lookup_insert_ne by congruence. reflexivity.
  - destruct (attrs e !! name) as [[| |s0|]|]; cbn [attr attrs];
      try (rewrite lookup_insert_ne by congruence; reflexivity).
    destruct (String.eqb s0 s); cbn [attr attrs]; [reflexivity|].
    rewrite lookup_insert_ne by congruence. reflexivity.
  - rewrite lookup_insert_ne by congruence. reflexivity.
Qed.

(** A transition to a number ends in the number where the attribute held a
    number or was missing. *)
Lemma transition_attr_number (name : string) (b : Q) (e : element) :
  numeric (attrs e !! name) ->
  attrs (transition_attr name (VNum b) e) !! name = Some (VNum b).
Proof.
  unfold transition_attr, numeric.
  destruct (attrs e !! name) as [[]|]; intros H; try contradiction;
    cbn [attr attrs]; apply lookup_insert_eq.
Qed.

(** A transition to a colour ends in text that names the colour. *)
Lemma transition_attr_paints (name s : string) (c : Z * Z * Z) (e : element) :
  D3.color s = Some c -> D3.color (D3.formatRgb c) = Some c ->
  paint (attrs (transition_attr name (VStr s) e) !! name) = Some c.
Proof.
  intros Hc Hf. unfold transition_attr. rewrite Hc.
  destruct (attrs e !! name) as [[| |s0|]|] eqn:E; cbn [attr attrs];
    try (rewrite lookup_insert_eq; exact Hf).
  destruct (String.eqb s0 s) eqn:Es; cbn [attr attrs].
  - apply String.eqb_eq in Es. subst s0. rewrite E. exact Hc.
  - rewrite lookup_insert_eq. exact Hf.
Qed.

Lemma color_green : D3.color "#1DB954" = Some green /\ D3.color (D3.formatRgb green) = Some green.
Proof. split; reflexivity. Qed.

Lemma color_dark : D3.color "#191414" = Some dark /\ D3.color (D3.formatRgb dark) = Some dark.
Proof. split; reflexivity. Qed.

Lemma color_platform (name colour : string) :
  Platform.platformColors name = Some colour ->
  exists c, D3.color colour = Some c /\ D3.color (D3.formatRgb c) = Some c.
Proof.
  unfold Platform.platformColors. repeat case_bool_decide; intros E; inversion E; subst;
    eexists; split; reflexivity.
Qed.

End TransitionAttr.

(** * The jitter update of the scatter plot *)

Section Factor.
Import Binary64 JSNumber Jitter JitterSpec.
Local Open Scope Z_scope.

Lemma valid_bounds (s : bool) (m : positive) (e : Z) :
  valid (S754_finite s m e) ->
  Zpos m < 2 ^ 53 /\ -1074 <= e <= 971 /\ (2 ^ 52 <= Zpos m \/ e = -1074).
Proof.
  unfold valid, valid_binary, bounded, canonical_mantissa, prec, emax. intros H.
  apply andb_true_iff in H as [Hc He]. apply Z.eqb_eq in Hc. apply Z.leb_le in He.
  rewrite fexp_target in Hc. unfold target in Hc.
  destruct (digits_bounds (Zpos m) ltac:(lia)) as (Hd & Hlo & Hhi).
  set (d := digits (Zpos m)) in *. clearbody d.
  assert (d <= 53) by lia.
  split.
  { apply Z.lt_le_trans with (2 ^ d); [exact Hhi|]. apply Z.pow_le_mono_r; lia. }
  split; [change (1024 - 53) with 971 in He; lia|].
  destruct (Z.eq_dec e (-1074)) as [|Hne]; [right; assumption|left].
  assert (d = 53) by lia. subst d. exact Hlo.
Qed.

Lemma bounds_valid (s : bool) (m : positive) (e : Z) :
  Zpos m < 2 ^ 53 -> -1074 <= e <= 971 -> (2 ^ 52 <= Zpos m \/ e = -1074) ->
  valid (S754_finite s m e).
Proof.
  intros Hm He Hc. unfold valid, valid_binary, bounded, canonical_mantissa, prec, emax.
  apply andb_true_iff. split; [|apply Z.leb_le; change (1024 - 53) with 971; lia].
  apply Z.eqb_eq. rewrite fexp_target. unfold target.
  destruct (digits_bounds (Zpos m) ltac:(lia)) as (Hd & Hlo & Hhi).
  set (d := digits (Zpos m)) in *. clearbody d.
  assert (d <= 53).
  { destruct (Z_le_gt_dec d 53) as [|Hgt]; [assumption|exfalso].
    assert (2 ^ 53 <= 2 ^ (d - 1)) by (apply Z.pow_le_mono_r; lia). lia. }
  destruct Hc as [Hc| ->]; [|lia].
  assert (53 <= d).
  { destruct (Z_le_gt_dec 53 d) as [|Hgt]; [assumption|exfalso].
    assert (2 ^ d <= 2 ^ 52) by (apply Z.pow_le_mono_r; lia). lia. }
  lia.
Qed.

(** A result of rounding, packed, is a valid number. *)
Lemma pack_valid (s : bool) (r : Z * Z) :
  0 <= fst r < 2 ^ 53 -> -1074 <= snd r -> (2 ^ 52 <= fst r \/ snd r = -1074) ->
  valid (pack s r).
Proof.
  destruct r as [m e]. cbn [fst snd]. intros Hm He Hc. unfold pack. cbn [fst snd].
  destruct m as [|p|p]; [reflexivity| |lia].
  destruct (Z.leb_spec e 971); [|reflexivity]. apply bounds_valid; lia.
Qed.

(** The product of two valid finite numbers. *)
Lemma mul_finite (s1 s2 : bool) (m1 m2 : positive) (e1 e2 : Z) :
  2 ^ 52 <= Zpos m2 ->
  mul (S754_finite s1 m1 e1) (S754_finite s2 m2 e2)
  = pack (xorb s1 s2) (round_pos (Zpos m1 * Zpos m2) (e1 + e2)) /\
  0 <= target (Zpos m1 * Zpos m2) (e1 + e2) - (e1 + e2).
Proof.
  intros H2.
  assert (Hn : 0 <= target (Zpos m1 * Zpos m2) (e1 + e2) - (e1 + e2)).
  { unfold target, digits.
    assert (52 <= Z.log2 (Zpos m1 * Zpos m2)).
    { change 52 with (Z.log2 (2 ^ 52)). apply Z.log2_le_mono. nia. }
    lia. }
  split; [|exact Hn].
  unfold mul, SFmul, prec, emax. change (Zpos m1 * Zpos m2) with (Zpos (m1 * m2)) in *.
  apply binary_round_aux_pos. exact Hn.
Qed.

(** What [Math.random() * 0.1] is: zero, or a positive number that is at
    most [0.1]. *)
Lemma mul_c01 (r : number) :
  draw r ->
  (exists s, mul r c01 = S754_zero s) \/
  (exists m e, mul r c01 = S754_finite false m e /\ Zpos m < 2 ^ 53 /\ -1074 <= e <= -56 /\
               val_le (Zpos m) e 7205759403792794 (-56)).
Proof.
  intros (Hv & H0 & H1). destruct r as [s|s| |s m e]; try discriminate H1.
  { left. exists (xorb s false). reflexivity. }
  { destruct s; [discriminate H0 | discriminate H1]. }
  destruct s; [discriminate H0|].
  destruct (valid_bounds _ _ _ Hv) as (Hm & He & Hc).
  destruct (mul_finite false false m 7205759403792794 e (-56) ltac:(lia)) as [Emul Hn].
  unfold c01. rewrite Emul. cbn [xorb].
  set (M := Zpos m * 7205759403792794) in *.
  assert (HM : 0 < M) by (unfold M; lia).
  destruct (round_pos_bounds M (e + -56) HM Hn) as (Hb1 & Hb2 & Hb3).
  assert (Hone : e < -52 \/ (e = -52 /\ Zpos m < 2 ^ 52)).
  { unfold lt, SFltb, SFcompare, one in H1.
    destruct (Z.compare_spec e (-52)) as [->|Hlt|Hgt]; [right|left; exact Hlt|discriminate H1].
    split; [reflexivity|].
    assert (Hlt : (m ?= 4503599627370496)%positive = Lt).
    { unfold Pos.compare. destruct (Pos.compare_cont Datatypes.Eq m 4503599627370496);
        [discriminate H1 | reflexivity | discriminate H1]. }
    exact Hlt. }
  assert (Hle : val_le M (e + -56) (4503599627370496 * 7205759403792794) (-108)).
  { unfold val_le, M. destruct Hone as [Hlt|[-> Hlt]].
    - rewrite Z.min_l by lia. rewrite Z.sub_diag, Z.pow_0_r.
      assert (2 <= 2 ^ (-108 - (e + -56))).
      { change 2 with (2 ^ 1) at 1. apply Z.pow_le_mono_r; lia. }
      change (2 ^ 53) with 9007199254740992 in Hm. nia.
    - rewrite Z.min_id, Z.sub_diag, Z.pow_0_r.
      change (2 ^ 52) with 4503599627370496 in Hlt. nia. }
  pose proof (round_pos_mono M (e + -56) (4503599627370496 * 7205759403792794) (-108)
                HM ltac:(lia) Hn ltac:(vm_compute; discriminate) Hle) as Hres.
  change (round_pos (4503599627370496 * 7205759403792794) (-108))
    with (7205759403792794, -56) in Hres.
  destruct (round_pos M (e + -56)) as [mp ep] eqn:Erp. cbn [fst snd] in *.
  unfold pack. cbn [fst snd].
  destruct mp as [|p|p]; [left; exists false; reflexivity| |lia].
  right.
  assert (Hep : ep <= -56).
  { destruct Hres as [Hres|(_ & _ & [?|[? _]])]; cbn [fst snd] in *; lia. }
  destruct (Z.leb_spec ep 971); [|lia].
  exists p, ep. split; [reflexivity|]. split; [lia|]. split; [lia|].
  apply res_le_val; try lia. exact Hres.
Qed.

(** The factor of one jitter step lies between the numbers [0.95] and
    [1.05], ends included, and is a valid positive number. *)
Lemma factor_bounds (r : number) :
  draw r ->
  exists m e,
    factor r = S754_finite false m e /\ valid (factor r) /\
    ge (factor r) c095 = true /\ ge c105 (factor r) = true /\
    2 ^ 52 <= Zpos m < 2 ^ 53 /\
    ((e = -52 /\ Zpos m <= 4728779608739021) \/ (e = -53 /\ 8556839292003942 <= Zpos m)).
Proof.
  intros Hr. unfold factor.
  destruct (mul_c01 r Hr) as [[s ->]|(mp & ep & -> & Hmp & Hep & Hle)].
  { exists 8556839292003942%positive, (-53). cbn. repeat split; try reflexivity; try lia. }
  assert (Hep' : ep <= -56) by lia.
  unfold add, SFadd, c095, prec, emax. rewrite (Z.min_r (-53) ep) by lia. cbn [cond_Zopp].
  pose proof (shl_align_val 8556839292003942 (-53) ep) as Ha.
  destruct (shl_align 8556839292003942 (-53) ep) as [ma ea]. destruct Ha as [_ Ha].
  pose proof (shl_align_val mp ep ep) as Hb.
  destruct (shl_align mp ep ep) as [mb eb]. destruct Hb as [_ Hb].
  rewrite Z.min_r in Ha by lia. rewrite Z.min_id, Z.sub_diag, Z.pow_0_r, Z.mul_1_r in Hb.
  cbn [fst]. change (Zpos ma + Zpos mb) with (Zpos (ma + mb)).
  cbn [binary_normalize]. rewrite binary_round_pos.
  set (M := Zpos (ma + mb)).
  assert (EM : M = 8556839292003942 * 2 ^ (-53 - ep) + Zpos mp) .
  { unfold M. rewrite Pos2Z.inj_add, Ha, Hb. reflexivity. }
  assert (HM : 0 < M) by (unfold M; apply Pos2Z.is_pos).
  pose proof (pow2_pos (-53 - ep) ltac:(lia)) as HP.
  assert (Hlow : val_le 8556839292003942 (-53) M ep).
  { unfold val_le. rewrite Z.min_r by lia. rewrite Z.sub_diag, Z.pow_0_r. lia. }
  assert (Hup : val_le M ep (8 * 8556839292003942 + 7205759403792794) (-56)).
  { unfold val_le in *. rewrite Z.min_l in * by lia.
    rewrite Z.sub_diag, Z.pow_0_r in *. rewrite EM.
    replace (-53 - ep) with (3 + (-56 - ep)) by lia. rewrite Z.pow_add_r by lia.
    change (2 ^ 3) with 8. nia. }
  pose proof (round_norm_mono 8556839292003942 (-53) M ep ltac:(lia) HM Hlow) as R1.
  pose proof (round_norm_mono M ep (8 * 8556839292003942 + 7205759403792794) (-56)
                HM ltac:(lia) Hup) as R2.
  change (round_norm 8556839292003942 (-53)) with (8556839292003942, -53) in R1.
  change (round_norm (8 * 8556839292003942 + 7205759403792794) (-56))
    with (4728779608739021, -52) in R2.
  destruct (round_norm_bounds M ep HM) as (B1 & B2 & B3).
  pose proof (pack_le _ _ (proj1 B1) R1) as L1.
  pose proof (pack_le (round_norm M ep) (4728779608739021, -52) ltac:(cbn; lia) R2) as L2.
  pose proof (pack_valid false _ B1 B2 B3) as V.
  change (pack false (8556839292003942, -53)) with c095 in L1.
  change (pack false (4728779608739021, -52)) with c105 in L2.
  destruct (round_norm M ep) as [mf ef] eqn:Ef. cbn [fst snd] in *.
  unfold res_le in R1, R2. cbn [fst snd] in R1, R2.
  destruct R1 as [R1|(_ & Hpos & R1)]; [lia|].
  destruct R2 as [R2|(_ & _ & R2)]; [lia|].
  destruct mf as [|pf|pf]; try lia.
  assert (Hef : (ef = -52 /\ Zpos pf <= 4728779608739021) \/
                (ef = -53 /\ 8556839292003942 <= Zpos pf)) by lia.
  assert (Hfin : pack false (Zpos pf, ef) = S754_finite false pf ef).
  { unfold pack. cbn [fst snd]. destruct (Z.leb_spec ef 971); [reflexivity|lia]. }
  rewrite Hfin in *. exists pf, ef.
  split; [reflexivity|]. split; [exact V|]. split; [exact L1|]. split; [exact L2|].
  split; [|exact Hef]. lia.
Qed.

End Factor.

Section Product.
Import Binary64 JSNumber Jitter JitterSpec.
Local Open Scope Z_scope.

(** Above half the spacing of the numbers, rounding does not give zero. *)
Lemma rne_positive (M n : Z) : 0 <= M -> 0 <= n -> 2 ^ n < 2 * M -> 1 <= rne M n.
Proof.
  intros HM Hn Hlt. destruct (rne_spec M n HM Hn) as ((_ & Hup) & _ & _ & Hq).
  pose proof (pow2_pos n Hn) as HP.
  assert (0 <= M / 2 ^ n) by (apply Z.div_pos; lia).
  destruct (Z_le_gt_dec 1 (rne M n)) as [|Hgt]; [assumption|exfalso].
  assert (E : rne M n = 0) by lia. rewrite E in Hup. lia.
Qed.

(** A number times a factor of the jitter: a valid number of the same
    sign, zero only for zero. *)
Lemma mul_factor (x : number) (mf : positive) (ef : Z) :
  valid x -> 2 ^ 52 <= Zpos mf < 2 ^ 53 ->
  (ef = -52 \/ (ef = -53 /\ 8556839292003942 <= Zpos mf)) ->
  valid (mul x (S754_finite false mf ef)) /\
  match x with
  | S754_nan => mul x (S754_finite false mf ef) = S754_nan
  | S754_zero s => mul x (S754_finite false mf ef) = S754_zero s
  | S754_infinity s => mul x (S754_finite false mf ef) = S754_infinity s
  | S754_finite s _ _ =>
      (exists m e, mul x (S754_finite false mf ef) = S754_finite s m e) \/
      mul x (S754_finite false mf ef) = S754_infinity s
  end.
Proof.
  intros Hv Hmf Hef. destruct x as [s|s| |s mx ex].
  - cbn. rewrite xorb_false_r. split; reflexivity.
  - cbn. rewrite xorb_false_r. split; reflexivity.
  - split; reflexivity.
  - destruct (valid_bounds _ _ _ Hv) as (Hmx & Hex & Hcx).
    destruct (mul_finite s false mx mf ex ef ltac:(lia)) as [Emul Hn].
    rewrite Emul, xorb_false_r.
    set (M := Zpos mx * Zpos mf) in *.
    assert (HM : 0 < M) by (unfold M; lia).
    destruct (round_pos_bounds M (ex + ef) HM Hn) as (B1 & B2 & B3).
    split; [apply pack_valid; assumption|].
    assert (Hpos : 0 < fst (round_pos M (ex + ef))).
    { unfold round_pos.
      destruct (Z.eqb_spec (rne M (target M (ex + ef) - (ex + ef))) (2 ^ 53)); cbn [fst].
      - apply pow2_pos. lia.
      - assert (1 <= rne M (target M (ex + ef) - (ex + ef))); [|lia].
        apply rne_positive; [lia | exact Hn |].
        destruct (digits_bounds M HM) as (Hd & Hlo & _).
        unfold target in *. set (d := digits M) in *. clearbody d.
        destruct (Z_le_gt_dec (-1074) (d + (ex + ef) - 53)) as [Hnormal|Hsub].
        + rewrite Z.max_l by lia. replace (d + (ex + ef) - 53 - (ex + ef)) with (d - 53) by lia.
          assert (2 ^ (d - 53) < 2 ^ (d - 1)).
          { apply Z.pow_lt_mono_r; lia. }
          lia.
        + rewrite Z.max_r in * by lia.
          assert (Hm1 : 1 <= Zpos mx) by lia.
          change (2 ^ 53) with 9007199254740992 in *.
          change (2 ^ 52) with 4503599627370496 in *.
          destruct Hef as [->|[-> Hm95]].
          * assert (2 ^ (-1074 - (ex + -52)) <= 2 ^ 52) by (apply Z.pow_le_mono_r; lia).
            change (2 ^ 52) with 4503599627370496 in *. unfold M. nia.
          * assert (2 ^ (-1074 - (ex + -53)) <= 2 ^ 53) by (apply Z.pow_le_mono_r; lia).
            change (2 ^ 53) with 9007199254740992 in *. unfold M. nia. }
    destruct (round_pos M (ex + ef)) as [m e]. cbn [fst snd] in *. unfold pack. cbn [fst snd].
    destruct m as [|p|p]; try lia.
    destruct (e <=? 971); [left; eauto | right; reflexivity].
Qed.

End Product.

Section JitterUpdate.
Import JSNumber Jitter JitterSpec.

Lemma factor_near_one (r : number) : draw r -> near_one (factor r).
Proof.
  intros Hr. destruct (factor_bounds r Hr) as (m & e & E & Hv & Hlo & Hhi & Hm & He).
  split; [exact Hv|]. split; [exact Hlo|]. split; [exact Hhi|].
  rewrite E. cbn [to_Q cond_Zopp].
  change (2 ^ 52)%Z with 4503599627370496%Z in Hm.
  change (2 ^ 53)%Z with 9007199254740992%Z in Hm.
  destruct He as [[-> Hup]| [-> Hdown]].
  - change (2 ^ (-52))%Q with (1 # 4503599627370496)%Q.
    unfold Qle. cbn [Qnum Qden Qplus Qminus Qopp Qmult inject_Z]. split; lia.
  - change (2 ^ (-53))%Q with (1 # 9007199254740992)%Q.
    unfold Qle. cbn [Qnum Qden Qplus Qminus Qopp Qmult inject_Z]. split; lia.
Qed.

(** A valid number times a factor of the jitter. *)
Lemma mul_near_one (v r : number) :
  valid v -> draw r ->
  valid (mul v (factor r)) /\ same_sign v (mul v (factor r)) /\
  (ge v zero = true -> ge (mul v (factor r)) zero = true).
Proof.
  intros Hv Hr. destruct (factor_bounds r Hr) as (m & e & -> & _ & _ & _ & Hm & He).
  destruct (mul_factor v m e Hv Hm ltac:(lia)) as [Hvalid Hshape].
  split; [exact Hvalid|].
  destruct v as [s|s| |s mv ev].
  - rewrite Hshape. split; [repeat split|]. auto.
  - rewrite Hshape. split; [repeat split|]. auto.
  - rewrite Hshape. split; [repeat split|]. auto.
  - destruct Hshape as [(m' & e' & ->)| ->]; destruct s; split;
      try (repeat split; fail); auto.
Qed.

Lemma transition_number_frame (name : string) (n : number) (e : DOM.element) :
  (forall name', name' <> name ->
                 DOM.attrs (DOM.transition_number name n e) !! name' = DOM.attrs e !! name') /\
  DOM.styles (DOM.transition_number name n e) = DOM.styles e /\
  DOM.html (DOM.transition_number name n e) = DOM.html e.
Proof.
  assert (Hattr : forall v,
            (forall name', name' <> name ->
                           DOM.attrs (DOM.attr name v e) !! name' = DOM.attrs e !! name') /\
            DOM.styles (DOM.attr name v e) = DOM.styles e /\
            DOM.html (DOM.attr name v e) = DOM.html e).
  { intros v. cbn [DOM.attr DOM.attrs DOM.styles DOM.html]. repeat split.
    intros name' Hn. apply lookup_insert_ne. congruence. }
  assert (Htr : forall v,
            (forall name', name' <> name ->
               DOM.attrs (DOM.transition_attr name v e) !! name' = DOM.attrs e !! name') /\
            DOM.styles (DOM.transition_attr name v e) = DOM.styles e /\
            DOM.html (DOM.transition_attr name v e) = DOM.html e).
  { intros v. split; [|apply transition_attr_styles].
    intros name' Hn. apply transition_attr_other. exact Hn. }
  unfold DOM.transition_number. destruct n as [s|s| |s m ex]; try apply Htr; try apply Hattr.
  destruct (DOM.attrs e !! name) as [[| |s0|]|]; try apply Hattr.
  destruct (String.eqb s0 _); [|apply Hattr]. repeat split.
Qed.

Lemma place_frame (name : string) (v : option number) (e : DOM.element) :
  (forall name', name' <> name -> DOM.attrs (place name v e) !! name' = DOM.attrs e !! name') /\
  DOM.styles (place name v e) = DOM.styles e /\ DOM.html (place name v e) = DOM.html e.
Proof.
  unfold place. destruct v as [n|]; [apply transition_number_frame|].
  cbn [DOM.attrs DOM.styles DOM.html]. repeat split.
  intros name' Hn. apply lookup_delete_ne. congruence.
Qed.

Lemma move_moved (x y : linear) (d : datum) (e : DOM.element) : moved e (move x y d e).
Proof.
  unfold moved, move.
  destruct (place_frame "cx" (scale x (streams d)) e) as (A1 & S1 & H1).
  destruct (place_frame "cy" (scale y (reach d)) (place "cx" (scale x (streams d)) e))
    as (A2 & S2 & H2).
  split; [|split; congruence].
  intros name Hx Hy. rewrite A2 by exact Hy. apply A1. exact Hx.
Qed.

(** C8. One [update()] multiplies the [streams] and the [reach] of every
    track record, in place, each by a factor of its own that lies between
    the Numbers 0.95 and 1.05, the draws of [Math.random] being Numbers of
    [[0, 1)]. Each product is a Number that compares with 0 as the value did
    before: a positive value stays positive, a negative one negative, zero
    stays zero, and a value that is not negative stays so. The scales, and
    with them both domains, are left as they were, the records keep their
    track and artist, and of each circle only [cx] and [cy] change, to the
    position of its record under those scales. *)
Theorem update_jitter (random : nat -> number) (c : chart) :
  (forall n, draw (random n)) ->
  (forall i d, data c !! i = Some d -> valid (streams d) /\ valid (reach d)) ->
  jittered c (update random c).
Proof.
  intros Hrandom Hvalid. unfold jittered.
  split; [reflexivity|]. split; [reflexivity|]. split.
  - unfold update. cbn [data]. apply length_imap.
  - intros i d Hd. destruct (Hvalid i d Hd) as [Vs Vr].
    exists (jitter random i d), (factor (random (2 * i)%nat)),
           (factor (random (2 * i + 1)%nat)).
    assert (Hd' : data (update random c) !! i = Some (jitter random i d)).
    { unfold update. cbn [data]. rewrite list_lookup_imap, Hd. reflexivity. }
    destruct (mul_near_one (streams d) _ Vs (Hrandom (2 * i)%nat)) as (V1 & S1 & N1).
    destruct (mul_near_one (reach d) _ Vr (Hrandom (2 * i + 1)%nat)) as (V2 & S2 & N2).
    split; [exact Hd'|].
    split; [apply factor_near_one, Hrandom|]. split; [apply factor_near_one, Hrandom|].
    cbn [jitter streams reach track artist].
    split; [reflexivity|]. split; [reflexivity|]. split; [reflexivity|]. split; [reflexivity|].
    split; [exact V1|]. split; [exact V2|]. split; [exact S1|]. split; [exact S2|].
    split; [exact N1|]. split; [exact N2|].
    intros e He. eexists. split.
    + unfold update. cbn [circles]. apply lookup_zip_with_Some.
      exists e, (jitter random i d). split; [reflexivity|]. split; [exact He|].
      rewrite list_lookup_imap, Hd. reflexivity.
    + split; [reflexivity|]. apply move_moved.
Qed.

(** The statement at the chart of one track, the draws being a quarter for
    [streams] and three quarters for [reach]. *)
Lemma update_jitter_witness :
  jittered JitterSamples.one_track (update JitterSamples.draws JitterSamples.one_track).
Proof.
  apply (update_jitter JitterSamples.draws JitterSamples.one_track).
  - intros n. unfold JitterSamples.draws. destruct (Nat.even n); repeat split.
  - intros [|i] d H; [|discriminate H]. injection H as <-. split; reflexivity.
Defined.

(** The three literals read back as they are written. *)
Lemma literals_read_back :
  (toString c095, toString c01, toString c105) = ("0.95"%string, "0.1"%string, "1.05"%string).
Proof. vm_compute. reflexivity. Qed.

(** What the update gives there: factors of 0.975 and 1.025, streams of
    975 and a reach of 2050, a circle that stays on its [cx] and whose [cy]
    has moved past the top of the plot, which is at 20. *)
Lemma update_jitter_sample :
  let c' := update JitterSamples.draws JitterSamples.one_track in
  (toString (factor (JitterSamples.draws 0)), toString (factor (JitterSamples.draws 1)))
    = ("0.975"%string, "1.025"%string) /\
  ((fun d => (toString (streams d), toString (reach d),
              toString <$> scale (x c') (streams d), toString <$> scale (y c') (reach d)))
     <$> data c' !! 0%nat)
    = Some ("975"%string, "2050"%string, Some "460"%string, Some "11.500000000000032"%string).
Proof.
  cbv zeta. split; vm_compute; reflexivity.
Qed.

End JitterUpdate.

(** * Loading the three datasets *)

Section Loading.
Import Dashboard DashboardSpec Samples.

Lemma record_keeps (a : arrival) (b : batch) :
  (forall s, tracksResponse b = Some s -> tracksResponse (record a b) = Some s) /\
  (forall s, artistsResponse b = Some s -> artistsResponse (record a b) = Some s) /\
  (forall s, platformsResponse b = Some s -> platformsResponse (record a b) = Some s) /\
  returned (record a b) = returned b.
Proof.
  destruct a; cbn [record tracksResponse artistsResponse platformsResponse returned];
    repeat split; try (intros s' ->; reflexivity); auto.
Qed.

Lemma failed_kept {A : Type} (s s' : option (settled A)) :
  (forall x, s = Some x -> s' = Some x) -> failed s -> failed s'.
Proof.
  intros Hk [H | (r & H & Hj)].
  - left. apply Hk. exact H.
  - right. exists r. split; [apply Hk; exact H | exact Hj].
Qed.

Lemma is_rejected_failed {A : Type} (s : option (settled A)) :
  is_rejected s = true -> failed s.
Proof. destruct s as [[|r]|]; try discriminate. intros _. left. reflexivity. Qed.

Lemma loaded_kept {A : Type} (s s' : option (settled A)) :
  (forall x, s = Some x -> s' = Some x) -> loaded s -> loaded s'.
Proof.
  intros Hk (r & body & H & Hj). exists r, body. split; [apply Hk; exact H | exact Hj].
Qed.

Lemma stands_step (p1 : page) (a : arrival) (bp : batch * page) :
  stands p1 bp -> stands p1 (integrate_step a bp).
Proof.
  destruct bp as [b p']. unfold stands, integrate_step.
  destruct (record_keeps a b) as (Kt & Ka & Kp & Kr).
  destruct (returned b) as [[|]|] eqn:Er.
  - rewrite Kr.
    intros (t & a' & pl & td & ad & pd & Ht & Htd & Ha & Had & Hp & Hpd & Hm & ->).
    exists t, a', pl, td, ad, pd. auto 10.
  - rewrite Kr. intros [[-> Hf] | (-> & (L1 & L2 & L3) & Hm)].
    + left. split; [reflexivity|].
      destruct Hf as [Hf|[Hf|Hf]]; [left|right; left|right; right];
        (eapply failed_kept; [|exact Hf]); assumption.
    + right. split; [reflexivity|]. split; [|exact Hm].
      repeat split; (eapply loaded_kept; [|eassumption]); assumption.
  - intros (-> & Rt & Ra & Rp & Hns).
    destruct (is_rejected (tracksResponse (record a b)) || is_rejected (artistsResponse (record a b))
              || is_rejected (platformsResponse (record a b))) eqn:Erej.
    + cbn [return_ returned]. left. split; [reflexivity|].
      apply orb_true_iff in Erej as [Erej|Erej]; [apply orb_true_iff in Erej as [Erej|Erej]|].
      * left. cbn [tracksResponse]. apply is_rejected_failed. exact Erej.
      * right; left. cbn [artistsResponse]. apply is_rejected_failed. exact Erej.
      * right; right. cbn [platformsResponse]. apply is_rejected_failed. exact Erej.
    + apply orb_false_iff in Erej as [Erej Erp]. apply orb_false_iff in Erej as [Ert Era].
      destruct (tracksResponse (record a b)) as [[|t]|] eqn:Et; try discriminate;
        destruct (artistsResponse (record a b)) as [[|a']|] eqn:Ea; try discriminate;
        destruct (platformsResponse (record a b)) as [[|pl]|] eqn:Ep; try discriminate;
        try (rewrite Kr; repeat split; try reflexivity;
             try (rewrite ?Et, ?Ea, ?Ep; reflexivity);
             intros (H1 & H2 & H3); congruence).
      unfold integrate_resume.
      destruct (json t) as [td|] eqn:Jt; [destruct (json a') as [ad|] eqn:Ja;
        [destruct (json pl) as [pd|] eqn:Jp|]|].
      * cbn [console_log mounted]. destruct (mounted p1) eqn:Hm; cbn [negb return_ returned].
        -- exists t, a', pl, td, ad, pd. cbn [tracksResponse artistsResponse platformsResponse].
           auto 10.
        -- right. split; [reflexivity|]. split; [|reflexivity].
           cbn [tracksResponse artistsResponse platformsResponse].
           repeat split; eexists _, _; split; try reflexivity; eassumption.
      * cbn [return_ returned]. left. split; [reflexivity|]. right; right. right. exists pl.
        cbn [platformsResponse]. auto.
      * cbn [return_ returned]. left. split; [reflexivity|]. right; left. right. exists a'.
        cbn [artistsResponse]. auto.
      * cbn [return_ returned]. left. split; [reflexivity|]. left. right. exists t.
        cbn [tracksResponse]. auto.
Qed.

Lemma stands_start (p : page) : stands (fst (integrate_start p)) (snd (integrate_start p), fst (integrate_start p)).
Proof.
  cbn. repeat split. intros (H & _). apply H. reflexivity.
Qed.

Lemma stands_run (p1 : page) (arrivals : list arrival) (bp : batch * page) :
  stands p1 bp -> stands p1 (foldl (fun bp a => integrate_step a bp) bp arrivals).
Proof.
  revert bp. induction arrivals as [|a arrivals IH]; intros bp H; [exact H|].
  cbn [foldl]. apply IH. apply stands_step. exact H.
Qed.

Lemma stands_integrate (arrivals : list arrival) (p : page) :
  stands (console_log Console.log "Initializing dashboard visualizations..." p)
         (integrateVisualizations arrivals p).
Proof.
  unfold integrateVisualizations. cbn [integrate_start].
  apply stands_run. exact (stands_start p).
Qed.

(** No step reads a response's [ok] flag. *)
Lemma integrate_step_ok (a : arrival) (b : batch) (p : page) :
  integrate_step (with_ok a) (batch_ok b, p) =
  (batch_ok (fst (integrate_step a (b, p))), snd (integrate_step a (b, p))).
Proof.
  destruct b as [bt ba bp br].
  destruct br as [r|]; [destruct a as [s|s|s], bt as [[|t]|], ba as [[|a']|], bp as [[|pl]|];
                        reflexivity|].
  destruct a as [s|s|s]; destruct s as [|[okr [jr|]]];
    destruct bt as [[|[okt [jt|]]]|], ba as [[|[oka [ja|]]]|], bp as [[|[okp [jp|]]]|];
    try reflexivity;
    unfold integrate_step, integrate_resume; cbn; destruct (mounted p); reflexivity.
Qed.

Lemma integrate_run_ok (arrivals : list arrival) (b : batch) (p : page) :
  foldl (fun bp a => integrate_step a bp) (batch_ok b, p) (map with_ok arrivals) =
  (batch_ok (fst (foldl (fun bp a => integrate_step a bp) (b, p) arrivals)),
   snd (foldl (fun bp a => integrate_step a bp) (b, p) arrivals)).
Proof.
  revert b p. induction arrivals as [|a arrivals IH]; intros b p; [reflexivity|].
  cbn [foldl map]. rewrite integrate_step_ok.
  destruct (integrate_step a (b, p)) as [b' p']. cbn [fst snd]. apply IH.
Qed.

Lemma failed_not_loaded {A : Type} (s : option (settled A)) : failed s -> ~ loaded s.
Proof.
  intros [H | (r & H & Hj)] (r' & body & H' & Hj'); congruence.
Qed.

Lemma record_responses (a : arrival) (b b2 : batch) :
  responses b = responses b2 -> responses (record a b) = responses (record a b2).
Proof.
  unfold responses. intros [= Et Ea Ep].
  destruct a; cbn [record tracksResponse artistsResponse platformsResponse];
    rewrite Et, Ea, Ep; reflexivity.
Qed.

Lemma integrate_step_responses (a : arrival) (b : batch) (p : page) :
  responses (fst (integrate_step a (b, p))) = responses (record a b).
Proof.
  unfold integrate_step. destruct (returned b); [reflexivity|].
  destruct (_ || _); [reflexivity|].
  destruct (tracksResponse (record a b)) as [[|t]|]; try reflexivity.
  destruct (artistsResponse (record a b)) as [[|a']|]; try reflexivity.
  destruct (platformsResponse (record a b)) as [[|pl]|]; try reflexivity.
  destruct (integrate_resume t a' pl p). reflexivity.
Qed.

Lemma integrate_run_responses (arrivals : list arrival) (b b2 : batch) (p p2 : page) :
  responses b = responses b2 ->
  responses (fst (foldl (fun bp a => integrate_step a bp) (b, p) arrivals)) =
  responses (fst (foldl (fun bp a => integrate_step a bp) (b2, p2) arrivals)).
Proof.
  revert b b2 p p2. induction arrivals as [|a arrivals IH]; intros b b2 p p2 E; [exact E|].
  cbn [foldl].
  pose proof (integrate_step_responses a b p) as E1.
  pose proof (integrate_step_responses a b2 p2) as E2.
  destruct (integrate_step a (b, p)) as [b' p'], (integrate_step a (b2, p2)) as [b2' p2'].
  cbn [fst] in E1, E2. apply IH. rewrite E1, E2. apply record_responses. exact E.
Qed.

Lemma integrate_batch_any_page (arrivals : list arrival) (p p2 : page) :
  responses (fst (integrateVisualizations arrivals p)) =
  responses (fst (integrateVisualizations arrivals p2)).
Proof.
  unfold integrateVisualizations. cbn [integrate_start].
  apply integrate_run_responses. reflexivity.
Qed.

Lemma some_failed_responses (b b2 : batch) :
  responses b = responses b2 -> some_failed b -> some_failed b2.
Proof. unfold responses, some_failed. intros [= -> -> ->]. auto. Qed.

(** C5, as amended. [integrateVisualizations] issues the three fetches
    together and builds nothing before all three have been fulfilled and
    their bodies read: a page that changed has all three loaded. If a fetch
    is rejected or a body is not JSON, nothing a visitor sees changes, and
    once the three fetches have settled the call has returned [undefined]
    after logging exactly one error. A response's [ok] flag is never read:
    with three bodies read, whatever the status, the three charts are built
    and no error is logged. During initialization the container has been
    rewritten before the fetches start, and after the failed call
    [initializeDashboard] logs a second error and returns [null]. (The
    charts are built on a page whose cards exist, which is where
    [initializeDashboard] and [refresh] run the call.) *)
Theorem integrateVisualizations_batch (arrivals : list arrival) (p : page) :
  let b := fst (integrateVisualizations arrivals p) in
  let p' := snd (integrateVisualizations arrivals p) in
  (visuals p' <> visuals p -> all_loaded b) /\
  (some_failed b -> visuals p' = visuals p) /\
  (some_failed b -> all_settled b ->
     returned b = Some false /\ console p' = console p ++ [init_entry; load_error]) /\
  (all_loaded b -> mounted p = true ->
     returned b = Some true /\
     console p' = console p ++ [init_entry; fetched_entry] /\
     length (scatterPlot p') = S (length (scatterPlot p)) /\
     length (topArtists p') = S (length (topArtists p)) /\
     length (platformComparison p') = S (length (platformComparison p))) /\
  snd (integrateVisualizations (map with_ok arrivals) p) = p' /\
  (dashboard p = "dashboard"%string -> some_failed b -> all_settled b ->
     exists p'', initializeDashboard "dashboard" arrivals p = (p'', Some null) /\
       scatterPlot p'' = [] /\ topArtists p'' = [] /\ platformComparison p'' = [] /\
       Console.errors (console p'') =
         Console.errors (console p) ++
           [load_error;
            {| Console.lvl := Console.error;
               Console.message := "Failed to initialize visualizations." |}]).
Proof.
  cbv zeta.
  pose proof (stands_integrate arrivals p) as H.
  pose proof (integrate_batch_any_page arrivals p
                (write_cards (console_log Console.log
                                ("Initializing dashboard in containerId: #" +:+ "dashboard") p)))
    as Hsame.
  pose proof (stands_integrate arrivals
                (write_cards (console_log Console.log
                                ("Initializing dashboard in containerId: #" +:+ "dashboard") p)))
    as H0.
  assert (Hok : snd (integrateVisualizations (map with_ok arrivals) p)
                = snd (integrateVisualizations arrivals p)).
  { unfold integrateVisualizations. cbn [integrate_start].
    exact (f_equal snd
             (integrate_run_ok arrivals
                {| tracksResponse := None; artistsResponse := None; platformsResponse := None;
                   returned := None |}
                (console_log Console.log "Initializing dashboard visualizations..." p))). }
  assert (Hinit : dashboard p = "dashboard"%string ->
            initializeDashboard "dashboard" arrivals p =
            (let (b0, p0) := integrateVisualizations arrivals
                               (write_cards (console_log Console.log
                                  ("Initializing dashboard in containerId: #" +:+ "dashboard") p)) in
             match returned b0 with
             | None => (p0, None)
             | Some r => let (p1, h) := initialize_finish "dashboard" r p0 in (p1, Some h)
             end)).
  { intros Hd. unfold initializeDashboard, initialize_start.
    cbn [console_log dashboard]. rewrite Hd.
    rewrite bool_decide_eq_true_2 by reflexivity. reflexivity. }
  destruct (integrateVisualizations arrivals p) as [b p'].
  destruct (integrateVisualizations arrivals (write_cards _)) as [b0 p0].
  cbn [fst snd] in *.
  unfold stands in H, H0.
  destruct (returned b) as [[|]|] eqn:Er.
  - destruct H as (t & a & pl & td & ad & pd & Ht & Htd & Ha & Had & Hp & Hpd & Hm & ->).
    assert (Hl : all_loaded b).
    { repeat split; eexists _, _; split; eassumption. }
    assert (Hnf : ~ some_failed b).
    { destruct Hl as (L1 & L2 & L3).
      intros [F|[F|F]]; eapply failed_not_loaded; eassumption. }
    split; [intros _; exact Hl|]. split; [intros F; contradiction|].
    split; [intros F; contradiction|]. split.
    + intros _ _. split; [reflexivity|]. split.
      * cbn. rewrite <- app_assoc. reflexivity.
      * cbn. rewrite !length_app. cbn. repeat split; lia.
    + split; [exact Hok|]. intros _ F. contradiction.
  - destruct H as [[-> Hf] | (-> & Hl & Hm)].
    + pose proof (some_failed_responses b b0 Hsame Hf) as Hf0.
      assert (Hs0 : all_settled b -> all_settled b0).
      { revert Hsame. unfold responses, all_settled. intros [= -> -> ->]. auto. }
      split; [intros Hv; exfalso; apply Hv; reflexivity|]. split; [reflexivity|].
      split; [|split; [|split; [exact Hok|]]].
      * intros _ _. split; [reflexivity|]. cbn. rewrite <- app_assoc. reflexivity.
      * intros (L1 & L2 & L3). exfalso.
        destruct Hf as [F|[F|F]]; eapply failed_not_loaded; eassumption.
      * intros Hd _ Hs. rewrite (Hinit Hd).
        destruct (returned b0) as [[|]|].
        -- exfalso. destruct H0 as (t & a & pl & td & ad & pd & Ht & Htd & Ha & Had & Hp & Hpd & _).
           destruct Hf0 as [F|[F|F]]; (eapply failed_not_loaded; [exact F|]);
             eexists _, _; split; eassumption.
        -- destruct H0 as [[-> _] | (_ & (L1 & L2 & L3) & _)].
           2:{ exfalso. destruct Hf0 as [F|[F|F]]; eapply failed_not_loaded; eassumption. }
           eexists. split; [reflexivity|].
           cbn. repeat split.
           rewrite !List.filter_app. cbn. rewrite !app_nil_r, <- !app_assoc. reflexivity.
        -- exfalso. destruct H0 as (_ & _ & _ & _ & Hns). exact (Hns (Hs0 Hs)).
    + assert (Hnf : ~ some_failed b).
      { destruct Hl as (L1 & L2 & L3).
        intros [F|[F|F]]; eapply failed_not_loaded; eassumption. }
      split; [intros Hv; exfalso; apply Hv; reflexivity|]. split; [reflexivity|].
      split; [intros F; contradiction|]. split.
      * intros _ Hm'. cbn in Hm. congruence.
      * split; [exact Hok|]. intros _ F. contradiction.
  - destruct H as (-> & _ & _ & _ & Hns).
    split; [intros Hv; exfalso; apply Hv; reflexivity|]. split; [reflexivity|].
    split; [intros _ Hs; contradiction|]. split.
    + intros (L1 & L2 & L3). exfalso. apply Hns.
      destruct L1 as (? & ? & E1 & _), L2 as (? & ? & E2 & _), L3 as (? & ? & E3 & _).
      unfold all_settled. rewrite E1, E2, E3. repeat split; discriminate.
    + split; [exact Hok|]. intros _ _ Hs. contradiction.
Qed.

(** The amended statement with the tracks request rejected: nothing is
    built, one error is logged, and initialization returns [null]. *)
Lemma integrateVisualizations_batch_witness :
  visuals (snd (integrateVisualizations tracks_down (empty_page "dashboard")))
    = visuals (empty_page "dashboard") /\
  (returned (fst (integrateVisualizations tracks_down (empty_page "dashboard"))) = Some false /\
   console (snd (integrateVisualizations tracks_down (empty_page "dashboard")))
     = console (empty_page "dashboard") ++ [init_entry; load_error]) /\
  exists p'', initializeDashboard "dashboard" tracks_down (empty_page "dashboard")
              = (p'', Some null) /\
    scatterPlot p'' = [] /\ topArtists p'' = [] /\ platformComparison p'' = [] /\
    Console.errors (console p'') =
      Console.errors (console (empty_page "dashboard")) ++
        [load_error;
         {| Console.lvl := Console.error;
            Console.message := "Failed to initialize visualizations." |}].
Proof.
  assert (F : some_failed (fst (integrateVisualizations tracks_down (empty_page "dashboard"))))
    by (left; left; reflexivity).
  assert (S : all_settled (fst (integrateVisualizations tracks_down (empty_page "dashboard"))))
    by (repeat split; discriminate).
  pose proof (integrateVisualizations_batch tracks_down (empty_page "dashboard")) as H.
  cbv zeta in H. destruct H as (_ & H2 & H3 & _ & _ & H6).
  split; [exact (H2 F)|]. split; [exact (H3 F S)|]. exact (H6 eq_refl F S).
Defined.

(** C5 as stated fails when the platform endpoint answers with an error
    status and a JSON body: initialization succeeds, the three charts are
    built and no error is logged. *)
Lemma not_ok_response_is_rendered :
  let r := initializeDashboard "dashboard" platforms_not_ok (empty_page "dashboard") in
  snd r = Some (dashboard_handle "dashboard") /\
  length (scatterPlot (fst r)) = 1%nat /\
  length (topArtists (fst r)) = 1%nat /\
  length (platformComparison (fst r)) = 1%nat /\
  Console.errors (console (fst r)) = [].
Proof.
  cbv zeta. repeat split.
Qed.

End Loading.

(** * Refresh *)

Section Refresh.
Import Dashboard DashboardSpec Samples.

Lemma stands_refresh (arrivals : list arrival) (p : page) :
  stands (at_resolution (refresh p)) (refresh_settled arrivals p).
Proof.
  unfold refresh_settled. apply stands_run.
  exact (stands_start (console_log Console.log "Refreshing dashboard visualizations..." p)).
Qed.

Lemma refresh_rebuild (arrivals : list arrival) (p : page) :
  all_loaded (fst (refresh_settled arrivals p)) -> mounted p = true ->
  let p' := snd (refresh_settled arrivals p) in
  exists scatter bars comparison,
    scatterPlot p' = scatterPlot p ++ [scatter] /\
    topArtists p' = topArtists p ++ [bars] /\
    platformComparison p' = platformComparison p ++ [comparison] /\
    length (controlsS p') = (length (controlsS p) + 2)%nat /\
    length (controlsB p') = (length (controlsB p) + 1)%nat /\
    length (controlsP p') = (length (controlsP p) + 3)%nat /\
    length (tooltips p') = (length (tooltips p) + 2)%nat.
Proof.
  intros Hl Hm. cbv zeta.
  pose proof (stands_refresh arrivals p) as H.
  destruct (refresh_settled arrivals p) as [b p']. cbn [fst snd] in *.
  unfold stands in H. destruct (returned b) as [[|]|].
  - destruct H as (t & a & pl & td & ad & pd & _ & _ & _ & _ & _ & _ & _ & ->).
    eexists _, _, _. unfold built. cbn. rewrite !length_app. cbn. repeat split. lia.
  - exfalso. destruct H as [[_ Hf] | (_ & _ & Hm')].
    + destruct Hl as (L1 & L2 & L3).
      destruct Hf as [F|[F|F]]; eapply failed_not_loaded; eassumption.
    + cbn in Hm'. congruence.
  - destruct H as (_ & _ & _ & _ & Hns). exfalso. apply Hns.
    destruct Hl as ((? & ? & E1 & _) & (? & ? & E2 & _) & (? & ? & E3 & _)).
    unfold all_settled. rewrite E1, E2, E3. repeat split; discriminate.
Qed.

(** C7 does not hold of [refresh()]; this is what it does. The promise it
    returns is resolved while the three fetches are still in flight and the
    page is as it was. When the fetches have brought three bodies, the
    charts, buttons and tooltips of the rebuild are appended after the ones
    already on the page (a page whose cards exist, as every page with a
    handle is), which all stay. On the sample dashboard, initialized and
    then refreshed with every request succeeding, each card holds one chart
    when the promise is resolved and two after the fetches. *)
Theorem refresh_appends :
  (forall (arrivals : list arrival) (p : page),
      visuals (at_resolution (refresh p)) = visuals p /\
      in_flight (refresh p) =
        {| tracksResponse := None; artistsResponse := None; platformsResponse := None;
           returned := None |} /\
      (all_loaded (fst (refresh_settled arrivals p)) -> mounted p = true ->
       let p' := snd (refresh_settled arrivals p) in
       exists scatter bars comparison,
         scatterPlot p' = scatterPlot p ++ [scatter] /\
         topArtists p' = topArtists p ++ [bars] /\
         platformComparison p' = platformComparison p ++ [comparison] /\
         length (controlsS p') = (length (controlsS p) + 2)%nat /\
         length (controlsB p') = (length (controlsB p) + 1)%nat /\
         length (controlsP p') = (length (controlsP p) + 3)%nat /\
         length (tooltips p') = (length (tooltips p) + 2)%nat)) /\
  (let p2 := snd (refresh_settled all_up sample_page) in
   snd (initializeDashboard "dashboard" all_up (empty_page "dashboard"))
     = Some (dashboard_handle "dashboard") /\
   length (scatterPlot sample_page) = 1%nat /\
   length (scatterPlot (at_resolution (refresh sample_page))) = 1%nat /\
   returned (in_flight (refresh sample_page)) = None /\
   length (scatterPlot p2) = 2%nat /\
   length (topArtists p2) = 2%nat /\
   length (platformComparison p2) = 2%nat /\
   length (controlsS p2) = 4%nat /\
   length (tooltips p2) = 4%nat).
Proof.
  split.
  - intros arrivals p. split; [reflexivity|]. split; [reflexivity|].
    exact (refresh_rebuild arrivals p).
  - cbv zeta. repeat split.
Qed.

End Refresh.

(** * Hovering a mark *)

Section ScatterHover.
Import Scatter HoverSpec.
Local Open Scope Q_scope.

Variable f : formatters.

Lemma mouseover_frame (ev : mouse_event) (i : nat) (c : chart) (tips : list DOM.element) :
  tooltip (fst (mouseover f ev i c tips)) = tooltip c /\
  data (fst (mouseover f ev i c tips)) = data c /\
  length (snd (mouseover f ev i c tips)) = length tips /\
  forall j, j <> tooltip c -> snd (mouseover f ev i c tips) !! j = tips !! j.
Proof.
  unfold mouseover. destruct (data c !! i); cbn [fst snd with_circles tooltip data]; auto.
  repeat split; [apply length_alter|]. intros j Hj. apply list_lookup_alter_ne. auto.
Qed.

Lemma mouseout_frame (i : nat) (c : chart) (tips : list DOM.element) :
  tooltip (fst (mouseout i c tips)) = tooltip c /\
  data (fst (mouseout i c tips)) = data c /\
  length (snd (mouseout i c tips)) = length tips /\
  forall j, j <> tooltip c -> snd (mouseout i c tips) !! j = tips !! j.
Proof.
  unfold mouseout. destruct (data c !! i); cbn [fst snd with_circles tooltip data]; auto.
  repeat split; [apply length_alter|]. intros j Hj. apply list_lookup_alter_ne. auto.
Qed.

Lemma mouseover_shows (ev : mouse_event) (i : nat) (c : chart) (tips : list DOM.element)
    (d : datum) (t : DOM.element) :
  data c !! i = Some d -> tips !! tooltip c = Some t ->
  exists t', snd (mouseover f ev i c tips) !! tooltip c = Some t' /\ shown f ev d t'.
Proof.
  intros Hd Ht. unfold mouseover. rewrite Hd. cbn [snd].
  rewrite list_lookup_alter_eq, Ht. eexists. split; [reflexivity|].
  unfold shown, DOM.transition. cbn [DOM.style DOM.set_html DOM.styles DOM.html].
  repeat split.
  - rewrite !lookup_insert_ne by discriminate. apply lookup_insert_eq.
  - rewrite lookup_insert_ne by discriminate. apply lookup_insert_eq.
  - apply lookup_insert_eq.
Qed.

Lemma mouseout_hides (i : nat) (c : chart) (tips : list DOM.element) (d : datum)
    (t : DOM.element) :
  data c !! i = Some d -> tips !! tooltip c = Some t ->
  exists t', snd (mouseout i c tips) !! tooltip c = Some t' /\ DashboardSpec.hidden t'.
Proof.
  intros Hd Ht. unfold mouseout. rewrite Hd. cbn [snd].
  rewrite list_lookup_alter_eq, Ht. eexists. split; [reflexivity|].
  unfold DashboardSpec.hidden, DOM.transition. cbn [DOM.style DOM.styles].
  apply lookup_insert_eq.
Qed.


Lemma hover_circles (ev : mouse_event) (i : nat) (c : chart) (tips : list DOM.element)
    (d : datum) :
  data c !! i = Some d ->
  circles (fst (mouseover f ev i c tips)) =
    alter (fun e => DOM.transition_attr "opacity" (DOM.VNum (1 # 2))
                      (DOM.transition_attr "fill" (DOM.VStr "#191414") e)) i (circles c) /\
  circles (fst (hover f ev i c tips)) =
    alter (fun e => DOM.transition_attr "opacity" (DOM.VNum 1)
                      (DOM.transition_attr "fill" (DOM.VStr "#1DB954") e)) i
      (alter (fun e => DOM.transition_attr "opacity" (DOM.VNum (1 # 2))
                         (DOM.transition_attr "fill" (DOM.VStr "#191414") e)) i (circles c)).
Proof.
  intros Hd. unfold hover, mouseover, mouseout. rewrite Hd.
  cbn [fst snd with_circles data circles]. rewrite Hd. cbn [fst with_circles circles].
  split; reflexivity.
Qed.

(** Circles are created at rest. *)
Lemma circle_created (x y : D3.linear) (d : datum) : circle_at_rest (circle x y d).
Proof.
  unfold circle_at_rest, fill, presented, circle, DOM.style, DOM.attr.
  cbn [DOM.attrs DOM.styles]. repeat split.
Qed.

(** What the pointer entering does to a circle at rest. *)
Lemma circle_entered (e : DOM.element) :
  circle_at_rest e ->
  let e1 := DOM.transition_attr "opacity" (DOM.VNum (1 # 2))
              (DOM.transition_attr "fill" (DOM.VStr "#191414") e) in
  fill e1 = Some dark /\ DOM.attrs e1 !! "opacity" = Some (DOM.VNum (1 # 2)) /\
  opacity e1 == 7 # 10 /\ stroke e1 = stroke e /\ differs_in ["fill"; "opacity"] e e1.
Proof.
  intros (Hsf & Hf & Hso & Hno) e1. subst e1.
  unfold fill, opacity, stroke, presented, differs_in.
  rewrite !(proj1 (transition_attr_styles _ _ _)), !(proj2 (transition_attr_styles _ _ _)).
  rewrite Hsf, Hso.
  rewrite (transition_attr_other "opacity" "fill") by discriminate.
  rewrite !(transition_attr_other _ "stroke-width"), !(transition_attr_other _ "stroke")
    by discriminate.
  split; [exact (transition_attr_paints "fill" _ dark e (proj1 color_dark) (proj2 color_dark))|].
  split.
  { apply transition_attr_number.
    rewrite transition_attr_other by discriminate. exact Hno. }
  split; [reflexivity|]. split; [reflexivity|].
  split; [|split; reflexivity].
  intros name Hn. apply not_elem_of_cons in Hn as [Hn1 Hn]. apply not_elem_of_cons in Hn as [Hn2 _].
  rewrite !transition_attr_other by congruence. reflexivity.
Qed.

(** What the pointer leaving does to the circle it had entered. *)
Lemma circle_left (e : DOM.element) :
  circle_at_rest e ->
  let e2 := DOM.transition_attr "opacity" (DOM.VNum 1)
              (DOM.transition_attr "fill" (DOM.VStr "#1DB954")
                 (DOM.transition_attr "opacity" (DOM.VNum (1 # 2))
                    (DOM.transition_attr "fill" (DOM.VStr "#191414") e))) in
  same_look e e2 /\ circle_at_rest e2 /\ differs_in ["fill"; "opacity"] e e2.
Proof.
  intros (Hsf & Hf & Hso & Hno) e2. subst e2.
  assert (Hfill2 :
    paint (DOM.attrs
             (DOM.transition_attr "opacity" (DOM.VNum 1)
                (DOM.transition_attr "fill" (DOM.VStr "#1DB954")
                   (DOM.transition_attr "opacity" (DOM.VNum (1 # 2))
                      (DOM.transition_attr "fill" (DOM.VStr "#191414") e)))) !! "fill")
    = Some green).
  { rewrite (transition_attr_other "opacity" "fill") by discriminate.
    exact (transition_attr_paints "fill" _ green _ (proj1 color_green) (proj2 color_green)). }
  unfold same_look, circle_at_rest, fill, opacity, stroke, presented, differs_in in *.
  rewrite !(proj1 (transition_attr_styles _ _ _)), !(proj2 (transition_attr_styles _ _ _)).
  rewrite Hsf, Hso in *. rewrite Hfill2.
  rewrite !(transition_attr_other _ "stroke-width"), !(transition_attr_other _ "stroke")
    by discriminate.
  split; [|split].
  - split; [symmetry; exact Hf|]. split; reflexivity.
  - split; [reflexivity|]. split; [reflexivity|]. split; [reflexivity|].
    rewrite transition_attr_number; [exact I|].
    rewrite transition_attr_other by discriminate.
    rewrite transition_attr_number; [exact I|].
    rewrite transition_attr_other by discriminate. exact Hno.
  - split; [|split; reflexivity].
    intros name Hn. apply not_elem_of_cons in Hn as [Hn1 Hn].
    apply not_elem_of_cons in Hn as [Hn2 _].
    rewrite !transition_attr_other by congruence. reflexivity.
Qed.

(** Hovering a circle of the scatter plot. *)
Lemma scatter_hover_round_trip (ev : mouse_event) (i : nat) (c : chart)
    (tips : list DOM.element) (d : datum) (e t : DOM.element) :
  data c !! i = Some d -> circles c !! i = Some e -> tips !! tooltip c = Some t ->
  circle_at_rest e ->
  let over := mouseover f ev i c tips in
  let out := hover f ev i c tips in
  (exists e1 t1,
      circles (fst over) !! i = Some e1 /\
      fill e1 = Some dark /\ DOM.attrs e1 !! "opacity" = Some (DOM.VNum (1 # 2)) /\
      opacity e1 == 7 # 10 /\ stroke e1 = stroke e /\ differs_in ["fill"; "opacity"] e e1 /\
      snd over !! tooltip c = Some t1 /\ shown f ev d t1) /\
  (exists e2 t2,
      circles (fst out) !! i = Some e2 /\
      same_look e e2 /\ circle_at_rest e2 /\ differs_in ["fill"; "opacity"] e e2 /\
      snd out !! tooltip c = Some t2 /\ DashboardSpec.hidden t2) /\
  (forall i', i' <> i -> circles (fst out) !! i' = circles c !! i').
Proof.
  intros Hd He Ht Hrest over out. subst over out.
  destruct (hover_circles ev i c tips d Hd) as [Eover Eout].
  destruct (mouseover_shows ev i c tips d t Hd Ht) as (t1 & Ht1 & Hshown).
  destruct (mouseover_frame ev i c tips) as (Htip & Hdata & _ & _).
  assert (Hd1 : data (fst (mouseover f ev i c tips)) !! i = Some d) by (rewrite Hdata; exact Hd).
  destruct (mouseout_hides i (fst (mouseover f ev i c tips)) (snd (mouseover f ev i c tips))
              d t1 Hd1) as (t2 & Ht2 & Hhidden).
  { rewrite Htip. exact Ht1. }
  rewrite Htip in Ht2.
  destruct (circle_entered e Hrest) as (H1 & H2 & H3 & H4 & H5).
  destruct (circle_left e Hrest) as (H6 & H7 & H8).
  split; [|split].
  - eexists _, t1. split; [rewrite Eover, list_lookup_alter_eq, He; reflexivity|].
    auto 10.
  - eexists _, t2. split; [rewrite Eout, !list_lookup_alter_eq, He; reflexivity|].
    auto 10.
  - intros i' Hi'. rewrite Eout, !list_lookup_alter_ne by congruence. reflexivity.
Qed.

End ScatterHover.

Section BarHover.
Import TopArtists HoverSpec.
Local Open Scope Q_scope.

(** Bars are created at rest. *)
Lemma rect_created (c : config) (x : D3.linear) (y : D3.band) (d : datum) :
  bar_at_rest (rect c x y d).
Proof.
  unfold bar_at_rest, fill, stroke, presented, rect, DOM.attr.
  cbn [DOM.attrs DOM.styles DOM.blank]. repeat split.
Qed.

(** What the pointer entering does to a bar at rest, and what its leaving
    does next. *)
Lemma bar_entered_left (e : DOM.element) :
  bar_at_rest e ->
  let enter e := DOM.transition_attr "stroke-width" (DOM.VNum 2)
                   (DOM.transition_attr "stroke" (DOM.VStr "#191414")
                      (DOM.transition_attr "opacity" (DOM.VNum 1)
                         (DOM.transition_attr "fill" (DOM.VStr "#1DB954") e))) in
  let leave e := DOM.transition_attr "stroke-width" (DOM.VNum 0)
                   (DOM.transition_attr "stroke" (DOM.VNum 0)
                      (DOM.transition_attr "opacity" (DOM.VNum (7 # 10))
                         (DOM.transition_attr "fill" (DOM.VStr "#1DB954") e))) in
  (fill (enter e) = Some green /\ opacity (enter e) == 1 /\ stroke (enter e) = Some dark /\
   differs_in ["fill"; "opacity"; "stroke"; "stroke-width"] e (enter e)) /\
  (same_look e (leave (enter e)) /\ bar_at_rest (leave (enter e)) /\
   differs_in ["fill"; "opacity"; "stroke"; "stroke-width"] e (leave (enter e))).
Proof.
  intros (Hs & Hf & Ho & Hst & Hw) enter leave. subst enter leave. cbv beta.
  set (e1 := DOM.transition_attr "fill" (DOM.VStr "#1DB954") e).
  set (e2 := DOM.transition_attr "opacity" (DOM.VNum 1) e1).
  set (e3 := DOM.transition_attr "stroke" (DOM.VStr "#191414") e2).
  set (e4 := DOM.transition_attr "stroke-width" (DOM.VNum 2) e3).
  set (e5 := DOM.transition_attr "fill" (DOM.VStr "#1DB954") e4).
  set (e6 := DOM.transition_attr "opacity" (DOM.VNum (7 # 10)) e5).
  set (e7 := DOM.transition_attr "stroke" (DOM.VNum 0) e6).
  set (e8 := DOM.transition_attr "stroke-width" (DOM.VNum 0) e7).
  assert (S4 : DOM.styles e4 = ∅ /\ DOM.html e4 = DOM.html e).
  { subst e4 e3 e2 e1.
    rewrite !(proj1 (transition_attr_styles _ _ _)), !(proj2 (transition_attr_styles _ _ _)).
    auto. }
  assert (S8 : DOM.styles e8 = ∅ /\ DOM.html e8 = DOM.html e).
  { subst e8 e7 e6 e5.
    rewrite !(proj1 (transition_attr_styles _ _ _)), !(proj2 (transition_attr_styles _ _ _)).
    exact S4. }
  assert (F4 : paint (DOM.attrs e4 !! "fill") = Some green).
  { subst e4 e3 e2. rewrite !(transition_attr_other _ "fill") by discriminate.
    exact (transition_attr_paints "fill" _ green e (proj1 color_green) (proj2 color_green)). }
  assert (O4 : DOM.attrs e4 !! "opacity" = Some (DOM.VNum 1)).
  { subst e4 e3. rewrite !(transition_attr_other _ "opacity") by discriminate.
    subst e2. apply transition_attr_number. subst e1.
    rewrite transition_attr_other by discriminate. rewrite Ho. exact I. }
  assert (K4 : paint (DOM.attrs e4 !! "stroke") = Some dark).
  { subst e4. rewrite !(transition_attr_other _ "stroke") by discriminate.
    exact (transition_attr_paints "stroke" _ dark e2 (proj1 color_dark) (proj2 color_dark)). }
  assert (W4 : DOM.attrs e4 !! "stroke-width" = Some (DOM.VNum 2)).
  { subst e4. apply transition_attr_number. subst e3 e2 e1.
    rewrite !(transition_attr_other _ "stroke-width") by discriminate. exact Hw. }
  assert (F8 : paint (DOM.attrs e8 !! "fill") = Some green).
  { subst e8 e7 e6. rewrite !(transition_attr_other _ "fill") by discriminate.
    exact (transition_attr_paints "fill" _ green e4 (proj1 color_green) (proj2 color_green)). }
  assert (O8 : DOM.attrs e8 !! "opacity" = Some (DOM.VNum (7 # 10))).
  { subst e8 e7. rewrite !(transition_attr_other _ "opacity") by discriminate.
    subst e6. apply transition_attr_number. subst e5.
    rewrite transition_attr_other by discriminate. rewrite O4. exact I. }
  assert (W8 : DOM.attrs e8 !! "stroke-width" = Some (DOM.VNum 0)).
  { subst e8. apply transition_attr_number. subst e7 e6 e5.
    rewrite !(transition_attr_other _ "stroke-width") by discriminate. rewrite W4. exact I. }
  assert (D4 : forall name, name ∉ ["fill"; "opacity"; "stroke"; "stroke-width"]%string ->
                            DOM.attrs e4 !! name = DOM.attrs e !! name).
  { intros name Hn. repeat (apply not_elem_of_cons in Hn as [? Hn]).
    subst e4 e3 e2 e1. rewrite !transition_attr_other by congruence. reflexivity. }
  assert (D8 : forall name, name ∉ ["fill"; "opacity"; "stroke"; "stroke-width"]%string ->
                            DOM.attrs e8 !! name = DOM.attrs e !! name).
  { intros name Hn. rewrite <- (D4 name Hn). repeat (apply not_elem_of_cons in Hn as [? Hn]).
    subst e8 e7 e6 e5. rewrite !transition_attr_other by congruence. reflexivity. }
  unfold same_look, bar_at_rest, fill, opacity, stroke, presented, differs_in in *.
  destruct S4 as [S4 H4], S8 as [S8 H8]. rewrite Hs in *. rewrite S4, S8.
  rewrite !lookup_empty in *. rewrite O4, O8, W4, W8, Ho, F4, F8, K4, Hf, Hst.
  cbn [Qle_bool Qnum Qden Z.leb Z.mul Z.compare Pos.mul Pos.compare Pos.compare_cont].
  repeat split; auto.
Qed.

(** Hovering a bar of the bar chart. *)
Lemma bar_hover_round_trip (j : nat) (b : chart) (d : datum) (e : DOM.element) :
  rects b !! j = Some (d, e) -> bar_at_rest e ->
  (exists e1, rects (mouseover j b) !! j = Some (d, e1) /\
      fill e1 = Some green /\ opacity e1 == 1 /\ stroke e1 = Some dark /\
      differs_in ["fill"; "opacity"; "stroke"; "stroke-width"] e e1) /\
  (exists e2, rects (bar_hover j b) !! j = Some (d, e2) /\
      same_look e e2 /\ bar_at_rest e2 /\
      differs_in ["fill"; "opacity"; "stroke"; "stroke-width"] e e2) /\
  (forall j', j' <> j -> rects (bar_hover j b) !! j' = rects b !! j') /\
  data (bar_hover j b) = data b.
Proof.
  intros He Hrest. destruct (bar_entered_left e Hrest) as [H1 H2].
  unfold bar_hover, mouseover, mouseout. cbn [rects with_rects data].
  split; [|split; [|split]].
  - eexists. rewrite list_lookup_alter_eq, He. split; [reflexivity|]. exact H1.
  - eexists. rewrite !list_lookup_alter_eq, He. split; [reflexivity|]. exact H2.
  - intros j' Hj. rewrite !list_lookup_alter_ne by congruence. reflexivity.
  - reflexivity.
Qed.

End BarHover.

Section PlatformHover.
Import Platform.
Local Open Scope Q_scope.

Variable f : formatters.

Lemma platform_mouseover_frame (ev : mouse_event) (i : nat) (c : chart)
    (tips : list DOM.element) :
  tooltip (fst (mouseover f ev i c tips)) = tooltip c /\
  data (fst (mouseover f ev i c tips)) = data c /\
  forall j, j <> tooltip c -> snd (mouseover f ev i c tips) !! j = tips !! j.
Proof.
  unfold mouseover. destruct (data c !! i); cbn [fst snd with_rects tooltip data]; auto.
  repeat split. intros j Hj. apply list_lookup_alter_ne. auto.
Qed.

Lemma platform_mouseout_frame (i : nat) (c : chart) (tips : list DOM.element) :
  tooltip (fst (mouseout i c tips)) = tooltip c /\
  data (fst (mouseout i c tips)) = data c /\
  forall j, j <> tooltip c -> snd (mouseout i c tips) !! j = tips !! j.
Proof.
  unfold mouseout. destruct (data c !! i); cbn [fst snd with_rects tooltip data]; auto.
  repeat split. intros j Hj. apply list_lookup_alter_ne. auto.
Qed.

Lemma platform_mouseover_shows (ev : mouse_event) (i : nat) (c : chart)
    (tips : list DOM.element) (d : datum) (t : DOM.element) :
  data c !! i = Some d -> tips !! tooltip c = Some t ->
  exists t', snd (mouseover f ev i c tips) !! tooltip c = Some t' /\
             DOM.styles t' !! "opacity" = Some (DOM.VNum (9 # 10)).
Proof.
  intros Hd Ht. unfold mouseover. rewrite Hd. cbn [snd].
  rewrite list_lookup_alter_eq, Ht. eexists. split; [reflexivity|].
  unfold DOM.transition. destruct (field (metric c) d);
    cbn [DOM.style DOM.set_html DOM.styles].
  - rewrite !lookup_insert_ne by discriminate. apply lookup_insert_eq.
  - apply lookup_insert_eq.
Qed.

Lemma platform_mouseout_hides (i : nat) (c : chart) (tips : list DOM.element) (d : datum)
    (t : DOM.element) :
  data c !! i = Some d -> tips !! tooltip c = Some t ->
  exists t', snd (mouseout i c tips) !! tooltip c = Some t' /\ DashboardSpec.hidden t'.
Proof.
  intros Hd Ht. unfold mouseout. rewrite Hd. cbn [snd].
  rewrite list_lookup_alter_eq, Ht. eexists. split; [reflexivity|].
  unfold DashboardSpec.hidden, DOM.transition. cbn [DOM.style DOM.styles].
  apply lookup_insert_eq.
Qed.

Lemma platform_mouseover_tooltip (ev : mouse_event) (i : nat) (c : chart)
    (tips : list DOM.element) (d : datum) (t : DOM.element) :
  data c !! i = Some d -> tips !! tooltip c = Some t ->
  exists t', snd (mouseover f ev i c tips) !! tooltip c = Some t' /\
             HoverSpec.column_shown f ev (metric c) d t'.
Proof.
  intros Hd Ht. unfold mouseover. rewrite Hd. cbn [snd].
  rewrite list_lookup_alter_eq, Ht. eexists. split; [reflexivity|].
  unfold HoverSpec.column_shown, DOM.transition. split.
  - destruct (field (metric c) d); cbn [DOM.style DOM.set_html DOM.styles].
    + rewrite !lookup_insert_ne by discriminate. apply lookup_insert_eq.
    + apply lookup_insert_eq.
  - intros v Hv. rewrite Hv. cbn [DOM.style DOM.set_html DOM.styles DOM.html].
    repeat split.
    + rewrite lookup_insert_ne by discriminate. apply lookup_insert_eq.
    + apply lookup_insert_eq.
Qed.

(** Bars are created at rest. *)
Lemma column_created (c : config) (x : D3.band) (y : D3.linear) (m : string) (d : datum) :
  HoverSpec.column_at_rest d (rect c x y m d).
Proof.
  unfold HoverSpec.column_at_rest, HoverSpec.fill, HoverSpec.opacity, HoverSpec.presented,
    rect, fill.
  destruct (platformColors (platform d)); unfold DOM.attr; cbn [DOM.attrs DOM.styles DOM.blank].
  - rewrite lookup_empty, lookup_insert_eq, !lookup_insert_ne by discriminate.
    rewrite lookup_empty. repeat split.
  - rewrite lookup_empty, lookup_delete_eq, lookup_delete_ne by discriminate.
    rewrite !lookup_insert_ne by discriminate. rewrite lookup_empty. repeat split.
Qed.

Lemma transition_fill_frame (d : datum) (e : DOM.element) :
  DOM.styles (transition_fill d e) = DOM.styles e /\
  DOM.html (transition_fill d e) = DOM.html e /\
  (forall name, name <> "fill"%string ->
                DOM.attrs (transition_fill d e) !! name = DOM.attrs e !! name) /\
  HoverSpec.paint (DOM.attrs (transition_fill d e) !! "fill")
    = HoverSpec.paint (DOM.VStr <$> platformColors (platform d)).
Proof.
  unfold transition_fill. destruct (platformColors (platform d)) as [colour|] eqn:E.
  - destruct (color_platform _ _ E) as (c & Hc & Hf).
    split; [apply transition_attr_styles|]. split; [apply transition_attr_styles|].
    split; [intros name Hn; apply transition_attr_other; exact Hn|].
    rewrite (transition_attr_paints "fill" colour c e Hc Hf). cbn. symmetry. exact Hc.
  - cbn [DOM.attrs DOM.styles DOM.html]. repeat split.
    + intros name Hn. apply lookup_delete_ne. congruence.
    + rewrite lookup_delete_eq. reflexivity.
Qed.

(** What the pointer entering does to a bar at rest, and what its leaving
    does next. *)
Lemma column_entered_left (d : datum) (e : DOM.element) :
  HoverSpec.column_at_rest d e ->
  let enter e := DOM.transition_attr "opacity" (DOM.VNum (1 # 2)) (transition_fill d e) in
  let leave e := DOM.transition_attr "opacity" (DOM.VNum 1) (transition_fill d e) in
  (HoverSpec.fill (enter e) = HoverSpec.fill e /\ HoverSpec.opacity (enter e) == 1 # 2 /\
   HoverSpec.stroke (enter e) = HoverSpec.stroke e /\
   HoverSpec.differs_in ["fill"; "opacity"] e (enter e)) /\
  (HoverSpec.same_look e (leave (enter e)) /\ HoverSpec.column_at_rest d (leave (enter e)) /\
   HoverSpec.differs_in ["fill"; "opacity"] e (leave (enter e))).
Proof.
  intros (Hs & Hf & Ho & Hn) enter leave. subst enter leave. cbv beta.
  set (e1 := transition_fill d e).
  set (e2 := DOM.transition_attr "opacity" (DOM.VNum (1 # 2)) e1).
  set (e3 := transition_fill d e2).
  set (e4 := DOM.transition_attr "opacity" (DOM.VNum 1) e3).
  destruct (transition_fill_frame d e) as (A1 & B1 & C1 & P1). fold e1 in A1, B1, C1, P1.
  destruct (transition_fill_frame d e2) as (A3 & B3 & C3 & P3). fold e3 in A3, B3, C3, P3.
  assert (S2 : DOM.styles e2 = ∅ /\ DOM.html e2 = DOM.html e).
  { subst e2. rewrite (proj1 (transition_attr_styles _ _ _)), (proj2 (transition_attr_styles _ _ _)).
    rewrite A1, B1. auto. }
  assert (S4 : DOM.styles e4 = ∅ /\ DOM.html e4 = DOM.html e).
  { subst e4. rewrite (proj1 (transition_attr_styles _ _ _)), (proj2 (transition_attr_styles _ _ _)).
    rewrite A3, B3. exact S2. }
  assert (O2 : DOM.attrs e2 !! "opacity" = Some (DOM.VNum (1 # 2))).
  { subst e2. apply transition_attr_number. rewrite C1 by discriminate. exact Hn. }
  assert (O4 : DOM.attrs e4 !! "opacity" = Some (DOM.VNum 1)).
  { subst e4. apply transition_attr_number. rewrite C3 by discriminate. rewrite O2. exact I. }
  assert (F2 : HoverSpec.paint (DOM.attrs e2 !! "fill")
               = HoverSpec.paint (DOM.VStr <$> platformColors (platform d))).
  { subst e2. rewrite transition_attr_other by discriminate. exact P1. }
  assert (F4 : HoverSpec.paint (DOM.attrs e4 !! "fill")
               = HoverSpec.paint (DOM.VStr <$> platformColors (platform d))).
  { subst e4. rewrite transition_attr_other by discriminate. exact P3. }
  assert (D2 : forall name, name ∉ ["fill"; "opacity"]%string ->
                            DOM.attrs e2 !! name = DOM.attrs e !! name).
  { intros name Hm. repeat (apply not_elem_of_cons in Hm as [? Hm]).
    subst e2. rewrite transition_attr_other by congruence. apply C1. congruence. }
  assert (D4 : forall name, name ∉ ["fill"; "opacity"]%string ->
                            DOM.attrs e4 !! name = DOM.attrs e !! name).
  { intros name Hm. rewrite <- (D2 name Hm). repeat (apply not_elem_of_cons in Hm as [? Hm]).
    subst e4. rewrite transition_attr_other by congruence. apply C3. congruence. }
  assert (K2 : HoverSpec.stroke e2 = HoverSpec.stroke e).
  { unfold HoverSpec.stroke, HoverSpec.presented. rewrite (proj1 S2), Hs, !lookup_empty.
    rewrite !D2 by (intros Hin; repeat (apply elem_of_cons in Hin as [Hin|Hin]; [discriminate|]);
                    inversion Hin). reflexivity. }
  assert (K4 : HoverSpec.stroke e4 = HoverSpec.stroke e).
  { unfold HoverSpec.stroke, HoverSpec.presented. rewrite (proj1 S4), Hs, !lookup_empty.
    rewrite !D4 by (intros Hin; repeat (apply elem_of_cons in Hin as [Hin|Hin]; [discriminate|]);
                    inversion Hin). reflexivity. }
  unfold HoverSpec.same_look, HoverSpec.column_at_rest, HoverSpec.differs_in.
  rewrite K2, K4.
  unfold HoverSpec.fill, HoverSpec.opacity, HoverSpec.presented in *.
  destruct S2 as [S2 H2], S4 as [S4 H4]. rewrite Hs in *. rewrite S2, S4.
  rewrite !lookup_empty in *. rewrite O2, O4, F2, F4, Hf.
  repeat split; auto; try reflexivity.
  symmetry. exact Ho.
Qed.

(** Hovering a bar of the comparison chart. *)
Lemma column_hover_round_trip (ev : mouse_event) (i : nat) (c : chart)
    (tips : list DOM.element) (d : datum) (e t : DOM.element) :
  data c !! i = Some d -> rects c !! i = Some e -> tips !! tooltip c = Some t ->
  HoverSpec.column_at_rest d e ->
  let over := mouseover f ev i c tips in
  let out := HoverSpec.column_hover f ev i c tips in
  (exists e1 t1,
      rects (fst over) !! i = Some e1 /\
      HoverSpec.fill e1 = HoverSpec.fill e /\ HoverSpec.opacity e1 == 1 # 2 /\
      HoverSpec.stroke e1 = HoverSpec.stroke e /\
      HoverSpec.differs_in ["fill"; "opacity"] e e1 /\
      snd over !! tooltip c = Some t1 /\ HoverSpec.column_shown f ev (metric c) d t1) /\
  (exists e2 t2,
      rects (fst out) !! i = Some e2 /\
      HoverSpec.same_look e e2 /\ HoverSpec.column_at_rest d e2 /\
      HoverSpec.differs_in ["fill"; "opacity"] e e2 /\
      snd out !! tooltip c = Some t2 /\ DashboardSpec.hidden t2) /\
  (forall i', i' <> i -> rects (fst out) !! i' = rects c !! i').
Proof.
  intros Hd He Ht Hrest over out. subst over out. unfold HoverSpec.column_hover.
  destruct (platform_mouseover_tooltip ev i c tips d t Hd Ht) as (t1 & Ht1 & Hshown).
  destruct (platform_mouseover_frame ev i c tips) as (Htip & Hdata & _).
  assert (Hd1 : data (fst (mouseover f ev i c tips)) !! i = Some d) by (rewrite Hdata; exact Hd).
  destruct (platform_mouseout_hides i (fst (mouseover f ev i c tips))
              (snd (mouseover f ev i c tips)) d t1 Hd1) as (t2 & Ht2 & Hhidden).
  { rewrite Htip. exact Ht1. }
  rewrite Htip in Ht2.
  assert (Eover : rects (fst (mouseover f ev i c tips)) =
                  alter (fun e => DOM.transition_attr "opacity" (DOM.VNum (1 # 2))
                                    (transition_fill d e)) i (rects c)).
  { unfold mouseover. rewrite Hd. reflexivity. }
  assert (Eout : rects (fst (mouseout i (fst (mouseover f ev i c tips))
                               (snd (mouseover f ev i c tips)))) =
                 alter (fun e => DOM.transition_attr "opacity" (DOM.VNum 1)
                                   (transition_fill d e)) i
                   (rects (fst (mouseover f ev i c tips)))).
  { unfold mouseout at 1. rewrite Hd1. reflexivity. }
  destruct (column_entered_left d e Hrest) as [(H1 & H2 & H3 & H4) (H5 & H6 & H7)].
  split; [|split].
  - eexists _, t1. split; [rewrite Eover, list_lookup_alter_eq, He; reflexivity|]. auto 10.
  - eexists _, t2.
    split; [rewrite Eout, Eover, !list_lookup_alter_eq, He; reflexivity|]. auto 10.
  - intros i' Hi. rewrite Eout, Eover, !list_lookup_alter_ne by congruence. reflexivity.
Qed.

End PlatformHover.


Section Hover.
Import HoverSpec.
Local Open Scope Q_scope.

Variable f : formatters.

(** C10, as amended. Every transition is taken at its end. For every mark
    that no pointer is over, pointer-enter highlights the mark and a
    following pointer-leave puts it back: after the leave the mark is
    painted as before the enter (the same fill, opacity and outline), it is
    at rest again, what the enter showed is hidden, and its inline style,
    its attributes other than those of the highlight and the other marks
    are as before. Marks are created at rest.
    A circle of the scatter plot: enter changes the fill to [#191414], sets
    the opacity attribute to 0.5, under which the circle is still painted
    at the 0.7 of its inline style, and shows the chart's tooltip with the
    record's fields next to the pointer; leave hides the tooltip.
    A bar of the bar chart: enter raises the opacity to 1 and draws a dark
    outline, the fill stays green.
    A bar of the comparison chart: enter lowers the opacity to 0.5 and
    shows the chart's tooltip, the fill stays; leave hides the tooltip. *)
Theorem hover_round_trip :
  (forall (ev : mouse_event) (i : nat) (c : Scatter.chart) (tips : list DOM.element)
          (d : Scatter.datum) (e t : DOM.element),
      Scatter.data c !! i = Some d -> Scatter.circles c !! i = Some e ->
      tips !! Scatter.tooltip c = Some t -> circle_at_rest e ->
      let over := Scatter.mouseover f ev i c tips in
      let out := hover f ev i c tips in
      (exists e1 t1,
          Scatter.circles (fst over) !! i = Some e1 /\
          fill e1 = Some dark /\ DOM.attrs e1 !! "opacity" = Some (DOM.VNum (1 # 2)) /\
          opacity e1 == 7 # 10 /\ stroke e1 = stroke e /\
          differs_in ["fill"; "opacity"] e e1 /\
          snd over !! Scatter.tooltip c = Some t1 /\ shown f ev d t1) /\
      (exists e2 t2,
          Scatter.circles (fst out) !! i = Some e2 /\
          same_look e e2 /\ circle_at_rest e2 /\ differs_in ["fill"; "opacity"] e e2 /\
          snd out !! Scatter.tooltip c = Some t2 /\ DashboardSpec.hidden t2) /\
      (forall i', i' <> i -> Scatter.circles (fst out) !! i' = Scatter.circles c !! i') /\
      circle_at_rest (Scatter.circle (Scatter.x c) (Scatter.y c) d)) /\
  (forall (j : nat) (b : TopArtists.chart) (d : TopArtists.datum) (e : DOM.element),
      TopArtists.rects b !! j = Some (d, e) -> bar_at_rest e ->
      (exists e1,
          TopArtists.rects (TopArtists.mouseover j b) !! j = Some (d, e1) /\
          fill e1 = Some green /\ opacity e1 == 1 /\ stroke e1 = Some dark /\
          differs_in ["fill"; "opacity"; "stroke"; "stroke-width"] e e1) /\
      (exists e2,
          TopArtists.rects (bar_hover j b) !! j = Some (d, e2) /\
          same_look e e2 /\ bar_at_rest e2 /\
          differs_in ["fill"; "opacity"; "stroke"; "stroke-width"] e e2) /\
      (forall j', j' <> j -> TopArtists.rects (bar_hover j b) !! j' = TopArtists.rects b !! j') /\
      bar_at_rest (TopArtists.rect (TopArtists.cfg b) (TopArtists.x b) (TopArtists.y b) d)) /\
  (forall (ev : mouse_event) (i : nat) (c : Platform.chart) (tips : list DOM.element)
          (d : Platform.datum) (e t : DOM.element),
      Platform.data c !! i = Some d -> Platform.rects c !! i = Some e ->
      tips !! Platform.tooltip c = Some t -> column_at_rest d e ->
      let over := Platform.mouseover f ev i c tips in
      let out := column_hover f ev i c tips in
      (exists e1 t1,
          Platform.rects (fst over) !! i = Some e1 /\
          fill e1 = fill e /\ opacity e1 == 1 # 2 /\ stroke e1 = stroke e /\
          differs_in ["fill"; "opacity"] e e1 /\
          snd over !! Platform.tooltip c = Some t1 /\
          column_shown f ev (Platform.metric c) d t1) /\
      (exists e2 t2,
          Platform.rects (fst out) !! i = Some e2 /\
          same_look e e2 /\ column_at_rest d e2 /\ differs_in ["fill"; "opacity"] e e2 /\
          snd out !! Platform.tooltip c = Some t2 /\ DashboardSpec.hidden t2) /\
      (forall i', i' <> i -> Platform.rects (fst out) !! i' = Platform.rects c !! i') /\
      (forall m,
          column_at_rest d
            (Platform.rect (Platform.cfg c) (Platform.x c) (Platform.y c) m d))).
Proof.
  split; [|split].
  - intros ev i c tips d e t Hd He Ht Hrest over out.
    destruct (scatter_hover_round_trip f ev i c tips d e t Hd He Ht Hrest) as (H1 & H2 & H3).
    split; [exact H1|]. split; [exact H2|]. split; [exact H3|]. apply circle_created.
  - intros j b d e He Hrest.
    destruct (bar_hover_round_trip j b d e He Hrest) as (H1 & H2 & H3 & _).
    split; [exact H1|]. split; [exact H2|]. split; [exact H3|]. apply rect_created.
  - intros ev i c tips d e t Hd He Ht Hrest over out.
    destruct (column_hover_round_trip f ev i c tips d e t Hd He Ht Hrest) as (H1 & H2 & H3).
    split; [exact H1|]. split; [exact H2|]. split; [exact H3|].
    intros m. apply column_created.
Qed.

End Hover.

Section ScatterHoverSample.
Import HoverSpec Samples.
Local Open Scope Q_scope.

(** The statement on the chart of one track, its tooltip first in [body]:
    after the hover the circle is painted as it was created. *)
Lemma hover_round_trip_witness :
  let c := Scatter.create Scatter.default_config one_track 0 in
  let d := {| Scatter.streams := 1000; Scatter.reach := 2000;
              Scatter.track := "A"; Scatter.artist := "X" |} in
  let out := hover plain {| pageX := 100; pageY := 50 |} 0 c [new_tooltip] in
  circle_at_rest (Scatter.circle (Scatter.x c) (Scatter.y c) d) /\
  exists e2 t2,
    Scatter.circles (fst out) !! 0%nat = Some e2 /\
    same_look (Scatter.circle (Scatter.x c) (Scatter.y c) d) e2 /\ circle_at_rest e2 /\
    differs_in ["fill"; "opacity"] (Scatter.circle (Scatter.x c) (Scatter.y c) d) e2 /\
    snd out !! Scatter.tooltip c = Some t2 /\ DashboardSpec.hidden t2.
Proof.
  cbv zeta.
  assert (R : circle_at_rest
                (Scatter.circle
                   (Scatter.x (Scatter.create Scatter.default_config one_track 0))
                   (Scatter.y (Scatter.create Scatter.default_config one_track 0))
                   {| Scatter.streams := 1000; Scatter.reach := 2000;
                      Scatter.track := "A"; Scatter.artist := "X" |})).
  { unfold circle_at_rest, fill, presented, Scatter.circle, DOM.style, DOM.attr.
    cbn [DOM.attrs DOM.styles]. repeat split. }
  split; [exact R|].
  exact (proj1 (proj2
           (proj1 (hover_round_trip plain) {| pageX := 100; pageY := 50 |} 0%nat
              (Scatter.create Scatter.default_config one_track 0) [new_tooltip]
              {| Scatter.streams := 1000; Scatter.reach := 2000;
                 Scatter.track := "A"; Scatter.artist := "X" |}
              _ new_tooltip eq_refl eq_refl eq_refl R))).
Defined.

(** C10 as stated fails on the chart of one track: pointer-enter does not
    raise the opacity to 1. It sets the circle's opacity attribute to 0.5,
    and the circle is painted at 0.7, the opacity of its inline style, as
    it was before. *)
Lemma hover_changes_opacity :
  let c := Scatter.create Scatter.default_config one_track 0 in
  let over := Scatter.mouseover plain {| pageX := 100; pageY := 50 |} 0 c [new_tooltip] in
  exists e e1,
    Scatter.circles c !! 0%nat = Some e /\ Scatter.circles (fst over) !! 0%nat = Some e1 /\
    DOM.attrs e !! "opacity" = None /\ opacity e == 7 # 10 /\
    DOM.attrs e1 !! "opacity" = Some (DOM.VNum (1 # 2)) /\ opacity e1 == 7 # 10 /\
    ~ opacity e1 == 1.
Proof.
  cbv zeta. eexists _, _. split; [reflexivity|]. split; [reflexivity|].
  split; [reflexivity|]. split; [reflexivity|]. split; [reflexivity|]. split; [reflexivity|].
  intros E. discriminate E.
Qed.

End ScatterHoverSample.

(** * The tooltips of the page *)

Section PageTooltips.
Import Dashboard DashboardSpec.
Local Open Scope Q_scope.

Variable f : formatters.

(** A handler writes to no tooltip but its chart's own. *)
Lemma mouseover_other_tooltips (ev : mouse_event) (m : mark) (p : page) (j : nat) :
  owner m p <> Some j -> tooltips (mouseover f ev m p) !! j = tooltips p !! j.
Proof.
  intros Hj. destruct m as [c i|c i|c i]; cbn [mouseover owner] in *.
  - destruct (scatterPlot p !! c) as [ch|]; [|reflexivity].
    destruct (Scatter.mouseover f ev i ch (tooltips p)) as [ch' tips] eqn:E.
    cbn [with_scatterPlot tooltips].
    destruct (mouseover_frame f ev i ch (tooltips p)) as (_ & _ & _ & H).
    rewrite E in H. cbn [snd] in H. apply H. cbn in Hj. congruence.
  - reflexivity.
  - destruct (platformComparison p !! c) as [ch|]; [|reflexivity].
    destruct (Platform.mouseover f ev i ch (tooltips p)) as [ch' tips] eqn:E.
    cbn [with_platformComparison tooltips].
    destruct (platform_mouseover_frame f ev i ch (tooltips p)) as (_ & _ & H).
    rewrite E in H. cbn [snd] in H. apply H. cbn in Hj. congruence.
Qed.

Lemma mouseout_other_tooltips (m : mark) (p : page) (j : nat) :
  owner m p <> Some j -> tooltips (mouseout m p) !! j = tooltips p !! j.
Proof.
  intros Hj. destruct m as [c i|c i|c i]; cbn [mouseout owner] in *.
  - destruct (scatterPlot p !! c) as [ch|]; [|reflexivity].
    destruct (Scatter.mouseout i ch (tooltips p)) as [ch' tips] eqn:E.
    cbn [with_scatterPlot tooltips].
    destruct (mouseout_frame i ch (tooltips p)) as (_ & _ & _ & H).
    rewrite E in H. cbn [snd] in H. apply H. cbn in Hj. congruence.
  - reflexivity.
  - destruct (platformComparison p !! c) as [ch|]; [|reflexivity].
    destruct (Platform.mouseout i ch (tooltips p)) as [ch' tips] eqn:E.
    cbn [with_platformComparison tooltips].
    destruct (platform_mouseout_frame i ch (tooltips p)) as (_ & _ & H).
    rewrite E in H. cbn [snd] in H. apply H. cbn in Hj. congruence.
Qed.

(** The show-call of a mark on the page leaves its chart's tooltip visible,
    whatever the tooltip looked like. *)
Lemma mouseover_own_tooltip (ev : mouse_event) (m : mark) (p : page) (j : nat)
    (t : DOM.element) :
  on_page m p -> owner m p = Some j -> tooltips p !! j = Some t ->
  exists t', tooltips (mouseover f ev m p) !! j = Some t' /\
             DOM.styles t' !! "opacity" = Some (DOM.VNum (9 # 10)).
Proof.
  intros Hm Ho Ht. destruct m as [c i|c i|c i]; cbn [mouseover owner on_page] in *.
  - destruct Hm as (ch & Hch & Hi). rewrite Hch in *. cbn in Ho. injection Ho as <-.
    destruct (lookup_lt_is_Some_2 _ _ Hi) as [d Hd].
    destruct (mouseover_shows f ev i ch (tooltips p) d t Hd Ht) as (t' & Ht' & Hs & _).
    destruct (Scatter.mouseover f ev i ch (tooltips p)) as [ch' tips].
    cbn [with_scatterPlot tooltips]. exists t'. auto.
  - discriminate Ho.
  - destruct Hm as (ch & Hch & Hi). rewrite Hch in *. cbn in Ho. injection Ho as <-.
    destruct (lookup_lt_is_Some_2 _ _ Hi) as [d Hd].
    destruct (platform_mouseover_shows f ev i ch (tooltips p) d t Hd Ht) as (t' & Ht' & Hs).
    destruct (Platform.mouseover f ev i ch (tooltips p)) as [ch' tips].
    cbn [with_platformComparison tooltips]. exists t'. auto.
Qed.

(** The hide of a mark on the page leaves its chart's tooltip hidden,
    whatever the tooltip looked like. *)
Lemma mouseout_own_tooltip (m : mark) (p : page) (j : nat) (t : DOM.element) :
  on_page m p -> owner m p = Some j -> tooltips p !! j = Some t ->
  exists t', tooltips (mouseout m p) !! j = Some t' /\ hidden t'.
Proof.
  intros Hm Ho Ht. destruct m as [c i|c i|c i]; cbn [mouseout owner on_page] in *.
  - destruct Hm as (ch & Hch & Hi). rewrite Hch in *. cbn in Ho. injection Ho as <-.
    destruct (lookup_lt_is_Some_2 _ _ Hi) as [d Hd].
    destruct (mouseout_hides i ch (tooltips p) d t Hd Ht) as (t' & Ht' & Hs).
    destruct (Scatter.mouseout i ch (tooltips p)) as [ch' tips].
    cbn [with_scatterPlot tooltips]. exists t'. auto.
  - discriminate Ho.
  - destruct Hm as (ch & Hch & Hi). rewrite Hch in *. cbn in Ho. injection Ho as <-.
    destruct (lookup_lt_is_Some_2 _ _ Hi) as [d Hd].
    destruct (platform_mouseout_hides i ch (tooltips p) d t Hd Ht) as (t' & Ht' & Hs).
    destruct (Platform.mouseout i ch (tooltips p)) as [ch' tips].
    cbn [with_platformComparison tooltips]. exists t'. auto.
Qed.

(** The handlers keep every chart's tooltip and every mark of the page. *)
Lemma mouseover_owner (ev : mouse_event) (m m' : mark) (p : page) :
  owner m' (mouseover f ev m p) = owner m' p.
Proof.
  destruct m as [c i|c i|c i]; cbn [mouseover].
  - destruct (scatterPlot p !! c) as [ch|] eqn:Hch; [|reflexivity].
    destruct (mouseover_frame f ev i ch (tooltips p)) as (Ht & _).
    destruct (Scatter.mouseover f ev i ch (tooltips p)) as [ch' tips]. cbn [fst] in Ht.
    destruct m' as [c' i'|c' i'|c' i']; cbn [owner with_scatterPlot scatterPlot platformComparison];
      try reflexivity.
    destruct (decide (c = c')) as [<-|Hc].
    + rewrite list_lookup_insert_eq by (eapply lookup_lt_Some; exact Hch).
      rewrite Hch. cbn. congruence.
    + rewrite list_lookup_insert_ne by exact Hc. reflexivity.
  - destruct m' as [c' i'|c' i'|c' i']; reflexivity.
  - destruct (platformComparison p !! c) as [ch|] eqn:Hch; [|reflexivity].
    destruct (platform_mouseover_frame f ev i ch (tooltips p)) as (Ht & _).
    destruct (Platform.mouseover f ev i ch (tooltips p)) as [ch' tips]. cbn [fst] in Ht.
    destruct m' as [c' i'|c' i'|c' i'];
      cbn [owner with_platformComparison scatterPlot platformComparison]; try reflexivity.
    destruct (decide (c = c')) as [<-|Hc].
    + rewrite list_lookup_insert_eq by (eapply lookup_lt_Some; exact Hch).
      rewrite Hch. cbn. congruence.
    + rewrite list_lookup_insert_ne by exact Hc. reflexivity.
Qed.

Lemma mouseout_owner (m m' : mark) (p : page) : owner m' (mouseout m p) = owner m' p.
Proof.
  destruct m as [c i|c i|c i]; cbn [mouseout].
  - destruct (scatterPlot p !! c) as [ch|] eqn:Hch; [|reflexivity].
    destruct (mouseout_frame i ch (tooltips p)) as (Ht & _).
    destruct (Scatter.mouseout i ch (tooltips p)) as [ch' tips]. cbn [fst] in Ht.
    destruct m' as [c' i'|c' i'|c' i']; cbn [owner with_scatterPlot scatterPlot platformComparison];
      try reflexivity.
    destruct (decide (c = c')) as [<-|Hc].
    + rewrite list_lookup_insert_eq by (eapply lookup_lt_Some; exact Hch).
      rewrite Hch. cbn. congruence.
    + rewrite list_lookup_insert_ne by exact Hc. reflexivity.
  - destruct m' as [c' i'|c' i'|c' i']; reflexivity.
  - destruct (platformComparison p !! c) as [ch|] eqn:Hch; [|reflexivity].
    destruct (platform_mouseout_frame i ch (tooltips p)) as (Ht & _).
    destruct (Platform.mouseout i ch (tooltips p)) as [ch' tips]. cbn [fst] in Ht.
    destruct m' as [c' i'|c' i'|c' i'];
      cbn [owner with_platformComparison scatterPlot platformComparison]; try reflexivity.
    destruct (decide (c = c')) as [<-|Hc].
    + rewrite list_lookup_insert_eq by (eapply lookup_lt_Some; exact Hch).
      rewrite Hch. cbn. congruence.
    + rewrite list_lookup_insert_ne by exact Hc. reflexivity.
Qed.

Lemma mouseover_on_page (ev : mouse_event) (m m' : mark) (p : page) :
  on_page m' p -> on_page m' (mouseover f ev m p).
Proof.
  destruct m as [c i|c i|c i]; cbn [mouseover].
  - destruct (scatterPlot p !! c) as [ch|] eqn:Hch; [|auto].
    destruct (mouseover_frame f ev i ch (tooltips p)) as (_ & Hd & _).
    destruct (Scatter.mouseover f ev i ch (tooltips p)) as [ch' tips]. cbn [fst] in Hd.
    destruct m' as [c' i'|c' i'|c' i'];
      cbn [on_page with_scatterPlot scatterPlot topArtists platformComparison]; auto.
    intros (ch0 & H0 & Hi). destruct (decide (c = c')) as [<-|Hc].
    + exists ch'. rewrite list_lookup_insert_eq by (eapply lookup_lt_Some; exact Hch).
      split; [reflexivity|]. rewrite Hd. congruence.
    + exists ch0. rewrite list_lookup_insert_ne by exact Hc. auto.
  - destruct m' as [c' i'|c' i'|c' i'];
      cbn [on_page with_topArtists scatterPlot topArtists platformComparison]; auto.
    intros (ch0 & H0 & Hi). destruct (decide (c = c')) as [<-|Hc].
    + exists (TopArtists.mouseover i ch0). rewrite list_lookup_alter_eq, H0.
      split; [reflexivity|]. unfold TopArtists.mouseover. cbn. rewrite length_alter. exact Hi.
    + exists ch0. rewrite list_lookup_alter_ne by exact Hc. auto.
  - destruct (platformComparison p !! c) as [ch|] eqn:Hch; [|auto].
    destruct (platform_mouseover_frame f ev i ch (tooltips p)) as (_ & Hd & _).
    destruct (Platform.mouseover f ev i ch (tooltips p)) as [ch' tips]. cbn [fst] in Hd.
    destruct m' as [c' i'|c' i'|c' i'];
      cbn [on_page with_platformComparison scatterPlot topArtists platformComparison]; auto.
    intros (ch0 & H0 & Hi). destruct (decide (c = c')) as [<-|Hc].
    + exists ch'. rewrite list_lookup_insert_eq by (eapply lookup_lt_Some; exact Hch).
      split; [reflexivity|]. rewrite Hd. congruence.
    + exists ch0. rewrite list_lookup_insert_ne by exact Hc. auto.
Qed.

Lemma pointer_step_invariant (s s' : option mark * page) (e : pointer_event) :
  pointer_step f s e s' -> pointer_invariant s -> pointer_invariant s'.
Proof.
  intros Hstep [Hvis Hon]. destruct Hstep as [ev m p Hm | m p].
  - split.
    + intros j t Ht Hnh. cbn [fst snd] in *. exists m. split; [reflexivity|].
      rewrite mouseover_owner.
      destruct (decide (owner m p = Some j)) as [E|E]; [exact E|]. exfalso.
      rewrite mouseover_other_tooltips in Ht by exact E.
      destruct (Hvis j t Ht Hnh) as (m0 & Hm0 & _). discriminate Hm0.
    + intros m0 [= <-]. cbn [snd]. apply mouseover_on_page. exact Hm.
  - split; [|intros m0 H0; discriminate H0].
    intros j t Ht Hnh. cbn [fst snd] in *. exfalso.
    pose proof (Hon m eq_refl) as Hm.
    destruct (decide (owner m p = Some j)) as [E|E].
    + destruct (tooltips p !! j) as [t0|] eqn:Ht0.
      * destruct (mouseout_own_tooltip m p j t0 Hm E Ht0) as (t' & Ht' & Hh).
        rewrite Ht in Ht'. injection Ht' as <-. exact (Hnh Hh).
      * apply lookup_ge_None in Ht0. apply lookup_lt_Some in Ht.
        assert (Hlen : length (tooltips (mouseout m p)) = length (tooltips p)).
        { destruct m as [c i|c i|c i]; cbn [mouseout].
          - destruct (scatterPlot p !! c) as [ch|]; [|reflexivity].
            destruct (mouseout_frame i ch (tooltips p)) as (_ & _ & Hl & _).
            destruct (Scatter.mouseout i ch (tooltips p)). exact Hl.
          - reflexivity.
          - destruct (platformComparison p !! c) as [ch|]; [|reflexivity].
            unfold Platform.mouseout. destruct (Platform.data ch !! i);
              cbn; [apply length_alter | reflexivity]. }
        lia.
    + rewrite mouseout_other_tooltips in Ht by exact E.
      destruct (Hvis j t Ht Hnh) as (m0 & [= <-] & Ho). contradiction.
Qed.

Lemma pointer_run_invariant (s s' : option mark * page) (events : list pointer_event) :
  pointer_run f s events s' -> pointer_invariant s -> pointer_invariant s'.
Proof.
  induction 1 as [s | s e s1 es s2 Hstep Hrun IH]; intros H; [exact H|].
  apply IH. eapply pointer_step_invariant; eassumption.
Qed.

End PageTooltips.

Section Tooltips.
Import Dashboard DashboardSpec Samples.
Local Open Scope Q_scope.

(** C9, as amended. Each chart that shows a tooltip appends one of its
    own to [body]: a build adds two, the scatter plot's and the comparison
    chart's, and the bar chart has none. The show-call of a mark makes its
    chart's tooltip visible whatever state it was in, so the last show
    wins; the hide on pointer-leave makes it hidden whatever state it was
    in; neither touches another tooltip. Starting with every tooltip hidden,
    along every run of one pointer (it enters a mark only after leaving the
    previous one) at most one tooltip is visible, the one of the chart whose
    mark the pointer is over. *)
Theorem tooltips_of_the_page :
  (forall td ad pd (p : page),
      let p' := built td ad pd p in
      exists sc pc,
        scatterPlot p' = scatterPlot p ++ [sc] /\
        platformComparison p' = platformComparison p ++ [pc] /\
        tooltips p' = tooltips p ++ [new_tooltip; new_tooltip] /\
        Scatter.tooltip sc = length (tooltips p) /\
        Platform.tooltip pc = S (length (tooltips p))) /\
  (forall f ev (m : mark) (p : page) j t,
      on_page m p -> owner m p = Some j -> tooltips p !! j = Some t ->
      (exists t', tooltips (mouseover f ev m p) !! j = Some t' /\
                  DOM.styles t' !! "opacity" = Some (DOM.VNum (9 # 10))) /\
      (exists t', tooltips (mouseout m p) !! j = Some t' /\ hidden t') /\
      (forall j', j' <> j ->
         tooltips (mouseover f ev m p) !! j' = tooltips p !! j' /\
         tooltips (mouseout m p) !! j' = tooltips p !! j')) /\
  (forall f (p : page) events s',
      (forall t, t ∈ tooltips p -> hidden t) ->
      pointer_run f (None, p) events s' ->
      at_most_one_visible s').
Proof.
  split; [|split].
  - intros td ad pd p p'. subst p'. unfold built. eexists _, _. cbn.
    repeat split.
    + rewrite <- app_assoc. reflexivity.
    + rewrite length_app. cbn. lia.
  - intros f ev m p j t Hm Ho Ht. split; [|split].
    + exact (mouseover_own_tooltip f ev m p j t Hm Ho Ht).
    + exact (mouseout_own_tooltip m p j t Hm Ho Ht).
    + intros j' Hj'. split.
      * apply mouseover_other_tooltips. congruence.
      * apply mouseout_other_tooltips. congruence.
  - intros f p events s' Hhidden Hrun.
    apply (pointer_run_invariant f (None, p) s' events Hrun).
    split; [|intros m H; discriminate H].
    intros j t Ht Hnh. exfalso. apply Hnh. apply Hhidden.
    apply list_elem_of_lookup. exists j. exact Ht.
Qed.

(** The statement on the initialized sample dashboard: the pointer enters
    the first circle, leaves it, and enters the first bar of the comparison
    chart. *)
Lemma tooltips_of_the_page_witness :
  (exists t', tooltips (mouseover plain {| pageX := 1; pageY := 2 |} (circle 0 0) sample_page)
                !! 0%nat = Some t' /\
              DOM.styles t' !! "opacity" = Some (DOM.VNum (9 # 10))) /\
  at_most_one_visible
    (Some (platform_bar 0 0),
     mouseover plain {| pageX := 3; pageY := 4 |} (platform_bar 0 0)
       (mouseout (circle 0 0)
          (mouseover plain {| pageX := 1; pageY := 2 |} (circle 0 0) sample_page))).
Proof.
  destruct tooltips_of_the_page as (_ & Hshow & Hrun). split.
  - apply (Hshow plain {| pageX := 1; pageY := 2 |} (circle 0 0) sample_page 0%nat new_tooltip).
    + exists (Scatter.create Scatter.default_config one_track 0). split; [reflexivity|]. cbn. lia.
    + reflexivity.
    + reflexivity.
  - apply (Hrun plain sample_page
             [ enter {| pageX := 1; pageY := 2 |} (circle 0 0);
               leave (circle 0 0);
               enter {| pageX := 3; pageY := 4 |} (platform_bar 0 0) ]).
    + intros t Ht. cbn in Ht.
      apply elem_of_cons in Ht as [->|Ht]; [reflexivity|].
      apply elem_of_cons in Ht as [->|Ht]; [reflexivity|]. inversion Ht.
    + eapply run_cons.
      { apply step_enter.
        exists (Scatter.create Scatter.default_config one_track 0).
        split; [reflexivity|]. cbn. lia. }
      eapply run_cons; [apply step_leave|].
      eapply run_cons; [|apply run_nil].
      apply step_enter.
      eexists. split; [reflexivity|]. cbn. lia.
Defined.

(** C9 as stated fails on the initialized sample dashboard: [body] holds
    two tooltips, the scatter plot writes to the first and the comparison
    chart to the second, and a show-call of the comparison chart leaves a
    tooltip shown by the scatter plot as it is. *)
Lemma tooltips_are_per_chart :
  length (tooltips sample_page) = 2%nat /\
  owner (circle 0 0) sample_page = Some 0%nat /\
  owner (platform_bar 0 0) sample_page = Some 1%nat /\
  owner (artist_bar 0 0) sample_page = None /\
  let p := mouseover plain {| pageX := 3; pageY := 4 |} (platform_bar 0 0)
             (mouseover plain {| pageX := 1; pageY := 2 |} (circle 0 0) sample_page) in
  ((fun t => DOM.styles t !! "opacity") <$> tooltips p !! 0%nat)
    = Some (Some (DOM.VNum (9 # 10))) /\
  ((fun t => DOM.styles t !! "opacity") <$> tooltips p !! 1%nat)
    = Some (Some (DOM.VNum (9 # 10))).
Proof.
  cbv zeta. repeat split.
Qed.

End Tooltips.
